(** * mirage-ecs: registry, purge rules, subdomain validation and tag codec

    A shallow embedding of the Go sources of the gateway
    ([reverseproxy.go], the ECS runner, the web API and the purge request
    types) together with the parts of the Go standard library they call
    ([encoding/base64], [path.Match], [unicode/utf8], [strings.Contains]).

    Go strings are byte sequences: they are modelled as [string] (a list of
    [ascii], one per byte); a [[]byte] is a [list Z] of values below 256. *)

From Stdlib Require Import ZArith List String Ascii Bool Lia Permutation Sorted DecimalString.
From Stdlib Require OrderedTypeEx.
From stdpp Require Import gmap strings list fin_maps.

#[local] Open Scope Z_scope.

(** ** Bytes and Go strings *)

Module gostring.

(** [s[i]] read as a number. *)
Definition byte_of (c : ascii) : Z := Z.of_N (N_of_ascii c).

(** The conversion [byte(x)] of an unsigned integer keeps the low 8 bits. *)
Definition byte (x : Z) : Z := Z.land x 255.

Definition ascii_of (b : Z) : ascii := ascii_of_N (Z.to_N (byte b)).

(** [[]byte(s)] *)
Definition bytes (s : string) : list Z := map byte_of (list_ascii_of_string s).

(** [string(d)] *)
Definition of_bytes (d : list Z) : string := string_of_list_ascii (map ascii_of d).

(** [len(s)] *)
Definition len (s : string) : Z := Z.of_nat (String.length s).

(** An array or slice read at an index computed as an integer. *)
Definition index (l : list Z) (i : Z) : Z := nth (Z.to_nat i) l 0.

Definition is_byte (b : Z) : Prop := 0 <= b < 256.

End gostring.

Import gostring.

(** ** [encoding/base64]: the padded URL alphabet used for tag values *)

Module base64.

Definition encodeURL : string :=
  "ABCDEFGHIJKLMNOPQRSTUVWXYZabcdefghijklmnopqrstuvwxyz0123456789-_".

(** ['='] *)
Definition StdPadding : Z := 61.

(** [padChar = None] is Go's [NoPadding]. *)
Record Encoding := mkEncoding {
  encode : list Z;
  decodeMap : list Z;
  padChar : option Z;
  strict : bool
}.

(** [NewEncoding]: [decodeMap] starts as 256 times [0xff] and receives
    [decodeMap[encoder[i]] = i] for every position of the alphabet. *)
Definition NewEncoding (encoder : string) : Encoding :=
  let alphabet := bytes encoder in
  {| encode := alphabet;
     decodeMap :=
       fold_left (fun m i => <[Z.to_nat (index alphabet (Z.of_nat i)) := Z.of_nat i]> m)
                 (seq 0 (length alphabet)) (repeat 255 256);
     padChar := Some StdPadding;
     strict := false |}.

(** [enc.Strict()] *)
Definition Strict (enc : Encoding) : Encoding :=
  {| encode := encode enc; decodeMap := decodeMap enc;
     padChar := padChar enc; strict := true |}.

Definition URLEncoding : Encoding := NewEncoding encodeURL.

Definition pad (enc : Encoding) : list Z :=
  match padChar enc with Some p => [p] | None => [] end.

(** [Encode]: three source bytes give four characters; a last block of one
    or two bytes is completed with the padding character. *)
Fixpoint Encode (enc : Encoding) (src : list Z) : list Z :=
  match src with
  | [] => []
  | s0 :: s1 :: s2 :: rest =>
      let val := Z.lor (Z.lor (Z.shiftl s0 16) (Z.shiftl s1 8)) s2 in
      index (encode enc) (Z.land (Z.shiftr val 18) 63)
      :: index (encode enc) (Z.land (Z.shiftr val 12) 63)
      :: index (encode enc) (Z.land (Z.shiftr val 6) 63)
      :: index (encode enc) (Z.land val 63)
      :: Encode enc rest
  | [s0] =>
      let val := Z.shiftl s0 16 in
      index (encode enc) (Z.land (Z.shiftr val 18) 63)
      :: index (encode enc) (Z.land (Z.shiftr val 12) 63)
      :: pad enc ++ pad enc
  | [s0; s1] =>
      let val := Z.lor (Z.shiftl s0 16) (Z.shiftl s1 8) in
      index (encode enc) (Z.land (Z.shiftr val 18) 63)
      :: index (encode enc) (Z.land (Z.shiftr val 12) 63)
      :: index (encode enc) (Z.land (Z.shiftr val 6) 63)
      :: pad enc
  end.

Definition EncodeToString (enc : Encoding) (src : list Z) : string :=
  of_bytes (Encode enc src).

(** [CorruptInputError]; the offset it carries is only printed. *)
Inductive CorruptInputError := Corrupt.

Definition isNewline (c : Z) : bool := (c =? 10) || (c =? 13).

(** [for si < len(src) && (src[si] == '\n' || src[si] == '\r') { si++ }] *)
Fixpoint skipNewlines (src : list Z) : list Z :=
  match src with
  | c :: rest => if isNewline c then skipNewlines rest else src
  | [] => []
  end.

(** The end of [decodeQuantum]: the (up to) four 6-bit values of [dbuf]
    become three bytes, of which [dlen - 1] are written.  The result is
    (the input left, the bytes written, the error). *)
Definition assemble (enc : Encoding) (dbuf : list Z) (dlen : nat) (rest : list Z)
    (err : option CorruptInputError) : list Z * list Z * option CorruptInputError :=
  let d i := nth i dbuf 0 in
  let val := Z.lor (Z.lor (Z.lor (Z.shiftl (d 0%nat) 18) (Z.shiftl (d 1%nat) 12))
                          (Z.shiftl (d 2%nat) 6)) (d 3%nat) in
  let b2 := byte (Z.shiftr val 0) in
  let b1 := byte (Z.shiftr val 8) in
  let b0 := byte (Z.shiftr val 16) in
  match dlen with
  | 4%nat => (rest, [b0; b1; b2], err)
  | 3%nat =>
      if strict enc && negb (b2 =? 0) then (rest, [], Some Corrupt)
      else (rest, [b0; b1], err)
  | 2%nat =>
      if strict enc && (negb (b1 =? 0) || negb (b2 =? 0)) then (rest, [], Some Corrupt)
      else (rest, [b0], err)
  | _ => (rest, [], err)
  end.

(** What follows a padding character met at position [j] of the quantum. *)
Definition afterPadding (enc : Encoding) (j : nat) (dbuf rest : list Z)
    : list Z * list Z * option CorruptInputError :=
  let finish r :=
    let r' := skipNewlines r in
    assemble enc dbuf j r' (match r' with [] => None | _ => Some Corrupt end) in
  match j with
  | 0%nat | 1%nat => (rest, [], Some Corrupt)
  | 2%nat =>
      match skipNewlines rest with
      | [] => ([], [], Some Corrupt)
      | c :: r =>
          if negb (bool_decide (padChar enc = Some c)) then (c :: r, [], Some Corrupt)
          else finish r
      end
  | _ => finish rest
  end.

(** The loop [for j := 0; j < len(dbuf); j++] of [decodeQuantum], entered at
    position [j] with [dbuf[0..j)] filled; [src] is the input from [si] on. *)
Fixpoint decodeQuantum_from (enc : Encoding) (j : nat) (dbuf : list Z) (src : list Z)
    {struct src} : list Z * list Z * option CorruptInputError :=
  if (j =? 4)%nat then assemble enc dbuf 4 src None
  else
    match src with
    | [] =>
        if (j =? 0)%nat then ([], [], None)
        else if (j =? 1)%nat || bool_decide (padChar enc <> None) then ([], [], Some Corrupt)
        else assemble enc dbuf j [] None
    | c :: rest =>
        let out := index (decodeMap enc) c in
        if negb (out =? 255) then decodeQuantum_from enc (S j) (dbuf ++ [out]) rest
        else if isNewline c then decodeQuantum_from enc j dbuf rest
        else if negb (bool_decide (padChar enc = Some c)) then (rest, [], Some Corrupt)
        else afterPadding enc j dbuf rest
    end.

Definition decodeQuantum (enc : Encoding) (src : list Z) :=
  decodeQuantum_from enc 0 [] src.

(** [Decode]: [for si < len(src) { si, ninc, err = enc.decodeQuantum(...) }].
    The two loops before it, which decode blocks of eight and four alphabet
    characters at once and fall back on [decodeQuantum], write the same
    bytes and are not modelled apart.  Every [decodeQuantum] call on a
    non-empty input consumes input, so [fuel = len(src)] rounds are enough
    ([Decode_loop_fuel] below); with no fuel left the input is empty. *)
Fixpoint Decode_loop (fuel : nat) (enc : Encoding) (src : list Z)
    : list Z * option CorruptInputError :=
  match fuel, src with
  | O, _ | _, [] => ([], None)
  | S fuel', _ =>
      match decodeQuantum enc src with
      | (_, out, Some e) => (out, Some e)
      | (rest, out, None) =>
          let '(d, e) := Decode_loop fuel' enc rest in (out ++ d, e)
      end
  end.

Definition DecodeString (enc : Encoding) (s : string) : list Z * option CorruptInputError :=
  Decode_loop (String.length s) enc (bytes s).

End base64.

(** ** The tag-value codec of the ECS runner *)

Definition encodeTagValue (s : string) : string :=
  base64.EncodeToString base64.URLEncoding (bytes s).

Definition decodeTagValue (s : string) : string :=
  match base64.DecodeString base64.URLEncoding s with
  | (_, Some _) => s
  | (d, None) => of_bytes d
  end.


(** ** [unicode/utf8]: decoding the first rune of a string *)

Module utf8.

Definition RuneError : Z := 65533.

(** The table [first], read by ranges of the first byte: [None] is the
    entry [as] (ASCII), [Some None] the entry [xx] (invalid), and
    [Some (Some (lo, hi, sz))] an entry that gives the accepted range of
    the second byte and the length of the sequence. *)
Definition first (s0 : Z) : option (option (Z * Z * Z)) :=
  if s0 <? 128 then None
  else if s0 <? 194 then Some None
  else if s0 <? 224 then Some (Some (128, 191, 2))
  else if s0 =? 224 then Some (Some (160, 191, 3))
  else if s0 <? 237 then Some (Some (128, 191, 3))
  else if s0 =? 237 then Some (Some (128, 159, 3))
  else if s0 <? 240 then Some (Some (128, 191, 3))
  else if s0 =? 240 then Some (Some (144, 191, 4))
  else if s0 <? 244 then Some (Some (128, 191, 4))
  else if s0 =? 244 then Some (Some (128, 143, 4))
  else Some None.

Definition locb : Z := 128.
Definition hicb : Z := 191.
Definition maskx : Z := 63.
Definition mask2 : Z := 31.
Definition mask3 : Z := 15.
Definition mask4 : Z := 7.

(** [DecodeRuneInString]: the rune and the number of bytes it takes. *)
Definition DecodeRuneInString (s : string) : Z * nat :=
  match bytes s with
  | [] => (RuneError, 0%nat)
  | s0 :: tl =>
      match first s0 with
      | None => (s0, 1%nat)
      | Some None => (RuneError, 1%nat)
      | Some (Some (lo, hi, sz)) =>
          if Z.of_nat (length (s0 :: tl)) <? sz then (RuneError, 1%nat)
          else
            match tl with
            | [] => (RuneError, 1%nat)
            | s1 :: tl1 =>
                if (s1 <? lo) || (hi <? s1) then (RuneError, 1%nat)
                else if sz <=? 2 then
                  (Z.lor (Z.shiftl (Z.land s0 mask2) 6) (Z.land s1 maskx), 2%nat)
                else
                  match tl1 with
                  | [] => (RuneError, 1%nat)
                  | s2 :: tl2 =>
                      if (s2 <? locb) || (hicb <? s2) then (RuneError, 1%nat)
                      else if sz <=? 3 then
                        (Z.lor (Z.lor (Z.shiftl (Z.land s0 mask3) 12)
                                      (Z.shiftl (Z.land s1 maskx) 6))
                               (Z.land s2 maskx), 3%nat)
                      else
                        match tl2 with
                        | [] => (RuneError, 1%nat)
                        | s3 :: _ =>
                            if (s3 <? locb) || (hicb <? s3) then (RuneError, 1%nat)
                            else
                              (Z.lor (Z.lor (Z.lor (Z.shiftl (Z.land s0 mask4) 18)
                                                   (Z.shiftl (Z.land s1 maskx) 12))
                                            (Z.shiftl (Z.land s2 maskx) 6))
                                     (Z.land s3 maskx), 4%nat)
                        end
                  end
            end
      end
  end.

End utf8.

(** ** [path.Match]: shell patterns *)

Module path.

#[local] Open Scope string_scope.

(** [s[n:]] *)
Fixpoint drop (n : nat) (s : string) : string :=
  match n, s with
  | O, _ => s
  | S n', String _ s' => drop n' s'
  | S _, EmptyString => EmptyString
  end.


(** [c == 'x'], the character written as a one-letter string. *)
Definition isChar (c : ascii) (lit : string) : bool :=
  match lit with
  | String l EmptyString => Ascii.eqb c l
  | _ => false
  end.

Definition backslash : ascii := ascii_of 92.

Fixpoint skipStars (pattern : string) : bool * string :=
  match pattern with
  | String c rest => if isChar c "*" then (true, snd (skipStars rest)) else (false, pattern)
  | EmptyString => (false, pattern)
  end.

(** The loop labelled [Scan] of [scanChunk]: the chunk and what follows it. *)
Fixpoint scan (inrange : bool) (pattern : string) : string * string :=
  match pattern with
  | EmptyString => (EmptyString, EmptyString)
  | String c rest =>
      if Ascii.eqb c backslash then
        match rest with
        | String c1 rest1 =>
            let '(chunk, r) := scan inrange rest1 in (String c (String c1 chunk), r)
        | EmptyString => (String c EmptyString, EmptyString)
        end
      else if isChar c "[" then
        let '(chunk, r) := scan true rest in (String c chunk, r)
      else if isChar c "]" then
        let '(chunk, r) := scan false rest in (String c chunk, r)
      else if isChar c "*" && negb inrange then (EmptyString, pattern)
      else
        let '(chunk, r) := scan inrange rest in (String c chunk, r)
  end.

(** [scanChunk]: (star, chunk, rest). *)
Definition scanChunk (pattern : string) : bool * string * string :=
  let '(star, p) := skipStars pattern in
  let '(chunk, rest) := scan false p in
  (star, chunk, rest).

(** [ErrBadPattern] is the only error of the package; in the results below
    [None] stands for it. *)

(** [getEsc]: the rune and the chunk after it. *)
Definition getEsc (chunk : string) : option (Z * string) :=
  match chunk with
  | EmptyString => None
  | String c tl =>
      if isChar c "-" || isChar c "]" then None
      else
        let chunk1 := if Ascii.eqb c backslash then tl else chunk in
        if (String.length chunk1 =? 0)%nat then None
        else
          let '(r, n) := utf8.DecodeRuneInString chunk1 in
          let nchunk := drop n chunk1 in
          if ((r =? utf8.RuneError)%Z && (n =? 1)%nat) || (String.length nchunk =? 0)%nat
          then None
          else Some (r, nchunk)
  end.

(** The loop of [matchChunk] that parses the ranges of a character class,
    entered after [nrange] ranges with [matched] telling whether [r] lies
    in one of them.  The result is ([match], the chunk after the closing
    bracket).  Every round removes at least one byte from the chunk and a
    chunk that runs out is an error, so [fuel] above [len(chunk)] is never
    used up. *)
Fixpoint parseRanges (fuel : nat) (r : Z) (matched : bool) (nrange : nat) (chunk : string)
    : option (bool * string) :=
  match fuel with
  | O => None
  | S fuel' =>
      let closing :=
        match chunk with
        | String c tl => if isChar c "]" && (0 <? nrange)%nat then Some tl else None
        | EmptyString => None
        end in
      match closing with
      | Some tl => Some (matched, tl)
      | None =>
          match getEsc chunk with
          | None => None
          | Some (lo, chunk1) =>
              match chunk1 with
              | String c tl =>
                  if isChar c "-" then
                    match getEsc tl with
                    | None => None
                    | Some (hi, chunk2) =>
                        parseRanges fuel' r (matched || ((lo <=? r) && (r <=? hi))%Z)
                                    (S nrange) chunk2
                    end
                  else
                    parseRanges fuel' r (matched || ((lo <=? r) && (r <=? lo))%Z)
                                (S nrange) chunk1
              | EmptyString => None
              end
          end
      end
  end.

(** [matchChunk], as the loop [for len(chunk) > 0] run with the flag
    [failed]: [None] is [ErrBadPattern], [Some None] a chunk that does not
    match ([ok = false]) and [Some (Some rest)] a match with the rest of
    [s].  Every round removes at least one byte from the chunk. *)
Fixpoint matchChunk_loop (fuel : nat) (failed : bool) (chunk s : string)
    : option (option string) :=
  match fuel, chunk with
  | _, EmptyString | O, _ => if failed then Some None else Some (Some s)
  | S fuel', String c tl =>
      let failed := failed || (String.length s =? 0)%nat in
      if isChar c "[" then
        let '(r, s1) :=
          if failed then (0%Z, s)
          else let '(r, n) := utf8.DecodeRuneInString s in (r, drop n s) in
        let '(negated, chunk1) :=
          match tl with
          | String c1 tl1 => if isChar c1 "^" then (true, tl1) else (false, tl)
          | EmptyString => (false, tl)
          end in
        match parseRanges (S (String.length chunk1)) r false 0 chunk1 with
        | None => None
        | Some (matched, chunk2) =>
            matchChunk_loop fuel' (failed || Bool.eqb matched negated) chunk2 s1
        end
      else if isChar c "?" then
        let '(failed1, s1) :=
          if failed then (failed, s)
          else
            ((match s with String c0 _ => isChar c0 "/" | EmptyString => false end),
             drop (snd (utf8.DecodeRuneInString s)) s) in
        matchChunk_loop fuel' failed1 tl s1
      else
        let literal (chunk0 : string) :=
          match chunk0 with
          | String l tl0 =>
              let '(failed1, s1) :=
                if failed then (failed, s)
                else
                  ((match s with String c0 _ => negb (Ascii.eqb l c0) | EmptyString => false end),
                   drop 1 s) in
              matchChunk_loop fuel' failed1 tl0 s1
          | EmptyString => None
          end in
        if Ascii.eqb c backslash then literal tl else literal chunk
  end.

Definition matchChunk (chunk s : string) : option (option string) :=
  matchChunk_loop (String.length chunk) false chunk s.

(** The loop over [i] that follows a star: it looks for a match of the
    chunk after skipping [i + 1] bytes of [name], never a ['/']. *)
Inductive starResult :=
| starError
| starFound (t : string)
| starNone.

Fixpoint starLoop (chunk : string) (last : bool) (name : string) : starResult :=
  match name with
  | EmptyString => starNone
  | String c name' =>
      if isChar c "/" then starNone
      else
        match matchChunk chunk name' with
        | Some (Some t) =>
            if last && (0 <? String.length t)%nat then starLoop chunk last name'
            else starFound t
        | None => starError
        | Some None => starLoop chunk last name'
        end
  end.

(** The check of the rest of the pattern before [false, nil] is returned. *)
Fixpoint checkRest (fuel : nat) (pattern : string) : option bool :=
  match fuel, pattern with
  | _, EmptyString | O, _ => Some false
  | S fuel', _ =>
      let '(_, chunk, rest) := scanChunk pattern in
      match matchChunk chunk EmptyString with
      | None => None
      | Some _ => checkRest fuel' rest
      end
  end.

Fixpoint contains (s : string) (c : string) : bool :=
  match s with
  | String c0 s' => isChar c0 c || contains s' c
  | EmptyString => false
  end.

(** [Match]: the loop labelled [Pattern].  [None] is [ErrBadPattern];
    [Some m] is [(m, nil)].  Every round shortens the pattern. *)
Fixpoint Match_loop (fuel : nat) (pattern name : string) : option bool :=
  match fuel, pattern with
  | _, EmptyString | O, _ => Some (String.length name =? 0)%nat
  | S fuel', _ =>
      let '(star, chunk, rest) := scanChunk pattern in
      if star && (String.length chunk =? 0)%nat then Some (negb (contains name "/"))
      else
        let orElse :=
          let afterStar :=
            if star then starLoop chunk (String.length rest =? 0)%nat name else starNone in
          match afterStar with
          | starError => None
          | starFound t => Match_loop fuel' rest t
          | starNone => checkRest (String.length rest) rest
          end in
        match matchChunk chunk name with
        | Some (Some t) =>
            if (String.length t =? 0)%nat || (0 <? String.length rest)%nat
            then Match_loop fuel' rest t
            else orElse
        | None => None
        | Some None => orElse
        end
  end.

Definition Match (pattern name : string) : option bool :=
  Match_loop (String.length pattern) pattern name.

End path.

(** ** [regexp]: the fragment used by the subdomain pattern *)

Module regexp.

(** Character classes here hold ASCII characters only, so a class matches
    the rune at a position exactly when it matches the byte there: the
    matcher reads bytes. *)
Inductive Regexp :=
| CharClass (ranges : list (Z * Z))
| Concat (r1 r2 : Regexp)
| Repeat (r : Regexp) (min max : nat)
| BeginText
| EndText.

Definition inClass (ranges : list (Z * Z)) (c : ascii) : bool :=
  existsb (fun '(lo, hi) => (lo <=? byte_of c) && (byte_of c <=? hi)) ranges.

(** A matcher state: whether the position is the beginning of the text, and
    the text from the position on.  [run r st] lists the states in which a
    match of [r] that starts in [st] can end. *)
Fixpoint run (r : Regexp) (st : bool * string) : list (bool * string) :=
  match r with
  | CharClass ranges =>
      match snd st with
      | String c s' => if inClass ranges c then [(false, s')] else []
      | EmptyString => []
      end
  | Concat r1 r2 => flat_map (run r2) (run r1 st)
  | Repeat r1 min max =>
      (fix rep (min max : nat) (st : bool * string) {struct max} : list (bool * string) :=
         match max with
         | O => match min with O => [st] | S _ => [] end
         | S max' =>
             match min with O => [st] | S _ => [] end
             ++ flat_map (rep (Nat.pred min) max') (run r1 st)
         end) min max st
  | BeginText => if fst st then [st] else []
  | EndText => match snd st with EmptyString => [st] | _ => [] end
  end.

(** The positions of a text at which an unanchored match may start. *)
Fixpoint starts (atBegin : bool) (s : string) : list (bool * string) :=
  (atBegin, s) :: match s with String _ s' => starts false s' | EmptyString => [] end.

Definition MatchString (re : Regexp) (s : string) : bool :=
  existsb (fun st => negb (Nat.eqb (length (run re st)) 0)) (starts true s).

End regexp.

(** ** Subdomain validation (web API) *)

Section validate.

#[local] Open Scope string_scope.

Definition rng (lo hi : string) : Z * Z :=
  match lo, hi with
  | String l _, String h _ => (byte_of l, byte_of h)
  | _, _ => (1%Z, 0%Z)
  end.

Definition chr (c : string) : Z * Z := rng c c.

(** [^[a-zA-Z*?\[\]][a-zA-Z0-9-*?\[\]]{0,61}[a-zA-Z0-9*?\[\]]$] *)
Definition DNSNameRegexpWithPattern : regexp.Regexp :=
  regexp.Concat regexp.BeginText
    (regexp.Concat
       (regexp.CharClass [rng "a" "z"; rng "A" "Z"; chr "*"; chr "?"; chr "["; chr "]"])
       (regexp.Concat
          (regexp.Repeat
             (regexp.CharClass [rng "a" "z"; rng "A" "Z"; rng "0" "9"; chr "-"; chr "*";
                                chr "?"; chr "["; chr "]"]) 0 61)
          (regexp.Concat
             (regexp.CharClass [rng "a" "z"; rng "A" "Z"; rng "0" "9"; chr "*"; chr "?";
                                chr "["; chr "]"])
             regexp.EndText))).

Inductive validateError :=
| ErrEmpty
| ErrTooShort
| ErrTooLong
| ErrInvalidCharacters
| ErrBadPattern.

(** [validateSubdomain]: [None] is the [nil] error. *)
Definition validateSubdomain (s : string) : option validateError :=
  if String.eqb s "" then Some ErrEmpty
  else if (len s <? 2)%Z then Some ErrTooShort
  else if (63 <? len s)%Z then Some ErrTooLong
  else if negb (regexp.MatchString DNSNameRegexpWithPattern s) then Some ErrInvalidCharacters
  else
    match path.Match s "x" with
    | None => Some ErrBadPattern
    | Some _ => None
    end.

End validate.


(** ** [strings], [strconv], [net]: the helpers the proxy calls *)

Module gostrings.

#[local] Open Scope string_scope.

Fixpoint HasPrefix (s prefix : string) : bool :=
  match prefix, s with
  | EmptyString, _ => true
  | String p prefix', String c s' => Ascii.eqb c p && HasPrefix s' prefix'
  | String _ _, EmptyString => false
  end.

(** [strings.Contains] *)
Fixpoint Contains (s substr : string) : bool :=
  HasPrefix s substr ||
  match s with
  | String _ s' => Contains s' substr
  | EmptyString => false
  end.

(** [strconv.Itoa] *)
Definition Itoa (n : Z) : string := NilZero.string_of_int (Z.to_int n).

(** [net.JoinHostPort]: a host with a colon is put in brackets. *)
Definition JoinHostPort (host port : string) : string :=
  if path.contains host ":" then "[" ++ host ++ "]:" ++ port
  else host ++ ":" ++ port.

(** [s[:m]] and [s[m+1:]] at the first index [m] of the byte [sep], as
    [strings.Index] finds it; [None] when [sep] does not occur. *)
Fixpoint cut (sep : ascii) (s : string) : option (string * string) :=
  match s with
  | EmptyString => None
  | String c s' =>
      if Ascii.eqb c sep then Some (EmptyString, s')
      else
        match cut sep s' with
        | Some (a, b) => Some (String c a, b)
        | None => None
        end
  end.

(** The loop of [genSplit] for a separator of one byte (the callers pass
    [":"], ["/"] and ["."]): at most [cuts] pieces are cut off, and what is
    left is the last piece. *)
Fixpoint genSplit (sep : ascii) (cuts : nat) (s : string) : list string :=
  match cuts with
  | O => [s]
  | S cuts' =>
      match cut sep s with
      | None => [s]
      | Some (a, rest) => a :: genSplit sep cuts' rest
      end
  end.

(** [strings.SplitN(s, sep, n)] for [n > 0]: at most [n] pieces. *)
Definition SplitN (s : string) (sep : ascii) (n : nat) : list string :=
  match n with
  | O => []
  | S cuts => genSplit sep cuts s
  end.

(** [strings.Split(s, sep)]: all the pieces; there are no more occurrences
    of [sep] than bytes in [s]. *)
Definition Split (s : string) (sep : ascii) : list string :=
  genSplit sep (String.length s) s.

(** The fast path of [strings.ToLower] and [strings.ToUpper]: every byte is
    below [utf8.RuneSelf]. *)
Definition isASCII (s : string) : bool :=
  forallb (fun c => (byte_of c <? 128)%Z) (list_ascii_of_string s).

Definition lowerByte (c : ascii) : ascii :=
  if ((65 <=? byte_of c) && (byte_of c <=? 90))%Z then ascii_of (byte_of c + 32) else c.

Definition upperByte (c : ascii) : ascii :=
  if ((97 <=? byte_of c) && (byte_of c <=? 122))%Z then ascii_of (byte_of c - 32) else c.

Fixpoint mapBytes (f : ascii -> ascii) (s : string) : string :=
  match s with
  | EmptyString => EmptyString
  | String c s' => String (f c) (mapBytes f s')
  end.

Section Unicode.

(** [strings.Map(unicode.ToLower, s)] and [strings.Map(unicode.ToUpper, s)],
    which the functions fall back to for a string that is not ASCII, are
    taken as they come. *)
Variable Map_unicode_ToLower : string -> string.
Variable Map_unicode_ToUpper : string -> string.

(** [strings.ToLower] *)
Definition ToLower (s : string) : string :=
  if isASCII s then mapBytes lowerByte s else Map_unicode_ToLower s.

(** [strings.ToUpper] *)
Definition ToUpper (s : string) : string :=
  if isASCII s then mapBytes upperByte s else Map_unicode_ToUpper s.

End Unicode.

End gostrings.

(** ** Logging ([log/slog])

    A record keeps the level, the format and the arguments of the message. *)

Inductive logLevel := LevelDebug | LevelInfo | LevelWarn | LevelError.

Record logRecord := mkLog {
  logLevelOf : logLevel;
  logFormat : string;
  logArgs : list string
}.

(** ** The reverse proxy registry ([reverseproxy.go]) *)

Module reverseproxy.

#[local] Open Scope string_scope.

(** Instants and durations are counted in nanoseconds. *)
Definition Second : Z := 1000000000.
Definition Minute : Z := 60 * Second.
Definition Hour : Z := 60 * Minute.

Record Cookie := mkCookie {
  CookieName : string;
  CookieValue : string
}.

Record Request := mkRequest {
  Method : string;
  URL : string;
  Host : string;
  Cookies : list Cookie
}.

Record Response := mkResponse {
  StatusCode : Z;
  Body : string
}.

Definition MethodOptions : string := "OPTIONS".
Definition StatusForbidden : Z := 403.
Definition StatusGatewayTimeout : Z := 504.
Definition AuthCookieName : string := "mirage-ecs-auth".

(** An [http.RoundTripper]: a response, or an error given by its message. *)
Definition RoundTripper : Type := Request -> Response + string.

Record PortMap := mkPortMap {
  ListenPort : Z;
  TargetPort : Z;
  RequireAuthCookie : bool
}.

(** The fields of [Config] the proxy reads: [Listen.HTTP],
    [Network.ProxyTimeout], [Auth.ValidateAuthCookie] and [localMode]. *)
Record Config := mkConfig {
  Listen_HTTP : list PortMap;
  Network_ProxyTimeout : Z;
  Auth_ValidateAuthCookie : Cookie -> option string;
  localMode : bool
}.

(** Modelled from the spec: the type [AccessCounter] with [NewAccessCounter]
    and [Add], whose file is not among the sources.  A counter maps the
    start of a bucket, [now.truncate(unit)], to a count, and [Add]
    increments the count of the current bucket. *)
Record AccessCounter := mkAccessCounter {
  counterUnit : Z;
  counterCount : gmap Z Z
}.

(** Modelled from the spec: [NewAccessCounter(unit)], a counter without
    counts. *)
Definition NewAccessCounter (unit : Z) : AccessCounter :=
  {| counterUnit := unit; counterCount := ∅ |}.

(** Modelled from the spec: [Add], one more access in the bucket of the
    instant [now]. *)
Definition AccessCounter_Add (now : Z) (c : AccessCounter) : AccessCounter :=
  let bucket := (now - now mod counterUnit c)%Z in
  {| counterUnit := counterUnit c;
     counterCount := <[bucket := (default 0 (counterCount c !! bucket) + 1)%Z]> (counterCount c) |}.

(** Counters are shared by pointer between the registry and the transports
    of a subdomain: they live in a heap and are named by their address. *)
Definition loc : Type := nat.
Definition heap : Type := gmap loc AccessCounter.

Record Transport := mkTransport {
  Counter : loc;
  Transport_ : RoundTripper;
  Subdomain : string;
  AuthCookieValidateFunc : option (Cookie -> option string)
}.

(** The handler built by [rproxy.NewSingleHostReverseProxy(destUrl)] and
    given a transport. *)
Record Handler := mkHandler {
  destUrl : string;
  handlerTransport : Transport
}.

(** [proxyHandler]: the timer is kept as the instant at which it fires. *)
Record proxyHandler := mkProxyHandler {
  handler : Handler;
  timer : Z
}.

Definition newProxyHandler (lifetime now : Z) (h : Handler) : proxyHandler :=
  {| handler := h; timer := (now + lifetime)%Z |}.

(** [alive]: nothing can be received from the timer's channel, that is the
    timer has not fired yet.  (A receive that succeeds empties the channel,
    but every caller deletes the handler it has seen dead.) *)
Definition alive (now : Z) (h : proxyHandler) : bool := (now <? timer h)%Z.

(** [extend]: [h.timer.Reset(proxyHandlerLifetime)] *)
Definition extend (lifetime now : Z) (h : proxyHandler) : proxyHandler :=
  {| handler := handler h; timer := (now + lifetime)%Z |}.

(** [proxyHandlers]: [map[int]map[string]*proxyHandler].  A port that is
    absent and a port with an empty map behave alike everywhere. *)
Abbreviation proxyHandlers := (gmap Z (gmap string proxyHandler)).

(** The body of [for ipaddress, handler := range ph[port]]: Go visits the
    keys in an order of its choice, here the list [order]; a key that is not
    in the map is not visited. *)
Fixpoint Handler_range (now : Z) (order : list string) (m : gmap string proxyHandler)
    : option Handler * gmap string proxyHandler * list logRecord :=
  match order with
  | [] => (None, m, [])
  | ipaddress :: order' =>
      match m !! ipaddress with
      | None => Handler_range now order' m
      | Some h =>
          if alive now h then (Some (handler h), m, [])
          else
            let '(res, m', logs) := Handler_range now order' (delete ipaddress m) in
            (res, m', mkLog LevelInfo "proxy handler to %s is dead" [ipaddress] :: logs)
      end
  end.

(** [proxyHandlers.Handler]; the map is changed in place, so the new map is
    part of the result. *)
Definition Handler_ (now : Z) (order : list string) (ph : proxyHandlers) (port : Z)
    : option Handler * proxyHandlers * list logRecord :=
  match ph !! port with
  | None => (None, ph, [])
  | Some handlers =>
      if (size handlers =? 0)%nat then (None, ph, [])
      else
        let '(res, handlers', logs) := Handler_range now order handlers in
        (res, <[port := handlers']> ph, logs)
  end.

(** [proxyHandlers.exists] *)
Definition exists_ (lifetime now : Z) (ph : proxyHandlers) (port : Z) (addr : string)
    : bool * proxyHandlers * list logRecord :=
  match ph !! port with
  | None => (false, ph, [])
  | Some handlers =>
      match handlers !! addr with
      | None => (false, ph, [])
      | Some h =>
          if alive now h then
            (true, <[port := <[addr := extend lifetime now h]> handlers]> ph,
             [mkLog LevelDebug "proxy handler to %s extends lifetime" [addr]])
          else
            (false, <[port := delete addr handlers]> ph,
             [mkLog LevelInfo "proxy handler to %s is dead" [addr]])
      end
  end.

(** [proxyHandlers.add] *)
Definition add (lifetime now : Z) (ph : proxyHandlers) (port : Z) (ipaddress : string)
    (h : Handler) : proxyHandlers * list logRecord :=
  let handlers := default ∅ (ph !! port) in
  (<[port := <[ipaddress := newProxyHandler lifetime now h]> handlers]> ph,
   [mkLog LevelInfo "new proxy handler to %s" [ipaddress]]).

(** [ReverseProxy].  The field [proxyHandlerLifetime] is the package
    variable of that name as the registry reads it.  The variable is
    written by [NewReverseProxy] alone, in local mode, and is then left as
    it is: a registry keeps the value the variable has once the registry
    is made, which is the value it reads until another registry is made
    in local mode. *)
Record ReverseProxy := mkReverseProxy {
  cfg : Config;
  domains : list string;
  domainMap : gmap string proxyHandlers;
  accessCounters : gmap string loc;
  accessCounterUnit : Z;
  proxyHandlerLifetime : Z
}.

(** [var proxyHandlerLifetime = 30 * time.Second]: the variable when the
    process starts. *)
Definition initialLifetime : Z := 30 * Second.

(** [NewReverseProxy], called when the package variable holds [lifetime]:
    local mode overwrites the variable, any other mode leaves it. *)
Definition NewReverseProxy (lifetime : Z) (c : Config) : ReverseProxy :=
  {| cfg := c;
     domains := [];
     domainMap := ∅;
     accessCounters := ∅;
     accessCounterUnit := if localMode c then (Second * 10)%Z else Minute;
     proxyHandlerLifetime :=
       if localMode c then (Hour * 24 * 365 * 10)%Z else lifetime |}.

(** [path.Match(name, subdomain)] with the error dropped: [m, _ := ...]. *)
Definition matches (name subdomain : string) : bool :=
  match path.Match name subdomain with
  | Some m => m
  | None => false
  end.

(** [Exists] *)
Definition Exists (r : ReverseProxy) (subdomain : string) : bool :=
  match domainMap r !! subdomain with
  | Some _ => true
  | None => existsb (fun name => matches name subdomain) (domains r)
  end.

(** [Subdomains] *)
Definition Subdomains (r : ReverseProxy) : list string := domains r.

(** The first registered name whose pattern matches, as the loop of
    [FindHandler] finds it. *)
Definition firstMatch (r : ReverseProxy) (subdomain : string) : option string :=
  List.find (fun name => matches name subdomain) (domains r).

(** [FindHandler]: the handler found ([None] is [nil]), the registry after
    the dead handlers met on the way are deleted, and the log. *)
Definition FindHandler (now : Z) (order : list string) (r : ReverseProxy)
    (subdomain : string) (port : Z) : option Handler * ReverseProxy * list logRecord :=
  let log0 := mkLog LevelDebug "FindHandler for %s:%d" [subdomain; gostrings.Itoa port] in
  let resolved :=
    match domainMap r !! subdomain with
    | Some ph => Some (subdomain, ph)
    | None =>
        match firstMatch r subdomain with
        | Some name =>
            match domainMap r !! name with
            | Some ph => Some (name, ph)
            | None => None
            end
        | None => None
        end
    end in
  match resolved with
  | None => (None, r, [log0])
  | Some (name, ph) =>
      let '(res, ph', logs) := Handler_ now order ph port in
      (res,
       {| cfg := cfg r; domains := domains r;
          domainMap := <[name := ph']> (domainMap r);
          accessCounters := accessCounters r;
          accessCounterUnit := accessCounterUnit r;
          proxyHandlerLifetime := proxyHandlerLifetime r |},
       log0 :: logs)
  end.

Section AddSubdomain.

(** [url.Parse] and [newHTTPTransport] are taken as they come: the first
    gives the parsed destination or the message of an error, the second
    the transport for a timeout. *)
Variable url_Parse : string -> string + string.
Variable newHTTPTransport : Z -> RoundTripper.

(** One round of the loop over [r.cfg.Listen.HTTP]; the state is the
    handlers of the subdomain, the flag [proxy] and the log. *)
Definition AddSubdomain_step (r : ReverseProxy) (now : Z) (subdomain addr : string)
    (targetPort : Z) (counter : loc)
    (st : proxyHandlers * bool * list logRecord) (v : PortMap)
    : proxyHandlers * bool * list logRecord :=
  let '(ph, proxy, logs) := st in
  if negb (TargetPort v =? targetPort)%Z && negb (localMode (cfg r)) then st
  else
    let '(found, ph1, logs1) := exists_ (proxyHandlerLifetime r) now ph (ListenPort v) addr in
    if found then (ph1, true, (logs ++ logs1)%list)
    else
      let destUrlString := "http://" ++ addr in
      match url_Parse destUrlString with
      | inr err =>
          (ph1, proxy,
           (logs ++ logs1
            ++ [mkLog LevelError "invalid destination url: %s %s" [destUrlString; err]])%list)
      | inl destUrl =>
          let tp :=
            {| Counter := counter;
               Transport_ := newHTTPTransport (Network_ProxyTimeout (cfg r));
               Subdomain := subdomain;
               AuthCookieValidateFunc :=
                 if RequireAuthCookie v then Some (Auth_ValidateAuthCookie (cfg r))
                 else None |} in
          let '(ph2, logs2) :=
            add (proxyHandlerLifetime r) now ph1 (ListenPort v) addr
                {| destUrl := destUrl; handlerTransport := tp |} in
          (ph2, true,
           (logs ++ logs1 ++ logs2
            ++ [mkLog LevelInfo "add subdomain: %s:%d -> %s"
                      [subdomain; gostrings.Itoa (ListenPort v); addr]])%list)
      end.

(** [AddSubdomain].  The handlers of a subdomain that is already registered
    are changed in place, also when the call returns at the warning; those
    of a new subdomain are stored only when a proxy was created. *)
Definition AddSubdomain (now : Z) (h : heap) (r : ReverseProxy)
    (subdomain ipaddress : string) (targetPort : Z)
    : heap * ReverseProxy * list logRecord :=
  let addr := gostrings.JoinHostPort ipaddress (gostrings.Itoa targetPort) in
  let log0 := mkLog LevelDebug "AddSubdomain %s -> %s" [subdomain; addr] in
  let ph0 := default ∅ (domainMap r !! subdomain) in
  let registered := bool_decide (is_Some (domainMap r !! subdomain)) in
  let '(counter, h1, counters1) :=
    match accessCounters r !! subdomain with
    | Some c => (c, h, accessCounters r)
    | None =>
        let c := fresh (dom h) in
        (c, <[c := NewAccessCounter (accessCounterUnit r)]> h,
         <[subdomain := c]> (accessCounters r))
    end in
  let '(ph, proxy, logs) :=
    fold_left (AddSubdomain_step r now subdomain addr targetPort counter)
              (Listen_HTTP (cfg r)) (ph0, false, [log0]) in
  if negb proxy then
    (h1,
     {| cfg := cfg r; domains := domains r;
        domainMap := if registered then <[subdomain := ph]> (domainMap r) else domainMap r;
        accessCounters := counters1;
        accessCounterUnit := accessCounterUnit r;
        proxyHandlerLifetime := proxyHandlerLifetime r |},
     (logs ++ [mkLog LevelWarn
       "proxy of subdomain %s(target port %d) is not created. define target port in listen.http[]"
       [subdomain; gostrings.Itoa targetPort]])%list)
  else
    (h1,
     {| cfg := cfg r;
        domains :=
          if existsb (String.eqb subdomain) (domains r) then domains r
          else (domains r ++ [subdomain])%list;
        domainMap := <[subdomain := ph]> (domainMap r);
        accessCounters := counters1;
        accessCounterUnit := accessCounterUnit r;
        proxyHandlerLifetime := proxyHandlerLifetime r |},
     logs).

End AddSubdomain.

(** [append(r.domains[:i], r.domains[i+1:]...)] at the first [i] that holds
    the name. *)
Fixpoint removeFirst (subdomain : string) (l : list string) : list string :=
  match l with
  | [] => []
  | name :: l' => if String.eqb name subdomain then l' else name :: removeFirst subdomain l'
  end.

(** [RemoveSubdomain] *)
Definition RemoveSubdomain (r : ReverseProxy) (subdomain : string)
    : ReverseProxy * list logRecord :=
  ({| cfg := cfg r;
      domains := removeFirst subdomain (domains r);
      domainMap := delete subdomain (domainMap r);
      accessCounters := delete subdomain (accessCounters r);
      accessCounterUnit := accessCounterUnit r;
      proxyHandlerLifetime := proxyHandlerLifetime r |},
   [mkLog LevelInfo "removing subdomain: %s" [subdomain]]).

(** *** The transport of a handler *)

(** [req.Cookie(name)]: the first cookie of that name; [None] is
    [ErrNoCookie]. *)
Definition Request_Cookie (req : Request) (name : string) : option Cookie :=
  if String.eqb name "" then None
  else List.find (fun c => String.eqb (CookieName c) name) (Cookies req).

Definition newTimeoutResponse (subdomain u err : string) : Response :=
  {| StatusCode := StatusGatewayTimeout;
     Body := subdomain ++ " upstream timeout: " ++ u ++ " " ++ err |}.

Definition newForbiddenResponse : Response :=
  {| StatusCode := StatusForbidden; Body := "Forbidden" |}.

(** What a call of [RoundTrip] leaves behind: the counters, the requests
    handed to the wrapped transport, and the log. *)
Record effects := mkEffects {
  counters : heap;
  forwarded : list Request;
  logged : list logRecord
}.

Definition warnFailed (t : Transport) (req : Request) (err : string) : logRecord :=
  mkLog LevelWarn "subdomain %s %s roundtrip failed: %s" [Subdomain t; URL req; err].

(** The end of [RoundTrip]: the request is handed to the wrapped transport;
    an error whose message holds [timeout] becomes a response. *)
Definition RoundTrip_forward (t : Transport) (req : Request) (h : heap)
    (logs : list logRecord) : (Response + string) * effects :=
  match Transport_ t req with
  | inr err =>
      let logs1 := (logs ++ [warnFailed t req err])%list in
      if gostrings.Contains err "timeout" then
        (inl (newTimeoutResponse (Subdomain t) (URL req) err), mkEffects h [req] logs1)
      else (inr err, mkEffects h [req] logs1)
  | inl resp => (inl resp, mkEffects h [req] logs)
  end.

(** [Transport.RoundTrip] at the instant [now]: the response or the error,
    and the effects. *)
Definition RoundTrip (now : Z) (t : Transport) (req : Request) (h : heap)
    : (Response + string) * effects :=
  let h1 := alter (AccessCounter_Add now) (Counter t) h in
  let log0 := mkLog LevelDebug "subdomain %s %s roundtrip" [Subdomain t; URL req] in
  match AuthCookieValidateFunc t with
  | Some validate =>
      if negb (String.eqb (Method req) MethodOptions) then
        let log1 :=
          mkLog LevelDebug "subdomain %s %s roundtrip: require auth cookie"
                [Subdomain t; URL req] in
        match Request_Cookie req AuthCookieName with
        | None =>
            (inl newForbiddenResponse,
             mkEffects h1 [] [log0; log1; warnFailed t req "http: named cookie not present"])
        | Some cookie =>
            match validate cookie with
            | Some err =>
                (inl newForbiddenResponse,
                 mkEffects h1 [] [log0; log1; warnFailed t req err])
            | None => RoundTrip_forward t req h1 [log0; log1]
            end
        end
      else RoundTrip_forward t req h1 [log0]
  | None => RoundTrip_forward t req h1 [log0]
  end.

(** *** Control messages and requests *)

(** [proxyAction] is a string type. *)
Definition proxyAdd : string := "Add".
Definition proxyRemove : string := "Remove".

Record proxyControl := mkProxyControl {
  Action : string;
  ControlSubdomain : string;
  IPAddress : string;
  Port : Z
}.

Section Modify.

Variable url_Parse : string -> string + string.
Variable newHTTPTransport : Z -> RoundTripper.

(** [Modify] *)
Definition Modify (now : Z) (h : heap) (r : ReverseProxy) (action : proxyControl)
    : heap * ReverseProxy * list logRecord :=
  if String.eqb (Action action) proxyAdd then
    AddSubdomain url_Parse newHTTPTransport now h r
                 (ControlSubdomain action) (IPAddress action) (Port action)
  else if String.eqb (Action action) proxyRemove then
    let '(r', logs) := RemoveSubdomain r (ControlSubdomain action) in (h, r', logs)
  else (h, r, [mkLog LevelError "unknown proxy action: %s" [Action action]]).

End Modify.

(** What [ServeHTTPWithPort] does with the request: it hands it to a
    handler, or answers [http.NotFound]. *)
Inductive served :=
| ServeHTTP (h : Handler)
| NotFound.

Section ServeHTTPWithPort.

Variable Map_unicode_ToLower : string -> string.

(** [strings.ToLower(strings.Split(req.Host, ".")[0])] *)
Definition subdomainOf (host : string) : string :=
  gostrings.ToLower Map_unicode_ToLower (List.hd "" (gostrings.Split host "."%char)).

(** [ServeHTTPWithPort] *)
Definition ServeHTTPWithPort (now : Z) (order : list string) (r : ReverseProxy)
    (req : Request) (port : Z) : served * ReverseProxy * list logRecord :=
  let subdomain := subdomainOf (Host req) in
  let '(res, r', logs) := FindHandler now order r subdomain port in
  match res with
  | Some h =>
      (ServeHTTP h, r',
       (logs ++ [mkLog LevelDebug "proxy handler found for subdomain %s" [subdomain]])%list)
  | None =>
      (NotFound, r',
       (logs ++ [mkLog LevelDebug "proxy handler not found for subdomain %s" [subdomain]])%list)
  end.

End ServeHTTPWithPort.

End reverseproxy.

(** ** The ECS task runner: task information, purge rule, listing *)

Module ecs.

#[local] Open Scope string_scope.

Definition TagManagedBy : string := "ManagedBy".
Definition TagSubdomain : string := "Subdomain".
Definition TagValueMirage : string := "Mirage".
Definition statusRunning : string := "RUNNING".
Definition statusStopped : string := "STOPPED".

(** [int64(x)]: the low 64 bits, read as a signed number. *)
Definition int64 (x : Z) : Z := (x + 2 ^ 63) mod 2 ^ 64 - 2 ^ 63.

(** [types.Tag]: both fields are pointers to strings. *)
Record Tag := mkTag {
  Key : option string;
  Value : option string
}.

(** [aws.ToString] *)
Definition ToString (p : option string) : string := default "" p.

(** [types.KeyValuePair]: both fields are pointers to strings. *)
Record KeyValuePair := mkKeyValuePair {
  KVName : option string;
  KVValue : option string
}.

(** [types.ContainerOverride], by its environment; [task.Overrides] is a
    pointer to the list of them. *)
Record ContainerOverride := mkContainerOverride {
  Environment : list KeyValuePair
}.

(** [types.Attachment], by its details. *)
Record Attachment := mkAttachment {
  Details : list KeyValuePair
}.

(** The fields of [types.Task] that [List] reads.  [Overrides] is the
    pointer [task.Overrides] with the list [ContainerOverrides] behind
    it. *)
Record Task := mkTask {
  TaskArn : option string;
  TaskDefinitionArn : option string;
  TaskLastStatus : option string;
  StartedAt : option Z;
  TaskTags : list Tag;
  Overrides : option (list ContainerOverride);
  Attachments : list Attachment
}.

(** [Information], with instants counted in nanoseconds from Go's zero
    time.  [PortMap_] is [None] for the nil map that is left when
    [portMapInTask] fails. *)
Record Information := mkInformation {
  ID : string;
  ShortID : string;
  SubDomain : string;
  GitBranch : string;
  TaskDef : string;
  IPAddress_ : string;
  Created : Z;
  LastStatus : string;
  PortMap_ : option (gmap string Z);
  Env_ : gmap string string;
  Tags : list Tag;
  task : Task
}.

(** [PurgeParams]; a compiled regular expression is taken as its
    [MatchString]. *)
Record PurgeParams := mkPurgeParams {
  Duration : Z;
  Excludes : list string;
  ExcludeTags : list string;
  ExcludeRegexp : option (string -> bool);
  excludesMap : gset string;
  excludeTagsMap : gmap string string
}.

(** [ShouldBePurged] at the instant [now = time.Now()]; the messages it
    logs before returning [false] are left out.  A [time.Duration] is an
    [int64]: the negation [-p.Duration] wraps around at the least value.
    [Add] and [After] are exact, the seconds of a [time.Time] reaching far
    beyond the 292 years of a duration. *)
Definition ShouldBePurged (now : Z) (info : Information) (p : PurgeParams) : bool :=
  if negb (String.eqb (LastStatus info) statusRunning) then false
  else if bool_decide (SubDomain info ∈ excludesMap p) then false
  else if existsb (fun t =>
            match excludeTagsMap p !! ToString (Key t) with
            | Some ev => String.eqb ev (ToString (Value t))
            | None => false
            end) (Tags info) then false
  else if match ExcludeRegexp p with
          | Some re => re (SubDomain info)
          | None => false
          end then false
  else
    let begin := (now + int64 (- Duration p))%Z in
    if (begin <? Created info)%Z then false else true.

(** A Go call either returns or panics (here: on a nil pointer). *)
Inductive outcome (A : Type) : Type :=
| Returns (a : A)
| Panics.
Arguments Returns {A} a.
Arguments Panics {A}.

Definition bind {A B} (o : outcome A) (k : A -> outcome B) : outcome B :=
  match o with
  | Returns a => k a
  | Panics => Panics
  end.

(** [*p] *)
Definition deref {A} (p : option A) : outcome A :=
  match p with
  | Some a => Returns a
  | None => Panics
  end.

(** [getTagsFromTask] *)
Fixpoint getTags (tags : list Tag) (name : string) : outcome string :=
  match tags with
  | [] => Returns ""
  | t :: rest =>
      bind (deref (Key t)) (fun k =>
        if String.eqb k name then deref (Value t) else getTags rest name)
  end.

Definition getTagsFromTask (t : Task) (name : string) : outcome string :=
  getTags (TaskTags t) name.

(** The loop [for _, env := range ov.Environment] of
    [getEnvironmentFromTask], and the same loop over the details of an
    attachment in [getIPV4AddressFromTask]. *)
Fixpoint firstValue (pairs : list KeyValuePair) (name : string) : outcome string :=
  match pairs with
  | [] => Returns ""
  | kv :: rest =>
      bind (deref (KVName kv)) (fun n =>
        if String.eqb n name then deref (KVValue kv) else firstValue rest name)
  end.

(** [getEnvironmentFromTask], of [task.Overrides] *)
Definition getEnvironmentFromTask (overrides : option (list ContainerOverride))
    (name : string) : outcome string :=
  bind (deref overrides) (fun containerOverrides =>
    match containerOverrides with
    | [] => Returns ""
    | ov :: _ => firstValue (Environment ov) name
    end).

(** The loop [env[*e.Name] = *e.Value] of [getEnvironmentsFromTask]. *)
Fixpoint allValues (pairs : list KeyValuePair) (env : gmap string string)
    : outcome (gmap string string) :=
  match pairs with
  | [] => Returns env
  | kv :: rest =>
      bind (deref (KVName kv)) (fun n =>
      bind (deref (KVValue kv)) (fun v =>
        allValues rest (<[n := v]> env)))
  end.

(** [getEnvironmentsFromTask], of [task.Overrides] *)
Definition getEnvironmentsFromTask (overrides : option (list ContainerOverride))
    : outcome (gmap string string) :=
  bind (deref overrides) (fun containerOverrides =>
    match containerOverrides with
    | [] => Returns ∅
    | ov :: _ => allValues (Environment ov) ∅
    end).

(** [getIPV4AddressFromTask], of [task.Attachments] *)
Definition getIPV4AddressFromTask (attachments : list Attachment) : outcome string :=
  match attachments with
  | [] => Returns ""
  | a :: _ => firstValue (Details a) "privateIPv4Address"
  end.

(** [shortenArn] *)
Definition shortenArn (arn : string) : string :=
  let p := gostrings.SplitN arn ":"%char 6 in
  if negb (length p =? 6)%nat then ""
  else
    let ps := gostrings.Split (nth 5 p "") "/"%char in
    if (length ps =? 0)%nat then "" else nth (length ps - 1) ps "".

(** The fields of [types.TaskDefinition] that [portMapInTask] reads: the
    name of every container, a pointer, and the host ports of its port
    mappings, pointers to [int32]. *)
Record PortMapping := mkPortMapping {
  HostPort : option Z
}.

Record ContainerDefinition := mkContainerDefinition {
  ContainerName : option string;
  PortMappings : list PortMapping
}.

Record TaskDefinition := mkTaskDefinition {
  ContainerDefinitions : list ContainerDefinition
}.

(** The package variable [taskDefinitionCache], by what it holds: the
    pointers [*types.TaskDefinition] stored under the ARN of their task
    definition.  Nothing else is stored in it, no entry expires and the
    cache is never closed, so [Get] finds the pointer stored last or
    reports [ErrNotFound]. *)
Definition taskDefinitionCache : Type := gmap string (option TaskDefinition).

Record ListTasksOutput := mkListTasksOutput {
  TaskArns : list string;
  NextToken : option string
}.

(** The calls of the ECS client that [List] makes, for the cluster of the
    configuration: a result, or an error given by its message.  The result
    of [DescribeTaskDefinition] is the pointer [out.TaskDefinition]. *)
Record Client := mkClient {
  ListTasks : option string -> string -> ListTasksOutput + string;
  DescribeTasks : list string -> list Task + string;
  DescribeTaskDefinition : string -> option TaskDefinition + string
}.

(** The loop [for _, m := range c.PortMappings] of [portMapInTask], for the
    container named [name]. *)
Fixpoint portMappingsOf (name : option string) (mappings : list PortMapping)
    (portMap : gmap string Z) : outcome (gmap string Z) :=
  match mappings with
  | [] => Returns portMap
  | m :: rest =>
      match HostPort m with
      | None => portMappingsOf name rest portMap
      | Some hostPort =>
          bind (deref name) (fun n => portMappingsOf name rest (<[n := hostPort]> portMap))
      end
  end.

(** The loop [for _, c := range _td.ContainerDefinitions]. *)
Fixpoint containerPortsOf (containers : list ContainerDefinition) (portMap : gmap string Z)
    : outcome (gmap string Z) :=
  match containers with
  | [] => Returns portMap
  | c :: rest =>
      bind (portMappingsOf (ContainerName c) (PortMappings c) portMap) (fun portMap' =>
        containerPortsOf rest portMap')
  end.

(** [portMapInTask]: the port map or the message of the error, and the
    cache as the call leaves it. *)
Definition portMapInTask (svc : Client) (t : Task) (cache : taskDefinitionCache)
    : outcome ((gmap string Z + string) * taskDefinitionCache) :=
  bind (deref (TaskDefinitionArn t)) (fun tdArn =>
    match cache !! tdArn with
    | None =>
        match DescribeTaskDefinition svc tdArn with
        | inr err => Returns (inr err, cache)
        | inl td =>
            bind (deref td) (fun _td =>
            bind (containerPortsOf (ContainerDefinitions _td) ∅) (fun portMap =>
              Returns (inl portMap, <[tdArn := td]> cache)))
        end
    | Some td =>
        bind (deref td) (fun _td =>
        bind (containerPortsOf (ContainerDefinitions _td) ∅) (fun portMap =>
          Returns (inl portMap, cache)))
    end).

(** The body of the loop over [tasksOut.Tasks]: the entry appended for a
    task, if any, and the cache afterwards.  The fields of the entry are
    computed in the order in which they are written. *)
Definition informationOf (svc : Client) (t : Task) (cache : taskDefinitionCache)
    : outcome (option Information * taskDefinitionCache) :=
  bind (getTagsFromTask t TagManagedBy) (fun managedBy =>
    if negb (String.eqb managedBy TagValueMirage) then Returns (None, cache)
    else
      bind (deref (TaskArn t)) (fun arn =>
      bind (getTagsFromTask t "Subdomain") (fun sub =>
      bind (getEnvironmentFromTask (Overrides t) "GIT_BRANCH") (fun branch =>
      bind (deref (TaskDefinitionArn t)) (fun taskdef =>
      bind (getIPV4AddressFromTask (Attachments t)) (fun ipaddress =>
      bind (deref (TaskLastStatus t)) (fun status =>
      bind (getEnvironmentsFromTask (Overrides t)) (fun env =>
      bind (portMapInTask svc t cache) (fun '(portMap, cache') =>
        Returns (Some {| ID := arn;
                         ShortID := shortenArn arn;
                         SubDomain := decodeTagValue sub;
                         GitBranch := branch;
                         TaskDef := shortenArn taskdef;
                         IPAddress_ := ipaddress;
                         Created := default 0%Z (StartedAt t);
                         LastStatus := status;
                         PortMap_ := match portMap with
                                     | inl m => Some m
                                     | inr _ => None
                                     end;
                         Env_ := env;
                         Tags := TaskTags t;
                         task := t |},
                 cache')))))))))).

Fixpoint informationsOf (svc : Client) (tasks : list Task) (cache : taskDefinitionCache)
    : outcome (list Information * taskDefinitionCache) :=
  match tasks with
  | [] => Returns ([], cache)
  | t :: rest =>
      bind (informationOf svc t cache) (fun '(i, cache1) =>
      bind (informationsOf svc rest cache1) (fun '(is_, cache2) =>
        Returns (match i with Some info => info :: is_ | None => is_ end, cache2)))
  end.

(** [infos[i].SubDomain < infos[j].SubDomain] *)
Definition lessSubDomain (a b : Information) : bool :=
  String.ltb (SubDomain a) (SubDomain b).

Section List.

(** [sort.Slice], which is not stable: all that is known of it is stated
    where it is used. *)
Variable sort_Slice : (Information -> Information -> bool) -> list Information -> list Information.

(** The loop [for { ... }] of [List] over the pages of the cluster, entered
    with the token [nextToken], the entries [infos] gathered so far and the
    cache of task definitions.  The result is the list, the error and the
    cache.  The cluster decides how many pages there are: [None] is a
    listing whose pages have not ended after [fuel] rounds. *)
Fixpoint List_pages (fuel : nat) (svc : Client) (desiredStatus : string)
    (nextToken : option string) (infos : list Information) (cache : taskDefinitionCache)
    : option (outcome (list Information * option string * taskDefinitionCache)) :=
  match fuel with
  | O => None
  | S fuel' =>
      match ListTasks svc nextToken desiredStatus with
      | inr err => Some (Returns ([], Some ("failed to list tasks: " ++ err), cache))
      | inl listOut =>
          if (length (TaskArns listOut) =? 0)%nat then Some (Returns ([], None, cache))
          else
            match DescribeTasks svc (TaskArns listOut) with
            | inr err =>
                Some (Returns (infos, Some ("failed to describe tasks: " ++ err), cache))
            | inl tasks =>
                match informationsOf svc tasks cache with
                | Panics => Some Panics
                | Returns (new, cache') =>
                    let infos' := (infos ++ new)%list in
                    match NextToken listOut with
                    | Some token =>
                        List_pages fuel' svc desiredStatus (Some token) infos' cache'
                    | None => Some (Returns (sort_Slice lessSubDomain infos', None, cache'))
                    end
                end
            end
      end
  end.

(** [ECS.List] *)
Definition List_ (fuel : nat) (svc : Client) (desiredStatus : string)
    (cache : taskDefinitionCache)
    : option (outcome (list Information * option string * taskDefinitionCache)) :=
  List_pages fuel svc desiredStatus None [] cache.

End List.

(** *** Parameters, tags and environment of a task *)

(** [Parameter] of the configuration (the name is a keyword here); the compiled [Regexp] is taken as
    its [MatchString].  [Parameters] is a slice of pointers, none of them
    nil. *)
Record Parameter_ := mkParameter {
  Name : string;
  Env : string;
  Rule : string;
  Required : bool;
  Regexp_MatchString : string -> bool;
  Default : string
}.

(** [TaskParameter] is [map[string]string]; [p[name]] is the empty string
    for a key that is missing. *)
Abbreviation TaskParameter := (gmap string string).

Definition paramOf (p : TaskParameter) (name : string) : string := default "" (p !! name).

Definition EnvSubdomain : string := "SUBDOMAIN".
Definition EnvSubdomainRaw : string := "SUBDOMAINRAW".

(** The loop over [configParams] of [ToECSKeyValuePairs]. *)
Fixpoint parameterPairs (p : TaskParameter) (configParams : list Parameter_)
    : list KeyValuePair :=
  match configParams with
  | [] => []
  | v :: rest =>
      if String.eqb (paramOf p (Name v)) "" then parameterPairs p rest
      else mkKeyValuePair (Some (Env v)) (Some (paramOf p (Name v))) :: parameterPairs p rest
  end.

(** [ToECSKeyValuePairs] *)
Definition ToECSKeyValuePairs (p : TaskParameter) (subdomain : string)
    (configParams : list Parameter_) (enc : string -> string) : list KeyValuePair :=
  mkKeyValuePair (Some EnvSubdomain) (Some (enc subdomain))
  :: mkKeyValuePair (Some EnvSubdomainRaw) (Some subdomain)
  :: parameterPairs p configParams.

(** The loop over [configParams] of [ToECSTags]. *)
Fixpoint parameterTags (p : TaskParameter) (configParams : list Parameter_) : list Tag :=
  match configParams with
  | [] => []
  | v :: rest =>
      if String.eqb (paramOf p (Name v)) "" then parameterTags p rest
      else mkTag (Some (Name v)) (Some (paramOf p (Name v))) :: parameterTags p rest
  end.

(** [ToECSTags] *)
Definition ToECSTags (p : TaskParameter) (subdomain : string)
    (configParams : list Parameter_) : list Tag :=
  mkTag (Some TagSubdomain) (Some (encodeTagValue subdomain))
  :: mkTag (Some TagManagedBy) (Some TagValueMirage)
  :: parameterTags p configParams.

(** [EncodeSubdomain] of the configuration, by its field [compatV1]. *)
Definition EncodeSubdomain (compatV1 : bool) (subdomain : string) : string :=
  if compatV1 then base64.EncodeToString base64.URLEncoding (bytes subdomain)
  else subdomain.

(** *** Finding and stopping the tasks of a subdomain *)

Section find.

Variable sort_Slice : (Information -> Information -> bool) -> list Information -> list Information.

(** [find]: the running tasks of the subdomain ([nil] has length 0, as
    the empty list). *)
Definition find (fuel : nat) (svc : Client) (subdomain : string)
    (cache : taskDefinitionCache)
    : option (outcome (list Information * option string * taskDefinitionCache)) :=
  match List_ sort_Slice fuel svc statusRunning cache with
  | None => None
  | Some Panics => Some Panics
  | Some (Returns (_, Some err, cache')) => Some (Returns ([], Some err, cache'))
  | Some (Returns (infos, None, cache')) =>
      Some (Returns (List.filter (fun info => String.eqb (SubDomain info) subdomain) infos,
                     None, cache'))
  end.

(** [StopTask] of the ECS client, for the cluster of the configuration and
    the reason that [Terminate] gives: the error, if any.  [Wait] of the
    [errgroup]: of the errors of the functions it ran, the one that came
    first. *)
Variable StopTask : string -> option string.
Variable errgroup_Wait : list (option string) -> option string.

(** [Terminate] *)
Definition Terminate (taskArn : string) : option string * list logRecord :=
  (StopTask taskArn, [mkLog LevelInfo "stop task %s" [taskArn]]).

(** What [TerminateBySubdomain] has done when it returns: the tasks it
    asked to stop, the messages it sent to the proxy (the channel is set),
    and the error it returns.  The calls run concurrently; the lists give
    them in the order of the loop. *)
Record termination := mkTermination {
  stopped : list string;
  controls : list reverseproxy.proxyControl;
  terminateError : option string
}.

(** [TerminateBySubdomain], with the cache as the listing leaves it.  The
    message to the proxy carries the action and the subdomain; its other
    fields are zero. *)
Definition TerminateBySubdomain (fuel : nat) (svc : Client) (subdomain : string)
    (cache : taskDefinitionCache) : option (outcome (termination * taskDefinitionCache)) :=
  match find fuel svc subdomain cache with
  | None => None
  | Some Panics => Some Panics
  | Some (Returns (_, Some err, cache')) =>
      Some (Returns ({| stopped := []; controls := []; terminateError := Some err |}, cache'))
  | Some (Returns (infos, None, cache')) =>
      Some (Returns
        ({| stopped := map ID infos;
            controls := [reverseproxy.mkProxyControl reverseproxy.proxyRemove subdomain "" 0];
            terminateError :=
              errgroup_Wait (None :: map (fun info => fst (Terminate (ID info))) infos) |},
         cache'))
  end.

End find.

End ecs.


(** ** The web API: purge requests, parameters, launching *)

Module webapi.

Import ecs.

#[local] Open Scope string_scope.

Definition PurgeMinimumDuration : Z := 5 * reverseproxy.Minute.

(** [APIPurgeRequest]; [Duration] is a [json.Number], a string. *)
Record APIPurgeRequest := mkAPIPurgeRequest {
  RequestDuration : string;
  RequestExcludes : list string;
  RequestExcludeTags : list string;
  RequestExcludeRegexp : string
}.

(** The errors of [Validate], by what their messages are made of. *)
Inductive purgeError :=
| ErrInvalidDuration (duration : string)
| ErrShortDuration (di minimum : Z)
| ErrInvalidExcludeTags (excludeTag : string)
| ErrInvalidExcludeRegexp (excludeRegexp : string).

(** The loop [for _, exclude := range excludes]. *)
Definition excludesMapOf (excludes : list string) : gset string :=
  fold_left (fun m exclude => {[exclude]} ∪ m) excludes ∅.

(** The loop [for _, excludeTag := range excludeTags], which returns at
    the first tag that has no colon. *)
Fixpoint excludeTagsMapOf (excludeTags : list string) (m : gmap string string)
    : gmap string string + string :=
  match excludeTags with
  | [] => inl m
  | excludeTag :: rest =>
      match gostrings.SplitN excludeTag ":"%char 2 with
      | [k; v] => excludeTagsMapOf rest (<[k := v]> m)
      | _ => inr excludeTag
      end
  end.

Section Validate.

(** [json.Number.Int64] and [regexp.Compile] are taken as they come:
    [None] is an error. *)
Variable Number_Int64 : string -> option Z.
Variable regexp_Compile : string -> option (string -> bool).

(** [APIPurgeRequest.Validate] *)
Definition Validate (r : APIPurgeRequest) : PurgeParams + purgeError :=
  let excludes := RequestExcludes r in
  let excludeTags := RequestExcludeTags r in
  match Number_Int64 (RequestDuration r) with
  | None => inr (ErrInvalidDuration (RequestDuration r))
  | Some di =>
      let minimum := (PurgeMinimumDuration / reverseproxy.Second)%Z in
      if (di <? minimum)%Z then inr (ErrShortDuration di minimum)
      else
        let excludesMap := excludesMapOf excludes in
        match excludeTagsMapOf excludeTags ∅ with
        | inr excludeTag => inr (ErrInvalidExcludeTags excludeTag)
        | inl excludeTagsMap =>
            let compiled :=
              if String.eqb (RequestExcludeRegexp r) "" then inl None
              else
                match regexp_Compile (RequestExcludeRegexp r) with
                | Some re => inl (Some re)
                | None => inr (ErrInvalidExcludeRegexp (RequestExcludeRegexp r))
                end in
            match compiled with
            | inr err => inr err
            | inl excludeRegexp =>
                inl {| Duration := int64 (di * reverseproxy.Second);
                       Excludes := excludes;
                       ExcludeTags := excludeTags;
                       ExcludeRegexp := excludeRegexp;
                       excludesMap := excludesMap;
                       excludeTagsMap := excludeTagsMap |}
            end
        end
  end.

End Validate.

(** [lo.Uniq]: the first occurrence of every element, in order. *)
Fixpoint Uniq_loop (collection : list string) (seen : gset string) : list string :=
  match collection with
  | [] => []
  | item :: rest =>
      if bool_decide (item ∈ seen) then Uniq_loop rest seen
      else item :: Uniq_loop rest ({[item]} ∪ seen)
  end.

Definition Uniq (collection : list string) : list string := Uniq_loop collection ∅.

(** The loop of [purge] over the listing; [now i] is the instant of the
    [i]-th call of [time.Now], one for each entry. *)
Fixpoint terminatesOf (now : nat -> Z) (i : nat) (infos : list Information)
    (p : PurgeParams) : list string :=
  match infos with
  | [] => []
  | info :: rest =>
      if ShouldBePurged (now i) info p then SubDomain info :: terminatesOf now (S i) rest p
      else terminatesOf now (S i) rest p
  end.

(** What [purge] returns and starts: the error, and the subdomains and the
    duration it hands to [purgeSubdomains] in a goroutine of its own. *)
Record purged := mkPurged {
  purgeError_ : option string;
  started : option (list string * Z);
  purgeLog : list logRecord
}.

Section purge.

Variable sort_Slice : (Information -> Information -> bool) -> list Information -> list Information.

(** [purge], with the cache of task definitions as the listing leaves
    it. *)
Definition purge (now : nat -> Z) (fuel : nat) (svc : Client) (p : PurgeParams)
    (cache : taskDefinitionCache) : option (outcome (purged * taskDefinitionCache)) :=
  match List_ sort_Slice fuel svc statusRunning cache with
  | None => None
  | Some Panics => Some Panics
  | Some (Returns (_, Some err, cache')) =>
      Some (Returns ({| purgeError_ := Some ("list tasks failed: " ++ err);
                        started := None;
                        purgeLog := [mkLog LevelError "list ecs failed: %s" [err]] |},
                     cache'))
  | Some (Returns (infos, None, cache')) =>
      let terminates := Uniq (terminatesOf now 0 infos p) in
      let log0 := mkLog LevelInfo "purge subdomains" [] in
      let log2 := mkLog LevelInfo "no subdomains to purge" [] in
      if (0 <? length terminates)%nat then
        Some (Returns
          ({| purgeError_ := None;
              started := Some (terminates, Duration p);
              purgeLog :=
                [log0;
                 mkLog LevelInfo "purge %d subdomains"
                       [gostrings.Itoa (Z.of_nat (length terminates))];
                 log2] |},
           cache'))
      else
        Some (Returns ({| purgeError_ := None; started := None; purgeLog := [log0; log2] |},
                       cache'))
  end.

End purge.

(** What [purgeSubdomains] has done: the subdomains it asked the runner to
    terminate, the number it counts as purged, and the number of pauses of
    three seconds. *)
Record purging := mkPurging {
  asked : list string;
  purgedCount : Z;
  pauses : nat;
  purgingLog : list logRecord
}.

Section purgeSubdomains.

(** The runner and what lies behind it change as the calls are made: its
    state is threaded through them. *)
Variable World : Type.
Variable GetAccessCount : World -> string -> Z -> (Z + string) * World.
Variable TerminateBySubdomain : World -> string -> option string * World.

(** The loop of [purgeSubdomains]. *)
Fixpoint purgeSubdomains_loop (w : World) (subdomains : list string) (duration : Z)
    (acc : purging) : World * purging :=
  match subdomains with
  | [] => (w, acc)
  | subdomain :: rest =>
      let '(counted, w1) := GetAccessCount w subdomain duration in
      match counted with
      | inr err =>
          purgeSubdomains_loop w1 rest duration
            {| asked := asked acc; purgedCount := purgedCount acc; pauses := pauses acc;
               purgingLog :=
                 (purgingLog acc
                  ++ [mkLog LevelWarn "access count failed: %s %s" [subdomain; err]])%list |}
      | inl sum =>
          if (0 <? sum)%Z then
            purgeSubdomains_loop w1 rest duration
              {| asked := asked acc; purgedCount := purgedCount acc; pauses := pauses acc;
                 purgingLog :=
                   (purgingLog acc
                    ++ [mkLog LevelInfo "skip purge %s %d access"
                              [subdomain; gostrings.Itoa sum]])%list |}
          else
            let '(err, w2) := TerminateBySubdomain w1 subdomain in
            purgeSubdomains_loop w2 rest duration
              match err with
              | Some e =>
                  {| asked := (asked acc ++ [subdomain])%list;
                     purgedCount := purgedCount acc;
                     pauses := S (pauses acc);
                     purgingLog :=
                       (purgingLog acc
                        ++ [mkLog LevelWarn "terminate failed %s %s" [subdomain; e]])%list |}
              | None =>
                  {| asked := (asked acc ++ [subdomain])%list;
                     purgedCount := (purgedCount acc + 1)%Z;
                     pauses := S (pauses acc);
                     purgingLog :=
                       (purgingLog acc ++ [mkLog LevelInfo "purged %s" [subdomain]])%list |}
              end
      end
  end.

(** [purgeSubdomains]; [locked] tells whether the mutex of the API is held
    when [TryLock] is called. *)
Definition purgeSubdomains (locked : bool) (w : World) (subdomains : list string)
    (duration : Z) : World * purging :=
  if locked then
    (w, {| asked := []; purgedCount := 0; pauses := 0;
           purgingLog :=
             [mkLog LevelInfo "skip purge subdomains, another purge is running" []] |})
  else
    let '(w', done) :=
      purgeSubdomains_loop w subdomains duration
        {| asked := []; purgedCount := 0; pauses := 0;
           purgingLog :=
             [mkLog LevelInfo "start purge subdomains %d"
                    [gostrings.Itoa (Z.of_nat (length subdomains))]] |} in
    (w', {| asked := asked done; purgedCount := purgedCount done; pauses := pauses done;
            purgingLog :=
              (purgingLog done
               ++ [mkLog LevelInfo "purge %d subdomains completed"
                         [gostrings.Itoa (purgedCount done)]])%list |}).

End purgeSubdomains.

(** *** Launching *)

(** [utf8.RuneCountInString]: the number of steps in which
    [DecodeRuneInString] reads the string; a byte that starts no valid
    sequence counts as one rune. *)
Fixpoint RuneCount_loop (fuel : nat) (s : string) : Z :=
  match fuel with
  | O => 0
  | S fuel' =>
      match s with
      | EmptyString => 0
      | String _ _ =>
          let '(_, size) := utf8.DecodeRuneInString s in
          (1 + RuneCount_loop fuel' (path.drop size s))%Z
      end
  end.

Definition RuneCountInString (s : string) : Z := RuneCount_loop (String.length s) s.

(** The errors of [LoadParameter], by the name of the parameter. *)
Inductive loadError :=
| ErrLackRequired (name : string)
| ErrRule (name : string)
| ErrTooLong (name : string).

(** The loop of [LoadParameter] over the parameters of the configuration. *)
Fixpoint LoadParameter_loop (configParams : list Parameter_) (getFunc : string -> string)
    (parameter : TaskParameter) : TaskParameter + loadError :=
  match configParams with
  | [] => inl parameter
  | v :: rest =>
      let param := getFunc (Name v) in
      let param :=
        if String.eqb param "" && negb (String.eqb (Default v) "") then Default v
        else param in
      if String.eqb param "" && Required v then inr (ErrLackRequired (Name v))
      else if String.eqb param "" then LoadParameter_loop rest getFunc parameter
      else if negb (String.eqb (Rule v) "") && negb (Regexp_MatchString v param)
      then inr (ErrRule (Name v))
      else if (255 <? RuneCountInString param)%Z then inr (ErrTooLong (Name v))
      else LoadParameter_loop rest getFunc (<[Name v := param]> parameter)
  end.

(** [LoadParameter] *)
Definition LoadParameter (configParams : list Parameter_) (getFunc : string -> string)
    : TaskParameter + loadError :=
  LoadParameter_loop configParams getFunc ∅.

(** [APILaunchRequest]; a nil map of parameters reads as the empty map. *)
Record APILaunchRequest := mkAPILaunchRequest {
  Subdomain : string;
  Branch : string;
  Taskdef : list string;
  Parameters : gmap string string
}.

(** [GetParameter] *)
Definition GetParameter (r : APILaunchRequest) (key : string) : string :=
  if String.eqb key "branch" then Branch r else default "" (Parameters r !! key).

(** The keys of a form that [MergeForm] leaves alone. *)
Definition reserved (key : string) : bool :=
  String.eqb key "branch" || String.eqb key "subdomain" || String.eqb key "taskdef".

(** The loop of [MergeForm] over the form, a [url.Values]; [values[0]]
    panics for a key without values. *)
Fixpoint MergeForm_loop (form : list (string * list string)) (parameters : gmap string string)
    : outcome (gmap string string) :=
  match form with
  | [] => Returns parameters
  | (key, values) :: rest =>
      if reserved key then MergeForm_loop rest parameters
      else
        match values with
        | [] => Panics
        | value :: _ => MergeForm_loop rest (<[key := value]> parameters)
        end
  end.

(** [MergeForm]; the keys of the form are visited in the order of
    [map_to_list]. *)
Definition MergeForm (r : APILaunchRequest) (form : gmap string (list string))
    : outcome APILaunchRequest :=
  bind (MergeForm_loop (map_to_list form) (Parameters r)) (fun parameters =>
    Returns {| Subdomain := Subdomain r; Branch := Branch r; Taskdef := Taskdef r;
               Parameters := parameters |}).

(** The errors of [launch]. *)
Inductive launchError :=
| ErrBind (message : string)
| ErrSubdomain (e : validateError)
| ErrParameter (e : loadError)
| ErrRequired (subdomain : string) (taskdefs : list string)
| ErrLaunch (message : string).

(** What [launch] returns, and the call of the runner it has made, if
    any. *)
Record launched := mkLaunched {
  code : Z;
  launchError_ : option launchError;
  launchCall : option (string * TaskParameter * list string)
}.

Section launch.

(** [c.Bind(&r)] fills the request from the body, and the runner launches:
    both are taken as they come. *)
Variable Map_unicode_ToLower : string -> string.
Variable Bind : APILaunchRequest -> APILaunchRequest + string.
Variable runner_Launch : string -> TaskParameter -> list string -> option string.
Variable cfg_Parameter : list Parameter_.

Definition StatusOK : Z := 200.
Definition StatusBadRequest : Z := 400.
Definition StatusInternalServerError : Z := 500.

(** [launch], for the form parameters [ps] of the request. *)
Definition launch (ps : gmap string (list string)) : outcome launched :=
  bind (MergeForm {| Subdomain := ""; Branch := ""; Taskdef := []; Parameters := ∅ |} ps)
    (fun merged =>
  match Bind merged with
  | inr err => Returns (mkLaunched StatusBadRequest (Some (ErrBind err)) None)
  | inl r =>
      let subdomain := gostrings.ToLower Map_unicode_ToLower (Subdomain r) in
      match validateSubdomain subdomain with
      | Some err => Returns (mkLaunched StatusBadRequest (Some (ErrSubdomain err)) None)
      | None =>
          let taskdefs := Taskdef r in
          match LoadParameter cfg_Parameter (GetParameter r) with
          | inr err => Returns (mkLaunched StatusBadRequest (Some (ErrParameter err)) None)
          | inl parameter =>
              if String.eqb subdomain "" || (length taskdefs =? 0)%nat then
                Returns (mkLaunched StatusBadRequest
                                    (Some (ErrRequired subdomain taskdefs)) None)
              else
                match runner_Launch subdomain parameter taskdefs with
                | Some err =>
                    Returns (mkLaunched StatusInternalServerError (Some (ErrLaunch err))
                                        (Some (subdomain, parameter, taskdefs)))
                | None =>
                    Returns (mkLaunched StatusOK None
                                        (Some (subdomain, parameter, taskdefs)))
                end
          end
      end
  end).

End launch.

(** *** The list page *)

(** [lo.Filter] with the set [stoppedSubdomains]: the first entry of every
    subdomain. *)
Fixpoint firstOfSubdomain (infos : list Information) (stoppedSubdomains : gset string)
    : list Information :=
  match infos with
  | [] => []
  | info :: rest =>
      if bool_decide (SubDomain info ∈ stoppedSubdomains)
      then firstOfSubdomain rest stoppedSubdomains
      else info :: firstOfSubdomain rest ({[SubDomain info]} ∪ stoppedSubdomains)
  end.

(** [infoStopped[i].Created.Before(infoStopped[j].Created)] *)
Definition createdBefore (a b : Information) : bool := (Created a <? Created b)%Z.

Section List.

Variable sort_Slice : (Information -> Information -> bool) -> list Information -> list Information.

(** [WebApi.List]: the entries it renders, or the message it answers with
    the status 500, and the cache of task definitions as the two listings
    leave it. *)
Definition List_ (fuel : nat) (svc : Client) (cache : taskDefinitionCache)
    : option (outcome ((list Information + string) * taskDefinitionCache)) :=
  match ecs.List_ sort_Slice fuel svc statusRunning cache with
  | None => None
  | Some Panics => Some Panics
  | Some (Returns (_, Some err, cache1)) => Some (Returns (inr err, cache1))
  | Some (Returns (infoRunning, None, cache1)) =>
      match ecs.List_ sort_Slice fuel svc statusStopped cache1 with
      | None => None
      | Some Panics => Some Panics
      | Some (Returns (_, Some err, cache2)) => Some (Returns (inr err, cache2))
      | Some (Returns (infoStopped, None, cache2)) =>
          let infoStopped := sort_Slice createdBefore infoStopped in
          Some (Returns (inl (infoRunning ++ firstOfSubdomain infoStopped ∅)%list, cache2))
      end
  end.

End List.

End webapi.

(** * What the claims speak of *)

(** ** Tag values *)

(** No carriage return or line feed among the bytes. *)
Definition noNewline (src : list Z) : Prop :=
  List.Forall (fun c => base64.isNewline c = false) src.

(** Base64url input as [decodeTagValue] accepts it: the decoder of
    [base64.URLEncoding] reports no error. *)
Definition validBase64url (x : string) : Prop :=
  snd (base64.DecodeString base64.URLEncoding x) = None.

(** Canonical input: no line break, and the strict decoder, which wants the
    unused bits of the last character to be zero, reports no error. *)
Definition canonicalBase64url (x : string) : Prop :=
  noNewline (bytes x) /\
  snd (base64.DecodeString (base64.Strict base64.URLEncoding) x) = None.

(** A character of the base64url alphabet of RFC 4648: a letter, a digit,
    [-] or [_]. *)
Definition base64urlChar (c : Z) : bool :=
  ((65 <=? c) && (c <=? 90)) || ((97 <=? c) && (c <=? 122)) || ((48 <=? c) && (c <=? 57))
  || (c =? 45) || (c =? 95).

(** Base64url text with padding: groups of four characters of the
    alphabet, the last group ending in [=] or [==] (the byte 61) when it
    stands for two bytes or for one. *)
Fixpoint base64urlText (l : list Z) : bool :=
  match l with
  | [] => true
  | a :: b :: c :: d :: rest =>
      base64urlChar a && base64urlChar b &&
      match rest with
      | [] => (base64urlChar c && (base64urlChar d || (d =? 61))) || ((c =? 61) && (d =? 61))
      | _ => base64urlChar c && base64urlChar d && base64urlText rest
      end
  | _ => false
  end.

(** The input without its carriage returns and line feeds. *)
Definition withoutNewlines (src : list Z) : list Z :=
  List.filter (fun c => negb (base64.isNewline c)) src.

(** The decoder reports no error; and the same for a quantum entered at
    position [j] and the input that follows it. *)
Definition accepted (r : list Z * option base64.CorruptInputError) : bool :=
  match snd r with None => true | Some _ => false end.

Definition acceptedFrom (j : nat) (dbuf src : list Z) : bool :=
  match base64.decodeQuantum_from base64.URLEncoding j dbuf src with
  | (_, _, Some _) => false
  | (rest, _, None) => accepted (base64.Decode_loop (length rest) base64.URLEncoding rest)
  end.

(** The tag value of [A] followed by a line feed. *)
Definition paddedWithNewline : string := "QQ==" ++ String "010"%char "".

(** ** Subdomain labels *)

Section label_vocabulary.

#[local] Open Scope string_scope.

Definition between (lo hi : string) (c : ascii) : bool :=
  let '(l, h) := rng lo hi in ((l <=? byte_of c) && (byte_of c <=? h))%Z.

Definition isLetter (c : ascii) : bool := between "a" "z" c || between "A" "Z" c.
Definition isDigit (c : ascii) : bool := between "0" "9" c.
Definition isAlnum (c : ascii) : bool := isLetter c || isDigit c.
Definition isGlobMeta (c : ascii) : bool :=
  path.isChar c "*" || path.isChar c "?" || path.isChar c "[" || path.isChar c "]".
Definition isHyphen (c : ascii) : bool := path.isChar c "-".

(** A label of 2 to 63 characters whose first character satisfies
    [firstOK], whose last character is alphanumeric or a glob
    meta-character, and whose interior also allows the hyphen. *)
Definition labelShape (firstOK : ascii -> bool) (s : string) : Prop :=
  (2 <= len s <= 63)%Z /\
  exists c0 mid cl, s = String c0 (mid ++ String cl "") /\
    firstOK c0 = true /\
    (forall c, In c (list_ascii_of_string mid) ->
               (isAlnum c || isGlobMeta c || isHyphen c) = true) /\
    (isAlnum cl || isGlobMeta cl) = true.

(** A well-formed shell pattern: [path.Match] reports [ErrBadPattern] for
    no name. *)
Definition validPattern (s : string) : Prop :=
  forall name, path.Match s name <> None.

End label_vocabulary.

(** ** The registry *)

Section registry_vocabulary.

Import reverseproxy.

#[local] Open Scope string_scope.

(** The handlers of one listen port, by upstream address. *)
Definition onPort (ph : proxyHandlers) (port : Z) (addr : string) : option proxyHandler :=
  match ph !! port with
  | Some m => m !! addr
  | None => None
  end.

(** The handler registered under [name] for [port] and [addr]. *)
Definition registered (r : ReverseProxy) (name : string) (port : Z) (addr : string)
    : option proxyHandler :=
  match domainMap r !! name with
  | Some ph => onPort ph port addr
  | None => None
  end.

(** The upstream addresses [name] has handlers for on [port]. *)
Definition addresses (r : ReverseProxy) (name : string) (port : Z) : list string :=
  match domainMap r !! name with
  | Some ph =>
      match ph !! port with
      | Some m => map fst (map_to_list m)
      | None => []
      end
  | None => []
  end.

Definition liveHandler (now : Z) (r : ReverseProxy) (name : string) (port : Z) : Prop :=
  exists addr hd, registered r name port addr = Some hd /\ alive now hd = true.

(** The condition of the claim: a live handler for the port under [s]
    itself or under some registered name whose pattern matches [s]. *)
Definition someLiveHandler (now : Z) (r : ReverseProxy) (s : string) (port : Z) : Prop :=
  liveHandler now r s port \/
  exists name, In name (domains r) /\ matches name s = true /\ liveHandler now r name port.

(** The entry a lookup of [s] resolves to: [s] itself when it is
    registered, otherwise the first registered name, in the order of
    registration, whose pattern matches. *)
Definition resolvesTo (r : ReverseProxy) (s name : string) : Prop :=
  (is_Some (domainMap r !! s) /\ name = s) \/
  (domainMap r !! s = None /\
   exists pre post, domains r = (pre ++ name :: post)%list /\ matches name s = true /\
     forall n, In n pre -> matches n s = false).

(** The same, as [FindHandler] computes it. *)
Definition resolve (r : ReverseProxy) (s : string) : option string :=
  match domainMap r !! s with
  | Some _ => Some s
  | None => firstMatch r s
  end.

(** The order in which the handlers of [name] on [port] are visited leaves
    no address out. *)
Definition visitsAll (order : list string) (r : ReverseProxy) (name : string) (port : Z)
    : Prop :=
  forall addr, In addr (addresses r name port) -> In addr order.

(** A configuration with two listen ports, the second behind the cookie,
    and a registry with a subdomain on the first port and a pattern on the
    second, both added at the instant 0. *)
Definition exampleConfig : Config :=
  {| Listen_HTTP := [mkPortMap 80 80 false; mkPortMap 8080 8080 true];
     Network_ProxyTimeout := 0;
     Auth_ValidateAuthCookie :=
       fun c => if String.eqb (CookieValue c) "ok" then None else Some "invalid cookie value";
     localMode := false |}.

Definition parseAny (s : string) : string + string := inl s.

Definition unreachable (timeout : Z) : RoundTripper :=
  fun _ => inr "dial tcp 10.0.0.1:80: i/o timeout".

Definition exampleAdd (h : heap) (r : ReverseProxy) (subdomain ipaddress : string)
    (targetPort : Z) : heap * ReverseProxy * list logRecord :=
  AddSubdomain parseAny unreachable 0 h r subdomain ipaddress targetPort.

(** The registry of a process that has just started. *)
Definition registry0 : ReverseProxy := NewReverseProxy initialLifetime exampleConfig.

Definition registry1 : heap * ReverseProxy :=
  fst (exampleAdd ∅ registry0 "ab" "10.0.0.1" 80).

Definition registry2 : heap * ReverseProxy :=
  fst (exampleAdd (fst registry1) (snd registry1) "a*" "10.0.0.2" 8080).

(** [RoundTrip] hands the request to the wrapped transport. *)
Definition reachesUpstream (now : Z) (t : Transport) (req : Request) (h : heap) : Prop :=
  forwarded (snd (RoundTrip now t req h)) = [req].

(** A transport behind the cookie whose upstream times out, and one whose
    upstream refuses the connection. *)
Definition exampleTransport (err : string) : Transport :=
  {| Counter := 0%nat;
     Transport_ := fun _ => inr err;
     Subdomain := "feature-x";
     AuthCookieValidateFunc := Some (Auth_ValidateAuthCookie exampleConfig) |}.

Definition exampleRequest (method : string) (cookies : list Cookie) : Request :=
  {| Method := method; URL := "http://10.0.0.5:80/"; Host := "feature-x.example";
     Cookies := cookies |}.

End registry_vocabulary.

(** ** Purge rules and listings *)

Section ecs_vocabulary.

Import ecs.

#[local] Open Scope string_scope.

Definition excludedBySubdomain (info : Information) (p : PurgeParams) : Prop :=
  SubDomain info ∈ excludesMap p.

Definition excludedByTag (info : Information) (p : PurgeParams) : Prop :=
  exists t, In t (Tags info) /\
    excludeTagsMap p !! ToString (Key t) = Some (ToString (Value t)).

Definition excludedByRegexp (info : Information) (p : PurgeParams) : Prop :=
  exists re, ExcludeRegexp p = Some re /\ re (SubDomain info) = true.

(** A task that has run for exactly five minutes, and the parameters of a
    purge of five minutes without exclusions. *)
Definition fiveMinutes : Z := 5 * reverseproxy.Minute.

Definition exampleInformation : Information :=
  {| ID := "arn:aws:ecs:ap-northeast-1:123456789012:task/mirage/0123456789abcdef";
     ShortID := "0123456789abcdef";
     SubDomain := "test";
     GitBranch := "";
     TaskDef := "";
     IPAddress_ := "";
     Created := 0;
     LastStatus := statusRunning;
     PortMap_ := None;
     Env_ := ∅;
     Tags := [mkTag (Some "Subdomain") (Some "dGVzdA==");
              mkTag (Some "ManagedBy") (Some "Mirage")];
     task := mkTask None None None None [] None [] |}.

Definition exampleParams : PurgeParams :=
  {| Duration := fiveMinutes; Excludes := []; ExcludeTags := []; ExcludeRegexp := None;
     excludesMap := ∅; excludeTagsMap := ∅ |}.

(** A purge request for 2 ^ 54 seconds, read by [leastInt64], and the
    parameters [Validate] makes of it. *)
Definition leastInt64 (s : string) : option Z :=
  if String.eqb s "18014398509481984" then Some 18014398509481984 else None.

Definition leastRequest : webapi.APIPurgeRequest :=
  {| webapi.RequestDuration := "18014398509481984"; webapi.RequestExcludes := [];
     webapi.RequestExcludeTags := []; webapi.RequestExcludeRegexp := "" |}.

Definition leastParams : PurgeParams :=
  {| Duration := - 2 ^ 63; Excludes := []; ExcludeTags := []; ExcludeRegexp := None;
     excludesMap := ∅; excludeTagsMap := ∅ |}.

(** The entry carries the tag [ManagedBy = Mirage], and [getTagsFromTask]
    finds it. *)
Definition managed (info : Information) : Prop :=
  getTags (Tags info) TagManagedBy = Returns TagValueMirage /\
  exists t, In t (Tags info) /\ Key t = Some TagManagedBy /\ Value t = Some TagValueMirage.

(** No nil pointer among the names and values of the pairs. *)
Definition named (pairs : list KeyValuePair) : Prop :=
  List.Forall (fun kv => is_Some (KVName kv) /\ is_Some (KVValue kv)) pairs.

(** The task definition that [portMapInTask] reads for [tdArn], from the
    cache or else from the client, is not nil and names its containers; a
    call of the client that fails is as good. *)
Definition namedContainers (svc : Client) (cache : taskDefinitionCache) (tdArn : string)
    : Prop :=
  let ok td :=
    exists d, td = Some d /\
              List.Forall (fun c => is_Some (ContainerName c)) (ContainerDefinitions d) in
  match cache !! tdArn with
  | Some td => ok td
  | None =>
      match DescribeTaskDefinition svc tdArn with
      | inl td => ok td
      | inr _ => True
      end
  end.

(** The order of strings byte by byte, a proper prefix coming first. *)
Definition bytewiseLe (s t : string) : Prop :=
  s = t \/ OrderedTypeEx.String_as_OT.lt s t.

(** Ascending order of the subdomains: the subdomain of every entry is at
    or below the subdomains of all later entries. *)
Definition ascending (infos : list Information) : Prop :=
  StronglySorted (fun a b => bytewiseLe (SubDomain a) (SubDomain b)) infos.

(** What [sort.Slice] asks of the comparison it is given, and what it
    promises in return: afterwards no element is less than an earlier
    one. *)
Definition strictWeakOrdering (less : Information -> Information -> bool) : Prop :=
  (forall a, less a a = false) /\
  (forall a b c, less a b = true -> less b c = true -> less a c = true) /\
  (forall a b c, less a b = false -> less b c = false -> less a c = false).

Definition sortedBy (less : Information -> Information -> bool) (l : list Information)
    : Prop :=
  StronglySorted (fun a b => less b a = false) l.

(** A sort to stand for [sort.Slice]: insertion from the right. *)
Fixpoint insertSorted (less : Information -> Information -> bool) (x : Information)
    (l : list Information) : list Information :=
  match l with
  | [] => [x]
  | y :: l' => if less x y then x :: l else y :: insertSorted less x l'
  end.

Definition insertionSort (less : Information -> Information -> bool)
    (l : list Information) : list Information :=
  fold_right (insertSorted less) [] l.

(** A cluster with one page of three tasks, one of them not managed by the
    gateway, all of one task definition with a container that maps the
    port 80. *)
Definition exampleTaskDefinitionArn : string :=
  "arn:aws:ecs:us-east-1:1:task-definition/app:1".

Definition exampleTask (arn subdomain managedBy : string) : Task :=
  {| TaskArn := Some arn;
     TaskDefinitionArn := Some exampleTaskDefinitionArn;
     TaskLastStatus := Some statusRunning;
     StartedAt := Some 0;
     TaskTags := [mkTag (Some TagSubdomain) (Some (encodeTagValue subdomain));
                  mkTag (Some TagManagedBy) (Some managedBy)];
     Overrides :=
       Some [mkContainerOverride [mkKeyValuePair (Some "SUBDOMAIN") (Some subdomain);
                                  mkKeyValuePair (Some "GIT_BRANCH") (Some "main")]];
     Attachments :=
       [mkAttachment [mkKeyValuePair (Some "privateIPv4Address") (Some "10.0.0.1")]] |}.

Definition exampleTaskDefinition : TaskDefinition :=
  {| ContainerDefinitions :=
       [mkContainerDefinition (Some "app") [mkPortMapping (Some 80)]] |}.

Definition exampleClient : Client :=
  {| ListTasks := fun _ _ => inl (mkListTasksOutput ["t1"; "t2"; "t3"] None);
     DescribeTasks := fun _ =>
       inl [exampleTask "t1" "pr-42" "Mirage"; exampleTask "t2" "other" "Elsewhere";
            exampleTask "t3" "feature-x" "Mirage"];
     DescribeTaskDefinition := fun _ => inl (Some exampleTaskDefinition) |}.

(** A cluster of two pages: the tasks of the first page are described, the
    description of the second page fails. *)
Definition interruptedClient : Client :=
  {| ListTasks := fun nextToken _ =>
       match nextToken with
       | None => inl (mkListTasksOutput ["t1"; "t3"] (Some "page2"))
       | Some _ => inl (mkListTasksOutput ["t4"] None)
       end;
     DescribeTasks := fun arns =>
       match arns with
       | ["t1"; "t3"] =>
           inl [exampleTask "t1" "pr-42" "Mirage"; exampleTask "t3" "feature-x" "Mirage"]
       | _ => inr "ThrottlingException"
       end;
     DescribeTaskDefinition := fun _ => inl (Some exampleTaskDefinition) |}.

(** The pages of the cluster end within [fuel] calls of [ListTasks]: one of
    the calls fails, or its page carries no token. *)
Fixpoint pagesEndWithin (fuel : nat) (svc : Client) (desiredStatus : string)
    (nextToken : option string) : bool :=
  match fuel with
  | O => false
  | S fuel' =>
      match ListTasks svc nextToken desiredStatus with
      | inr _ => true
      | inl listOut =>
          match NextToken listOut with
          | None => true
          | Some token => pagesEndWithin fuel' svc desiredStatus (Some token)
          end
      end
  end.

End ecs_vocabulary.


(** * Further properties: vocabulary *)

Section registry_invariant_vocabulary.

Import reverseproxy.

(** The registry is consistent: no name is listed twice, the listed names
    are those with an entry, and every name with an entry has an access
    counter. *)
Definition wellFormed (r : ReverseProxy) : Prop :=
  NoDup (domains r) /\
  (forall n, In n (domains r) <-> is_Some (domainMap r !! n)) /\
  (forall n, is_Some (domainMap r !! n) -> is_Some (accessCounters r !! n)).

End registry_invariant_vocabulary.

(** ** Strings *)

(** No byte of [s] is [sep]. *)
Definition without (sep : ascii) (s : string) : Prop :=
  ~ In sep (list_ascii_of_string s).


(** The number of bytes of [s] that are [sep]. *)
Fixpoint countByte (sep : ascii) (s : string) : nat :=
  match s with
  | EmptyString => O
  | String c s' => if Ascii.eqb c sep then S (countByte sep s') else countByte sep s'
  end.

(** A name without pattern characters: letters, digits and hyphens. *)
Definition plainName (s : string) : Prop :=
  List.Forall (fun c => (isAlnum c || isHyphen c) = true) (list_ascii_of_string s).

(** ** Examples *)

Section further_examples.

Import reverseproxy ecs webapi.

#[local] Open Scope string_scope.

(** A request for the host of the subdomain [ab], written in capitals. *)
Definition exampleHostRequest : Request :=
  {| Method := "GET"; URL := "/"; Host := "AB.example.com"; Cookies := [] |}.

(** A stand-in for the Unicode fallback of [strings.ToLower]. *)
Definition keepCase (s : string) : string := s.

(** The default parameter of the configuration, and a request that sets
    it. *)
Definition branchParameter : Parameter_ :=
  {| Name := "branch"; Env := "GIT_BRANCH"; Rule := ""; Required := true;
     Regexp_MatchString := fun _ => true; Default := "" |}.

Definition branchMain : TaskParameter := {["branch" := "main"]}.

Definition exampleOverride : ContainerOverride :=
  {| Environment := [mkKeyValuePair (Some "SUBDOMAIN") (Some "ab");
                     mkKeyValuePair (Some "GIT_BRANCH") (Some "main")] |}.

Definition exampleEnvironment : gmap string string :=
  <["GIT_BRANCH" := "main"]> (<["SUBDOMAIN" := "ab"]> ∅).

(** An [errgroup] whose functions run one after the other. *)
Fixpoint firstError (errs : list (option string)) : option string :=
  match errs with
  | [] => None
  | Some e :: _ => Some e
  | None :: rest => firstError rest
  end.

Definition stopsAll (taskArn : string) : option string := None.

(** The purge request of the sample configuration, with its duration
    read by [exampleInt64]. *)
Definition exampleInt64 (s : string) : option Z :=
  if String.eqb s "300" then Some 300 else None.

Definition noRegexp (s : string) : option (string -> bool) := None.

Definition examplePurgeRequest : APIPurgeRequest :=
  {| RequestDuration := "300"; RequestExcludes := ["test"; "test2"];
     RequestExcludeTags := ["DontPurge:true"]; RequestExcludeRegexp := "" |}.

Definition examplePurgeParams : PurgeParams :=
  {| Duration := 300 * Second; Excludes := ["test"; "test2"];
     ExcludeTags := ["DontPurge:true"]; ExcludeRegexp := None;
     excludesMap := {["test2"]} ∪ ({["test"]} ∪ ∅);
     excludeTagsMap := <["DontPurge" := "true"]> ∅ |}.

(** Ten minutes after the tasks of the example cluster were started. *)
Definition atTenMinutes (i : nat) : Z := 10 * Minute.

(** A task as [launchTask] starts it for the subdomain [ab], with the
    tags and the environment of the request [branchMain]. *)
Definition launchedTask : Task :=
  {| TaskArn := Some "arn:aws:ecs:us-east-1:1:task/mirage/0123456789abcdef";
     TaskDefinitionArn := Some exampleTaskDefinitionArn;
     TaskLastStatus := Some "PENDING";
     StartedAt := None;
     TaskTags := ToECSTags branchMain "ab" [branchParameter];
     Overrides :=
       Some [mkContainerOverride
               (ToECSKeyValuePairs branchMain "ab" [branchParameter] keepCase)];
     Attachments :=
       [mkAttachment [mkKeyValuePair (Some "subnetId") (Some "subnet-1");
                      mkKeyValuePair (Some "privateIPv4Address") (Some "10.0.0.1")]] |}.

(** A launch request as bound from a JSON body, and a runner that
    launches. *)
Definition exampleBind (r : APILaunchRequest) : APILaunchRequest + string :=
  inl {| Subdomain := "ab"; Branch := "main"; Taskdef := ["app:1"];
         Parameters := Parameters r |}.

Definition launches (subdomain : string) (parameter : TaskParameter)
    (taskdefs : list string) : option string := None.

Definition exampleLaunched : launched :=
  {| code := 200; launchError_ := None;
     launchCall := Some ("ab", branchMain, ["app:1"]) |}.

Definition emptyRequest : APILaunchRequest :=
  {| Subdomain := ""; Branch := ""; Taskdef := []; Parameters := ∅ |}.

Definition exampleForm : gmap string (list string) := {["team" := ["a"; "b"]]}.

Definition mergedRequest : APILaunchRequest :=
  {| Subdomain := ""; Branch := ""; Taskdef := []; Parameters := {["team" := "a"]} |}.

(** The list page of the example cluster. *)
Definition examplePage : list Information :=
  match webapi.List_ insertionSort 1 exampleClient ∅ with
  | Some (Returns (inl infos, _)) => infos
  | _ => []
  end.

End further_examples.

(** * The tag-value codec *)

Section base64_facts.

Import base64.


Lemma forallb_below (P : Z -> bool) (n : nat) :
  forallb P (map Z.of_nat (seq 0 n)) = true ->
  forall z, 0 <= z < Z.of_nat n -> P z = true.
Proof.
  intros H z Hz. rewrite forallb_forall in H. apply H.
  apply in_map_iff. exists (Z.to_nat z). split; [lia|].
  apply in_seq. lia.
Qed.

Lemma land_shiftl_small a b n : 0 <= n -> 0 <= b < 2 ^ n -> Z.land (Z.shiftl a n) b = 0.
Proof.
  intros Hn Hb. apply Z.bits_inj'. intros i Hi.
  rewrite Z.land_spec, Z.bits_0.
  destruct (Z.ltb_spec i n).
  - rewrite Z.shiftl_spec_low by lia. reflexivity.
  - replace b with (b mod 2 ^ n) by (apply Z.mod_small; lia).
    rewrite Z.mod_pow2_bits_high by lia. apply andb_false_r.
Qed.

Lemma lor_shiftl_add a b n : 0 <= n -> 0 <= b < 2 ^ n -> Z.lor (Z.shiftl a n) b = a * 2 ^ n + b.
Proof.
  intros Hn Hb. pose proof (Z.add_lor_land (Z.shiftl a n) b) as H.
  rewrite land_shiftl_small in H by assumption.
  rewrite Z.shiftl_mul_pow2 in * by lia. lia.
Qed.

Lemma land_63 x : Z.land x 63 = x mod 64.
Proof. change 63 with (Z.ones 6). rewrite Z.land_ones by lia. reflexivity. Qed.

Lemma byte_mod x : byte x = x mod 256.
Proof. unfold byte. change 255 with (Z.ones 8). rewrite Z.land_ones by lia. reflexivity. Qed.

Lemma pack3 a b c : is_byte a -> is_byte b -> is_byte c ->
  Z.lor (Z.lor (Z.shiftl a 16) (Z.shiftl b 8)) c = a * 65536 + b * 256 + c.
Proof.
  unfold is_byte. intros Ha Hb Hc.
  replace (Z.lor (Z.shiftl a 16) (Z.shiftl b 8)) with (Z.shiftl (Z.lor (Z.shiftl a 8) b) 8).
  2:{ rewrite Z.shiftl_lor, Z.shiftl_shiftl by lia. reflexivity. }
  rewrite (lor_shiftl_add _ c 8) by lia.
  rewrite (lor_shiftl_add a b 8) by lia. lia.
Qed.

Lemma pack4 v0 v1 v2 v3 : 0 <= v0 < 64 -> 0 <= v1 < 64 -> 0 <= v2 < 64 -> 0 <= v3 < 64 ->
  Z.lor (Z.lor (Z.lor (Z.shiftl v0 18) (Z.shiftl v1 12)) (Z.shiftl v2 6)) v3
  = v0 * 262144 + v1 * 4096 + v2 * 64 + v3.
Proof.
  intros H0 H1 H2 H3.
  replace (Z.lor (Z.lor (Z.shiftl v0 18) (Z.shiftl v1 12)) (Z.shiftl v2 6))
    with (Z.shiftl (Z.lor (Z.shiftl (Z.lor (Z.shiftl v0 6) v1) 6) v2) 6).
  2:{ rewrite !Z.shiftl_lor, !Z.shiftl_shiftl by lia. reflexivity. }
  rewrite (lor_shiftl_add _ v3 6) by lia.
  rewrite (lor_shiftl_add _ v2 6) by lia.
  rewrite (lor_shiftl_add _ v1 6) by lia. lia.
Qed.


Lemma encode_tbl v : 0 <= v < 64 ->
  let c := index (encode URLEncoding) v in
  is_byte c /\ index (decodeMap URLEncoding) c = v /\ isNewline c = false /\ c <> StdPadding.
Proof.
  intros Hv.
  pose (P := fun v => let c := index (encode URLEncoding) v in
     (0 <=? c) && (c <? 256) && (index (decodeMap URLEncoding) c =? v)
     && negb (isNewline c) && negb (c =? StdPadding)).
  assert (HP : P v = true) by (apply (forallb_below P 64); [vm_compute; reflexivity | lia]).
  unfold P in HP. cbv zeta in *.
  repeat (apply andb_prop in HP; destruct HP as [HP ?]).
  unfold is_byte. rewrite negb_true_iff in *. repeat split; try lia; auto.
Qed.

Lemma decode_tbl c : is_byte c -> index (decodeMap URLEncoding) c <> 255 ->
  let v := index (decodeMap URLEncoding) c in
  0 <= v < 64 /\ index (encode URLEncoding) v = c.
Proof.
  intros Hc Hv.
  pose (P := fun c => let v := index (decodeMap URLEncoding) c in
     (v =? 255) || ((0 <=? v) && (v <? 64) && (index (encode URLEncoding) v =? c))).
  assert (HP : P c = true) by (apply (forallb_below P 256); [vm_compute; reflexivity | unfold is_byte in Hc; lia]).
  unfold P in HP. cbv zeta in *.
  apply orb_prop in HP. destruct HP as [HP|HP]; [lia|].
  repeat (apply andb_prop in HP; destruct HP as [HP ?]). lia.
Qed.

Lemma skipNewlines_length src : (length (skipNewlines src) <= length src)%nat.
Proof. induction src as [|c r IH]; simpl; [lia|]. destruct (isNewline c); simpl; lia. Qed.

Lemma assemble_rest enc dbuf dlen rest err :
  fst (fst (assemble enc dbuf dlen rest err)) = rest.
Proof.
  unfold assemble. destruct dlen as [|[|[|[|[|n]]]]]; try reflexivity;
    destruct (_ && _); reflexivity.
Qed.

Lemma afterPadding_length enc j dbuf rest :
  (length (fst (fst (afterPadding enc j dbuf rest))) <= length rest)%nat.
Proof.
  unfold afterPadding. destruct j as [|[|[|j]]]; cbv zeta; [simpl; lia|simpl; lia| |].
  - pose proof (skipNewlines_length rest) as H.
    destruct (skipNewlines rest) as [|c r] eqn:E; [simpl; lia|].
    destruct (negb _); [simpl in *; lia|].
    rewrite assemble_rest. pose proof (skipNewlines_length r). simpl in H. lia.
  - rewrite assemble_rest. apply skipNewlines_length.
Qed.

Lemma decodeQuantum_from_length enc src : forall j dbuf,
  (length (fst (fst (decodeQuantum_from enc j dbuf src))) <= length src)%nat /\
  ((j < 4)%nat -> src <> [] ->
   (length (fst (fst (decodeQuantum_from enc j dbuf src))) < length src)%nat).
Proof.
  induction src as [|c rest IH]; intros j dbuf.
  - cbn [decodeQuantum_from]. destruct (j =? 4)%nat eqn:E4.
    + rewrite assemble_rest. simpl. split; [lia|congruence].
    + split; [|congruence].
      destruct (j =? 0)%nat; [simpl; lia|].
      destruct (_ || _); [simpl; lia|]. rewrite assemble_rest. simpl; lia.
  - cbn [decodeQuantum_from]. destruct (j =? 4)%nat eqn:E4.
    + rewrite assemble_rest. apply Nat.eqb_eq in E4. split; [lia|lia].
    + cbv zeta.
      match goal with
      | |- (length ?t <= _)%nat /\ _ =>
          assert (Hgoal : (length t < length (c :: rest))%nat)
      end.
      { destruct (negb _).
        - destruct (IH (S j) (dbuf ++ [index (decodeMap enc) c])) as [H _]. simpl. lia.
        - destruct (isNewline c).
          + destruct (IH j dbuf) as [H _]. simpl. lia.
          + destruct (negb _); [simpl; lia|].
            pose proof (afterPadding_length enc j dbuf rest). simpl. lia. }
      split; [lia|intros; exact Hgoal].
Qed.

Lemma decodeQuantum_length enc src : src <> [] ->
  (length (fst (fst (decodeQuantum enc src))) < length src)%nat.
Proof. intros H. apply decodeQuantum_from_length; [lia|assumption]. Qed.

(** [len(src)] rounds are enough: more fuel changes nothing. *)
Lemma Decode_loop_fuel enc : forall fuel src, (length src <= fuel)%nat ->
  Decode_loop fuel enc src = Decode_loop (length src) enc src.
Proof.
  intros fuel. induction fuel as [fuel IH] using lt_wf_ind. intros src Hle.
  destruct src as [|c rest]; [destruct fuel; reflexivity|].
  destruct fuel as [|fuel]; [simpl in Hle; lia|].
  cbn [Decode_loop length].
  pose proof (decodeQuantum_length enc (c :: rest) ltac:(congruence)) as Hlen.
  destruct (decodeQuantum enc (c :: rest)) as [[r out] [e|]]; [reflexivity|].
  simpl in Hlen.
  simpl in Hle.
  rewrite (IH fuel); [|lia|lia].
  rewrite (IH (length rest)); [reflexivity|lia|lia].
Qed.

(** Conversions between strings and byte slices. *)
Lemma byte_of_is_byte c : is_byte (byte_of c).
Proof.
  unfold is_byte, byte_of. pose proof (N_ascii_bounded c). lia.
Qed.

Lemma byte_small b : is_byte b -> byte b = b.
Proof. unfold is_byte. intros H. rewrite byte_mod. apply Z.mod_small. lia. Qed.

Lemma ascii_of_byte_of c : ascii_of (byte_of c) = c.
Proof.
  unfold ascii_of. rewrite byte_small by apply byte_of_is_byte.
  unfold byte_of. rewrite N2Z.id. apply ascii_N_embedding.
Qed.

Lemma byte_of_ascii_of b : is_byte b -> byte_of (ascii_of b) = b.
Proof.
  intros H. unfold ascii_of, byte_of. rewrite byte_small by assumption.
  unfold is_byte in H. rewrite N_ascii_embedding by lia. lia.
Qed.

Lemma of_bytes_bytes s : of_bytes (bytes s) = s.
Proof.
  unfold of_bytes, bytes. rewrite map_map.
  rewrite (map_ext _ (fun c => c)) by apply ascii_of_byte_of.
  rewrite map_id. apply string_of_list_ascii_of_string.
Qed.

Lemma bytes_of_bytes d : Forall is_byte d -> bytes (of_bytes d) = d.
Proof.
  intros H. unfold of_bytes, bytes. rewrite list_ascii_of_string_of_list_ascii, map_map.
  induction H as [|b d Hb _ IH]; simpl; [reflexivity|].
  rewrite byte_of_ascii_of by assumption. f_equal. exact IH.
Qed.

Lemma bytes_is_byte s : Forall is_byte (bytes s).
Proof.
  unfold bytes. induction (list_ascii_of_string s) as [|c l IH]; simpl; constructor;
    [apply byte_of_is_byte | exact IH].
Qed.

Lemma bytes_length s : length (bytes s) = String.length s.
Proof.
  unfold bytes. rewrite length_map. induction s; simpl; auto.
Qed.

(** The arithmetic of one quantum. *)
Ltac to_arith :=
  rewrite ?land_63, ?byte_mod, ?Z.shiftr_div_pow2 by lia;
  change (2 ^ 18) with 262144; change (2 ^ 16) with 65536; change (2 ^ 12) with 4096;
  change (2 ^ 8) with 256; change (2 ^ 6) with 64; change (2 ^ 0) with 1.

Lemma sextet_range x : 0 <= Z.land x 63 < 64.
Proof. rewrite land_63. apply Z.mod_pos_bound. lia. Qed.

Lemma quantum3 a b c : is_byte a -> is_byte b -> is_byte c ->
  let val := Z.lor (Z.lor (Z.shiftl a 16) (Z.shiftl b 8)) c in
  let val' := Z.lor (Z.lor (Z.lor (Z.shiftl (Z.land (Z.shiftr val 18) 63) 18)
                                   (Z.shiftl (Z.land (Z.shiftr val 12) 63) 12))
                            (Z.shiftl (Z.land (Z.shiftr val 6) 63) 6))
                     (Z.land val 63) in
  byte (Z.shiftr val' 16) = a /\ byte (Z.shiftr val' 8) = b /\ byte (Z.shiftr val' 0) = c.
Proof.
  intros Ha Hb Hc val val'. subst val'.
  rewrite pack4 by apply sextet_range.
  subst val. rewrite pack3 by assumption.
  unfold is_byte in *. to_arith.
  repeat split; Z.div_mod_to_equations; lia.
Qed.

Lemma dq_valid enc j dbuf c rest : j <> 4%nat -> index (decodeMap enc) c <> 255 ->
  decodeQuantum_from enc j dbuf (c :: rest)
  = decodeQuantum_from enc (S j) (dbuf ++ [index (decodeMap enc) c]) rest.
Proof.
  intros Hj Hv. cbn [decodeQuantum_from]. apply Nat.eqb_neq in Hj. rewrite Hj. cbv zeta.
  destruct (Z.eqb_spec (index (decodeMap enc) c) 255); [contradiction|reflexivity].
Qed.

Lemma dq_invalid enc j dbuf c rest : j <> 4%nat -> index (decodeMap enc) c = 255 ->
  isNewline c = false ->
  decodeQuantum_from enc j dbuf (c :: rest)
  = if negb (bool_decide (padChar enc = Some c)) then (rest, [], Some Corrupt)
    else afterPadding enc j dbuf rest.
Proof.
  intros Hj Hv Hn. cbn [decodeQuantum_from]. apply Nat.eqb_neq in Hj. rewrite Hj. cbv zeta.
  rewrite Hv, Hn. reflexivity.
Qed.

Lemma dq_done enc dbuf src :
  decodeQuantum_from enc 4 dbuf src = assemble enc dbuf 4 src None.
Proof. destruct src; reflexivity. Qed.

#[local] Abbreviation E v := (index (encode URLEncoding) v).

Lemma pad_tbl : padChar URLEncoding = Some StdPadding
  /\ index (decodeMap URLEncoding) StdPadding = 255 /\ isNewline StdPadding = false.
Proof. repeat split. Qed.

Lemma dq_full v0 v1 v2 v3 rest :
  0 <= v0 < 64 -> 0 <= v1 < 64 -> 0 <= v2 < 64 -> 0 <= v3 < 64 ->
  decodeQuantum URLEncoding (E v0 :: E v1 :: E v2 :: E v3 :: rest)
  = assemble URLEncoding [v0; v1; v2; v3] 4 rest None.
Proof.
  intros H0 H1 H2 H3. unfold decodeQuantum.
  destruct (encode_tbl v0 H0) as (_ & E0 & _).
  destruct (encode_tbl v1 H1) as (_ & E1 & _).
  destruct (encode_tbl v2 H2) as (_ & E2 & _).
  destruct (encode_tbl v3 H3) as (_ & E3 & _).
  cbv zeta in *.
  rewrite dq_valid by (rewrite ?E0; lia). rewrite E0.
  rewrite dq_valid by (rewrite ?E1; lia). rewrite E1.
  rewrite dq_valid by (rewrite ?E2; lia). rewrite E2.
  rewrite dq_valid by (rewrite ?E3; lia). rewrite E3.
  apply dq_done.
Qed.

Lemma dq_two strict_enc v0 v1 :
  0 <= v0 < 64 -> 0 <= v1 < 64 ->
  strict_enc = URLEncoding \/ strict_enc = Strict URLEncoding ->
  decodeQuantum strict_enc [E v0; E v1; StdPadding; StdPadding]
  = assemble strict_enc [v0; v1] 2 [] None.
Proof.
  intros H0 H1 Hs. unfold decodeQuantum.
  destruct (encode_tbl v0 H0) as (_ & E0 & _).
  destruct (encode_tbl v1 H1) as (_ & E1 & _).
  cbv zeta in *.
  assert (Hd : decodeMap strict_enc = decodeMap URLEncoding) by (destruct Hs; subst; reflexivity).
  assert (Hp : padChar strict_enc = Some StdPadding) by (destruct Hs; subst; reflexivity).
  rewrite dq_valid by (rewrite ?Hd, ?E0; lia). rewrite Hd, E0.
  rewrite dq_valid by (rewrite ?Hd, ?E1; lia). rewrite Hd, E1.
  rewrite dq_invalid by (rewrite ?Hd; reflexivity || lia).
  rewrite Hp, bool_decide_eq_true_2 by reflexivity.
  unfold afterPadding. change (skipNewlines [StdPadding]) with [StdPadding].
  rewrite Hp, bool_decide_eq_true_2 by reflexivity. reflexivity.
Qed.

Lemma dq_three strict_enc v0 v1 v2 :
  0 <= v0 < 64 -> 0 <= v1 < 64 -> 0 <= v2 < 64 ->
  strict_enc = URLEncoding \/ strict_enc = Strict URLEncoding ->
  decodeQuantum strict_enc [E v0; E v1; E v2; StdPadding]
  = assemble strict_enc [v0; v1; v2] 3 [] None.
Proof.
  intros H0 H1 H2 Hs. unfold decodeQuantum.
  destruct (encode_tbl v0 H0) as (_ & E0 & _).
  destruct (encode_tbl v1 H1) as (_ & E1 & _).
  destruct (encode_tbl v2 H2) as (_ & E2 & _).
  cbv zeta in *.
  assert (Hd : decodeMap strict_enc = decodeMap URLEncoding) by (destruct Hs; subst; reflexivity).
  assert (Hp : padChar strict_enc = Some StdPadding) by (destruct Hs; subst; reflexivity).
  rewrite dq_valid by (rewrite ?Hd, ?E0; lia). rewrite Hd, E0.
  rewrite dq_valid by (rewrite ?Hd, ?E1; lia). rewrite Hd, E1.
  rewrite dq_valid by (rewrite ?Hd, ?E2; lia). rewrite Hd, E2.
  rewrite dq_invalid by (rewrite ?Hd; reflexivity || lia).
  rewrite Hp, bool_decide_eq_true_2 by reflexivity. reflexivity.
Qed.

Lemma list_ind3 {A} (P : list A -> Prop) :
  P [] -> (forall a, P [a]) -> (forall a b, P [a; b]) ->
  (forall a b c l, P l -> P (a :: b :: c :: l)) -> forall l, P l.
Proof.
  intros H0 H1 H2 H3.
  fix IH 1. intros [|a [|b [|c l]]];
    [exact H0 | apply H1 | apply H2 | apply H3; apply IH].
Qed.

Lemma E_is_byte x : is_byte (E (Z.land x 63)).
Proof. apply encode_tbl, sextet_range. Qed.

Lemma Encode_is_byte src : Forall is_byte (Encode URLEncoding src).
Proof.
  assert (Hpad : is_byte StdPadding) by (unfold is_byte, StdPadding; lia).
  pattern src; apply list_ind3; clear src; [|intros a|intros a b|intros a b c l IH];
    cbn [Encode pad URLEncoding NewEncoding padChar app];
    repeat (apply List.Forall_cons; [first [apply E_is_byte | exact Hpad]|]);
    first [apply List.Forall_nil | exact IH].
Qed.

Lemma Decode_loop_cons fuel enc c src :
  Decode_loop (S fuel) enc (c :: src)
  = match decodeQuantum enc (c :: src) with
    | (_, out, Some e) => (out, Some e)
    | (rest, out, None) => let '(d, e) := Decode_loop fuel enc rest in (out ++ d, e)
    end.
Proof. reflexivity. Qed.

Lemma pack2 a b : is_byte a -> is_byte b ->
  Z.lor (Z.shiftl a 16) (Z.shiftl b 8) = a * 65536 + b * 256.
Proof.
  intros Ha Hb. pose proof (pack3 a b 0 Ha Hb ltac:(unfold is_byte; lia)) as H.
  rewrite Z.lor_0_r in H. lia.
Qed.

Lemma Decode_Encode src : Forall is_byte src -> forall fuel,
  (length (Encode URLEncoding src) <= fuel)%nat ->
  Decode_loop fuel URLEncoding (Encode URLEncoding src) = (src, None).
Proof.
  pattern src; apply list_ind3; clear src; [|intros a|intros a b|intros a b c l IH];
    intros Hb fuel Hf.
  - destruct fuel; reflexivity.
  - rewrite Decode_loop_fuel by assumption. inversion_clear Hb as [|? ? Ha _].
    cbn [Encode pad URLEncoding NewEncoding padChar app length Decode_loop].
    rewrite dq_two by (auto using sextet_range).
    unfold assemble. cbn [strict URLEncoding NewEncoding andb nth Decode_loop app].
    f_equal. f_equal.
    rewrite pack4 by (try apply sextet_range; lia).
    unfold is_byte in Ha. rewrite !Z.shiftl_mul_pow2 by lia. to_arith.
    Z.div_mod_to_equations; lia.
  - rewrite Decode_loop_fuel by assumption.
    inversion_clear Hb as [|? ? Ha Hb']. inversion_clear Hb' as [|? ? Hb _].
    cbn [Encode pad URLEncoding NewEncoding padChar app length Decode_loop].
    rewrite dq_three by (auto using sextet_range).
    unfold assemble. cbn [strict URLEncoding NewEncoding andb nth Decode_loop app].
    rewrite pack4 by (try apply sextet_range; lia).
    rewrite pack2 by assumption.
    unfold is_byte in *. to_arith.
    f_equal. f_equal; [|f_equal]; Z.div_mod_to_equations; lia.
  - rewrite Decode_loop_fuel by assumption.
    inversion_clear Hb as [|? ? Ha Hb']. inversion_clear Hb' as [|? ? Hb Hb''].
    inversion_clear Hb'' as [|? ? Hc Hl].
    cbn [Encode length]. rewrite Decode_loop_cons.
    rewrite dq_full by (auto using sextet_range).
    unfold assemble. cbn [nth].
    rewrite IH by (assumption || lia).
    destruct (quantum3 a b c Ha Hb Hc) as (-> & -> & ->). reflexivity.
Qed.

(** The converse direction, for canonical input. *)

Lemma skipNewlines_id src : noNewline src -> skipNewlines src = src.
Proof. intros H. destruct H as [|c l Hc _]; simpl; [reflexivity|]. rewrite Hc. reflexivity. Qed.

Lemma requantum4 v0 v1 v2 v3 :
  0 <= v0 < 64 -> 0 <= v1 < 64 -> 0 <= v2 < 64 -> 0 <= v3 < 64 ->
  let val := Z.lor (Z.lor (Z.lor (Z.shiftl v0 18) (Z.shiftl v1 12)) (Z.shiftl v2 6)) v3 in
  let val2 := Z.lor (Z.lor (Z.shiftl (byte (Z.shiftr val 16)) 16)
                           (Z.shiftl (byte (Z.shiftr val 8)) 8)) (byte (Z.shiftr val 0)) in
  Z.land (Z.shiftr val2 18) 63 = v0 /\ Z.land (Z.shiftr val2 12) 63 = v1 /\
  Z.land (Z.shiftr val2 6) 63 = v2 /\ Z.land val2 63 = v3.
Proof.
  intros H0 H1 H2 H3 val val2. subst val2.
  assert (Hb : forall x, is_byte (byte x)).
  { intros x. rewrite byte_mod. unfold is_byte. apply Z.mod_pos_bound. lia. }
  rewrite pack3 by apply Hb. subst val. rewrite pack4 by assumption.
  to_arith. repeat split; Z.div_mod_to_equations; lia.
Qed.

Lemma requantum3 v0 v1 v2 :
  0 <= v0 < 64 -> 0 <= v1 < 64 -> 0 <= v2 < 64 ->
  let val := Z.lor (Z.lor (Z.lor (Z.shiftl v0 18) (Z.shiftl v1 12)) (Z.shiftl v2 6)) 0 in
  byte (Z.shiftr val 0) = 0 ->
  let val2 := Z.lor (Z.shiftl (byte (Z.shiftr val 16)) 16)
                    (Z.shiftl (byte (Z.shiftr val 8)) 8) in
  Z.land (Z.shiftr val2 18) 63 = v0 /\ Z.land (Z.shiftr val2 12) 63 = v1 /\
  Z.land (Z.shiftr val2 6) 63 = v2.
Proof.
  intros H0 H1 H2 val Hs val2. subst val2.
  assert (Hb : forall x, is_byte (byte x)).
  { intros x. rewrite byte_mod. unfold is_byte. apply Z.mod_pos_bound. lia. }
  rewrite pack2 by apply Hb. subst val. rewrite pack4 in * by (assumption || lia).
  revert Hs. to_arith. intros Hs. repeat split; Z.div_mod_to_equations; lia.
Qed.

Lemma requantum2 v0 v1 :
  0 <= v0 < 64 -> 0 <= v1 < 64 ->
  let val := Z.lor (Z.lor (Z.lor (Z.shiftl v0 18) (Z.shiftl v1 12)) (Z.shiftl 0 6)) 0 in
  byte (Z.shiftr val 8) = 0 ->
  let val2 := Z.shiftl (byte (Z.shiftr val 16)) 16 in
  Z.land (Z.shiftr val2 18) 63 = v0 /\ Z.land (Z.shiftr val2 12) 63 = v1.
Proof.
  intros H0 H1 val Hs val2. subst val2.
  rewrite Z.shiftl_mul_pow2 by lia. subst val. rewrite pack4 in * by (assumption || lia).
  revert Hs. to_arith. intros Hs. repeat split; Z.div_mod_to_equations; lia.
Qed.

Lemma pad_URL : pad URLEncoding = [StdPadding].
Proof. reflexivity. Qed.

Lemma assemble_err enc dbuf dlen rest r out :
  assemble enc dbuf dlen rest (Some Corrupt) <> (r, out, None).
Proof.
  unfold assemble. destruct dlen as [|[|[|[|[|n]]]]]; try congruence;
    destruct (_ && _); congruence.
Qed.

#[local] Abbreviation SURL := (Strict URLEncoding).

Ltac invalid_char Hp :=
  rewrite dq_invalid by (assumption || lia);
  rewrite Hp; case_bool_decide; cbn [negb]; [|discriminate].

Lemma dq_strict_inv src rest out :
  Forall is_byte src -> noNewline src -> src <> [] ->
  decodeQuantum SURL src = (rest, out, None) ->
  src = Encode URLEncoding out ++ rest /\ (length out = 3%nat \/ rest = []).
Proof.
  intros Hb Hn Hne. unfold decodeQuantum.
  assert (Hp : padChar SURL = Some StdPadding) by reflexivity.
  assert (Hd : decodeMap SURL = decodeMap URLEncoding) by reflexivity.
  assert (Hs : strict SURL = true) by reflexivity.
  generalize dependent SURL. intros S Hp Hd Hs.
  destruct src as [|c0 src]; [congruence|]. clear Hne.
  apply List.Forall_cons_iff in Hb as [Hb0 Hb]. apply List.Forall_cons_iff in Hn as [Hn0 Hn].
  destruct (Z.eq_dec (index (decodeMap S) c0) 255) as [E0|E0].
  { invalid_char Hp. discriminate. }
  rewrite dq_valid by (assumption || lia).
  destruct src as [|c1 src]; [discriminate|].
  apply List.Forall_cons_iff in Hb as [Hb1 Hb]. apply List.Forall_cons_iff in Hn as [Hn1 Hn].
  destruct (Z.eq_dec (index (decodeMap S) c1) 255) as [E1|E1].
  { invalid_char Hp. discriminate. }
  rewrite dq_valid by (assumption || lia).
  rewrite Hd in *.
  destruct (decode_tbl c0 Hb0 E0) as [R0 T0]. destruct (decode_tbl c1 Hb1 E1) as [R1 T1].
  cbv zeta in *. cbn [app].
  destruct src as [|c2 src].
  { cbn [decodeQuantum_from Nat.eqb orb]. rewrite Hp. discriminate. }
  apply List.Forall_cons_iff in Hb as [Hb2 Hb]. apply List.Forall_cons_iff in Hn as [Hn2 Hn].
  destruct (Z.eq_dec (index (decodeMap S) c2) 255) as [E2|E2].
  { invalid_char Hp. unfold afterPadding. rewrite skipNewlines_id by assumption.
    destruct src as [|c3 src]; [discriminate|].
    apply List.Forall_cons_iff in Hn as [Hn3 Hn].
    rewrite Hp; case_bool_decide; cbn [negb]; [|discriminate].
    rewrite skipNewlines_id by assumption.
    destruct src as [|c4 src]; [|intros HH; exfalso; revert HH; apply assemble_err].
    unfold assemble. rewrite Hs. cbn [nth andb].
    destruct (negb _ || negb _) eqn:Hstrict; [discriminate|].
    intros HH; apply pair_equal_spec in HH as [HH _]; apply pair_equal_spec in HH as [<- <-]. split; [|right; reflexivity].
    apply orb_false_elim in Hstrict as [Hs1 _]. apply negb_false_iff, Z.eqb_eq in Hs1.
    destruct (requantum2 _ _ R0 R1 Hs1) as [Q0 Q1].
    cbn [Encode]. rewrite pad_URL. cbn [app].
    rewrite Q0, Q1, T0, T1. congruence. }
  rewrite dq_valid by (assumption || lia).
  rewrite Hd in *. destruct (decode_tbl c2 Hb2 E2) as [R2 T2]. cbv zeta in *. cbn [app].
  destruct src as [|c3 src].
  { cbn [decodeQuantum_from Nat.eqb orb]. rewrite Hp. discriminate. }
  apply List.Forall_cons_iff in Hb as [Hb3 Hb]. apply List.Forall_cons_iff in Hn as [Hn3 Hn].
  destruct (Z.eq_dec (index (decodeMap S) c3) 255) as [E3|E3].
  { invalid_char Hp. unfold afterPadding. rewrite skipNewlines_id by assumption.
    destruct src as [|c4 src]; [|intros HH; exfalso; revert HH; apply assemble_err].
    unfold assemble. rewrite Hs. cbn [nth andb].
    destruct (negb _) eqn:Hstrict; [discriminate|].
    intros HH; apply pair_equal_spec in HH as [HH _]; apply pair_equal_spec in HH as [<- <-]. split; [|right; reflexivity].
    apply negb_false_iff, Z.eqb_eq in Hstrict.
    destruct (requantum3 _ _ _ R0 R1 R2 Hstrict) as (Q0 & Q1 & Q2).
    cbn [Encode]. rewrite pad_URL. cbn [app].
    rewrite Q0, Q1, Q2, T0, T1, T2. congruence. }
  rewrite dq_valid by (assumption || lia).
  rewrite Hd in *. destruct (decode_tbl c3 Hb3 E3) as [R3 T3]. cbv zeta in *. cbn [app].
  rewrite dq_done. unfold assemble. cbn [nth].
  intros HH; apply pair_equal_spec in HH as [HH _]; apply pair_equal_spec in HH as [<- <-]. split; [|left; reflexivity].
  destruct (requantum4 _ _ _ _ R0 R1 R2 R3) as (Q0 & Q1 & Q2 & Q3).
  cbn [Encode app]. rewrite Q0, Q1, Q2, Q3, T0, T1, T2, T3. reflexivity.
Qed.

Lemma byte_is_byte x : is_byte (byte x).
Proof. rewrite byte_mod. unfold is_byte. apply Z.mod_pos_bound. lia. Qed.

Lemma assemble_is_byte enc dbuf dlen rest err :
  Forall is_byte (snd (fst (assemble enc dbuf dlen rest err))).
Proof.
  unfold assemble. destruct dlen as [|[|[|[|[|n]]]]]; cbn [fst snd];
    try destruct (_ && _); cbn [fst snd];
    repeat (apply List.Forall_cons; [apply byte_is_byte|]); apply List.Forall_nil.
Qed.

Lemma afterPadding_is_byte enc j dbuf rest :
  Forall is_byte (snd (fst (afterPadding enc j dbuf rest))).
Proof.
  unfold afterPadding. destruct j as [|[|[|j]]]; cbv zeta; try apply List.Forall_nil.
  - destruct (skipNewlines rest); [apply List.Forall_nil|].
    destruct (negb _); [apply List.Forall_nil|apply assemble_is_byte].
  - apply assemble_is_byte.
Qed.

Lemma decodeQuantum_from_is_byte enc src : forall j dbuf,
  Forall is_byte (snd (fst (decodeQuantum_from enc j dbuf src))).
Proof.
  induction src as [|c rest IH]; intros j dbuf; cbn [decodeQuantum_from];
    destruct (j =? 4)%nat; try apply assemble_is_byte.
  - destruct (j =? 0)%nat; [apply List.Forall_nil|].
    destruct (_ || _); [apply List.Forall_nil|apply assemble_is_byte].
  - cbv zeta. destruct (negb _); [apply IH|].
    destruct (isNewline c); [apply IH|].
    destruct (negb _); [apply List.Forall_nil|apply afterPadding_is_byte].
Qed.

Lemma Decode_loop_is_byte enc fuel : forall src,
  Forall is_byte (fst (Decode_loop fuel enc src)).
Proof.
  induction fuel as [|fuel IH]; intros src; [apply List.Forall_nil|].
  destruct src as [|c rest]; [apply List.Forall_nil|].
  rewrite Decode_loop_cons.
  pose proof (decodeQuantum_from_is_byte enc (c :: rest) 0 []) as Hq.
  fold (decodeQuantum enc (c :: rest)) in Hq.
  destruct (decodeQuantum enc (c :: rest)) as [[r out] [e|]]; cbn [fst snd] in *; [exact Hq|].
  pose proof (IH r) as Hr. destruct (Decode_loop fuel enc r) as [d e]. cbn [fst] in *.
  apply Forall_app. split; assumption.
Qed.

(** The strict decoder only adds error returns. *)
Lemma assemble_strict enc dbuf dlen rest err r out :
  assemble (Strict enc) dbuf dlen rest err = (r, out, None) ->
  assemble enc dbuf dlen rest err = (r, out, None).
Proof.
  unfold assemble. destruct dlen as [|[|[|[|[|n]]]]]; cbn [strict Strict andb]; auto.
  - destruct (negb _ || negb _); [discriminate|]. rewrite andb_false_r. auto.
  - destruct (negb _); [discriminate|]. rewrite andb_false_r. auto.
Qed.

Lemma afterPadding_strict enc j dbuf rest r out :
  afterPadding (Strict enc) j dbuf rest = (r, out, None) ->
  afterPadding enc j dbuf rest = (r, out, None).
Proof.
  unfold afterPadding. destruct j as [|[|[|j]]]; cbv zeta; cbn [padChar Strict]; auto.
  - destruct (skipNewlines rest); auto. destruct (negb _); auto. apply assemble_strict.
  - apply assemble_strict.
Qed.

Lemma decodeQuantum_from_strict enc src : forall j dbuf r out,
  decodeQuantum_from (Strict enc) j dbuf src = (r, out, None) ->
  decodeQuantum_from enc j dbuf src = (r, out, None).
Proof.
  induction src as [|c rest IH]; intros j dbuf r out; cbn [decodeQuantum_from];
    destruct (j =? 4)%nat; try apply assemble_strict; cbn [padChar decodeMap Strict].
  - destruct (j =? 0)%nat; auto. destruct (_ || _); auto. apply assemble_strict.
  - cbv zeta. destruct (negb _); [apply IH|].
    destruct (isNewline c); [apply IH|].
    destruct (negb _); auto. apply afterPadding_strict.
Qed.

Lemma Decode_loop_strict enc fuel : forall src d,
  Decode_loop fuel (Strict enc) src = (d, None) ->
  Decode_loop fuel enc src = (d, None).
Proof.
  induction fuel as [|fuel IH]; intros src d; [auto|].
  destruct src as [|c rest]; [auto|].
  rewrite !Decode_loop_cons.
  destruct (decodeQuantum (Strict enc) (c :: rest)) as [[r out] [e|]] eqn:Hq; [discriminate|].
  apply decodeQuantum_from_strict in Hq. unfold decodeQuantum. rewrite Hq.
  destruct (Decode_loop fuel (Strict enc) r) as [d' e'] eqn:Hd.
  intros HH. apply pair_equal_spec in HH as [<- ->].
  rewrite (IH _ _ Hd). reflexivity.
Qed.

Lemma Encode_Decode_strict : forall fuel src d,
  (length src <= fuel)%nat -> Forall is_byte src -> noNewline src ->
  Decode_loop fuel SURL src = (d, None) ->
  Encode URLEncoding d = src.
Proof.
  induction fuel as [|fuel IH]; intros src d Hlen Hb Hn.
  - destruct src; [|simpl in Hlen; lia]. intros [= <-]. reflexivity.
  - destruct src as [|c rest]; [intros [= <-]; reflexivity|].
    rewrite Decode_loop_cons.
    pose proof (decodeQuantum_length SURL (c :: rest) ltac:(congruence)) as Hl.
    destruct (decodeQuantum SURL (c :: rest)) as [[r out] [e|]] eqn:Hq; [discriminate|].
    cbn [fst] in Hl.
    destruct (dq_strict_inv _ _ _ Hb Hn ltac:(congruence) Hq) as [Hsrc Hcase].
    destruct (Decode_loop fuel SURL r) as [d' e'] eqn:Hd.
    intros HH. apply pair_equal_spec in HH as [<- ->].
    rewrite Hsrc in Hb, Hn. apply Forall_app in Hb as [_ Hb].
    unfold noNewline in Hn. apply Forall_app in Hn as [_ Hn].
    destruct Hcase as [H3|Hnil].
    + rewrite Hsrc. apply IH in Hd; [|simpl in *; lia|assumption|assumption].
      destruct out as [|a [|b [|c' [|? ?]]]]; try discriminate.
      cbn [Encode app]. rewrite Hd. reflexivity.
    + subst r. destruct fuel; cbn [Decode_loop] in Hd;
        apply pair_equal_spec in Hd as [<- _]; rewrite Hsrc, !app_nil_r; reflexivity.
Qed.

Lemma decode_after_encode s : decodeTagValue (encodeTagValue s) = s.
Proof.
  unfold decodeTagValue, encodeTagValue, DecodeString, EncodeToString.
  rewrite bytes_of_bytes by apply Encode_is_byte.
  rewrite Decode_Encode.
  - apply of_bytes_bytes.
  - apply bytes_is_byte.
  - rewrite <- bytes_length, bytes_of_bytes by apply Encode_is_byte. lia.
Qed.

Lemma canonical_is_valid x : canonicalBase64url x -> validBase64url x.
Proof.
  unfold canonicalBase64url, validBase64url, DecodeString. intros [_ Hs].
  destruct (Decode_loop (String.length x) SURL (bytes x)) as [d e] eqn:Hd.
  cbn [snd] in Hs. subst e. rewrite (Decode_loop_strict _ _ _ _ Hd). reflexivity.
Qed.

Lemma encode_after_decode x :
  canonicalBase64url x -> encodeTagValue (decodeTagValue x) = x.
Proof.
  intros [Hn Hs]. unfold decodeTagValue, encodeTagValue, DecodeString, EncodeToString in *.
  destruct (Decode_loop (String.length x) SURL (bytes x)) as [d e] eqn:Hd.
  cbn [snd] in Hs. subst e.
  rewrite (Decode_loop_strict _ _ _ _ Hd).
  pose proof (Decode_loop_is_byte SURL (String.length x) (bytes x)) as Hb.
  rewrite Hd in Hb. cbn [fst] in Hb.
  rewrite bytes_of_bytes by assumption.
  apply Encode_Decode_strict in Hd; [|rewrite bytes_length; lia|apply bytes_is_byte|assumption].
  rewrite Hd. apply of_bytes_bytes.
Qed.

(** C8, amended.  Decoding an encoded value gives the value back, for every
    string of bytes (so for every UTF-8 string).  Encoding a decoded value
    gives the input back for canonical input: input without line breaks
    that the strict decoder accepts; such input is valid base64url. *)
Theorem tag_codec_roundtrip :
  (forall s, decodeTagValue (encodeTagValue s) = s) /\
  (forall x, canonicalBase64url x ->
             validBase64url x /\ encodeTagValue (decodeTagValue x) = x).
Proof.
  split; [exact decode_after_encode|].
  intros x Hx. split; [apply canonical_is_valid|apply encode_after_decode]; exact Hx.
Qed.

(** C8 as stated fails: the decoder accepts input whose last character has
    unused bits set, and the encoder never produces it. *)
Lemma tag_codec_noncanonical :
  validBase64url "QR==" /\ encodeTagValue (decodeTagValue "QR==") <> "QR=="%string.
Proof. split; [reflexivity|]. vm_compute. discriminate. Qed.

Lemma char_tbl c : is_byte c ->
  (index (decodeMap URLEncoding) c =? 255) = negb (base64urlChar c) /\
  (base64urlChar c = true -> isNewline c = false /\ c <> 61).
Proof.
  intros Hc.
  pose (P := fun c =>
     Z.eqb (if index (decodeMap URLEncoding) c =? 255 then 1 else 0)
           (if base64urlChar c then 0 else 1)
     && (negb (base64urlChar c) || (negb (isNewline c) && negb (c =? 61)))).
  assert (H : P c = true).
  { apply (forallb_below P 256); [vm_compute; reflexivity|exact Hc]. }
  unfold P in H. apply andb_prop in H. destruct H as [H1 H2]. split.
  - destruct (index (decodeMap URLEncoding) c =? 255), (base64urlChar c);
      try reflexivity; discriminate.
  - intros Hb. rewrite Hb in H2. cbn in H2. apply andb_prop in H2. destruct H2 as [H2 H3].
    split; [destruct (isNewline c); [discriminate|reflexivity]|].
    intros ->. discriminate.
Qed.

Lemma wn_newline c l : isNewline c = true -> withoutNewlines (c :: l) = withoutNewlines l.
Proof. intros H. unfold withoutNewlines. cbn [List.filter]. rewrite H. reflexivity. Qed.

Lemma wn_other c l : isNewline c = false -> withoutNewlines (c :: l) = c :: withoutNewlines l.
Proof. intros H. unfold withoutNewlines. cbn [List.filter]. rewrite H. reflexivity. Qed.

Lemma skipNewlines_nil src : skipNewlines src = [] -> withoutNewlines src = [].
Proof.
  induction src as [|c r IH]; cbn [skipNewlines]; [reflexivity|].
  destruct (isNewline c) eqn:Hnl0; [|discriminate]. intros H.
  rewrite wn_newline by exact Hnl0. auto.
Qed.

Lemma skipNewlines_cons src c r :
  skipNewlines src = c :: r ->
  isNewline c = false /\ withoutNewlines src = c :: withoutNewlines r /\
  (length r < length src)%nat /\ (Forall is_byte src -> is_byte c /\ Forall is_byte r).
Proof.
  induction src as [|c0 r0 IH]; cbn [skipNewlines]; [discriminate|].
  destruct (isNewline c0) eqn:Hnl0.
  - intros H. destruct (IH H) as (H1 & H2 & H3 & H4). split; [exact H1|].
    split; [rewrite wn_newline by exact Hnl0; exact H2|]. split; [simpl length in *; lia|].
    intros Hb. apply List.Forall_cons_iff in Hb. apply H4, Hb.
  - intros [= -> ->]. split; [exact Hnl0|]. split; [apply wn_other; exact Hnl0|].
    split; [simpl length in *; lia|]. intros Hb. apply List.Forall_cons_iff in Hb. exact Hb.
Qed.

Lemma text_replace j c l : (j <= 3)%nat -> base64urlChar c = true ->
  base64urlText (repeat 65 j ++ c :: l) = base64urlText (repeat 65 (S j) ++ l).
Proof.
  intros Hj Hc.
  assert (Hp : (c =? 61) = false).
  { destruct (Z.eqb_spec c 61) as [->|]; [discriminate|reflexivity]. }
  destruct j as [|[|[|[|j]]]]; [| | | |lia];
    cbn [repeat app]; destruct l as [|x [|y [|z l]]]; cbn [base64urlText];
    change (base64urlChar 65) with true; change (65 =? 61) with false;
    rewrite ?Hc, ?Hp; cbn [andb orb]; reflexivity.
Qed.

Lemma text_quantum c w : base64urlChar c = true ->
  base64urlText (65 :: 65 :: 65 :: c :: w) = base64urlText w.
Proof.
  intros Hc. cbn [base64urlText]. change (base64urlChar 65) with true. rewrite Hc.
  destruct w; reflexivity.
Qed.

Lemma text_bad j c l : (j <= 3)%nat -> base64urlChar c = false -> c <> 61 ->
  base64urlText (repeat 65 j ++ c :: l) = false.
Proof.
  intros Hj Hc Hp. apply Z.eqb_neq in Hp.
  destruct j as [|[|[|[|j]]]]; [| | | |lia];
    cbn [repeat app]; destruct l as [|x [|y [|z l]]]; cbn [base64urlText];
    change (base64urlChar 65) with true; rewrite ?Hc, ?Hp; cbn [andb orb];
    rewrite ?andb_false_r; reflexivity.
Qed.

Lemma text_pad01 j l : (j <= 1)%nat -> base64urlText (repeat 65 j ++ 61 :: l) = false.
Proof.
  intros Hj. destruct j as [|[|j]]; [| |lia];
    cbn [repeat app]; destruct l as [|x [|y [|z l]]]; cbn [base64urlText];
    change (base64urlChar 65) with true; change (base64urlChar 61) with false;
    cbn [andb orb]; reflexivity.
Qed.

Lemma text_pad2 l :
  base64urlText (65 :: 65 :: 61 :: l) = match l with [c] => c =? 61 | _ => false end.
Proof.
  destruct l as [|x [|y l]]; cbn [base64urlText]; change (base64urlChar 65) with true;
    change (base64urlChar 61) with false; cbn [andb orb]; reflexivity.
Qed.

Lemma text_pad3 l :
  base64urlText (65 :: 65 :: 65 :: 61 :: l) = match l with [] => true | _ => false end.
Proof.
  destruct l as [|x l]; cbn [base64urlText]; change (base64urlChar 65) with true;
    change (base64urlChar 61) with false; cbn [andb orb]; reflexivity.
Qed.

Lemma text_short j : (1 <= j <= 3)%nat -> base64urlText (repeat 65 j) = false.
Proof. intros Hj. destruct j as [|[|[|[|j]]]]; try lia; reflexivity. Qed.

Lemma dq_newline enc j dbuf c rest : j <> 4%nat -> index (decodeMap enc) c = 255 ->
  isNewline c = true ->
  decodeQuantum_from enc j dbuf (c :: rest) = decodeQuantum_from enc j dbuf rest.
Proof.
  intros Hj Hv Hn. cbn [decodeQuantum_from]. apply Nat.eqb_neq in Hj. rewrite Hj. cbv zeta.
  rewrite Hv, Hn. cbn. destruct rest; rewrite ?Hj; reflexivity.
Qed.

Lemma accepted_step src : src <> [] ->
  accepted (Decode_loop (length src) URLEncoding src) = acceptedFrom 0 [] src.
Proof.
  intros Hne. destruct src as [|c rest]; [contradiction|]. cbn [length].
  rewrite Decode_loop_cons. unfold acceptedFrom. fold (decodeQuantum URLEncoding (c :: rest)).
  pose proof (decodeQuantum_length URLEncoding (c :: rest) Hne) as Hlen.
  destruct (decodeQuantum URLEncoding (c :: rest)) as [[r out] [e|]]; [reflexivity|].
  cbn [fst length] in Hlen. rewrite (Decode_loop_fuel URLEncoding (length rest) r) by lia.
  destruct (Decode_loop (length r) URLEncoding r) as [d e]. reflexivity.
Qed.

Lemma accepted_nil : accepted (Decode_loop 0 URLEncoding []) = true.
Proof. reflexivity. Qed.

Lemma afterPadding_text j dbuf rest : (j <= 3)%nat -> Forall is_byte rest ->
  match afterPadding URLEncoding j dbuf rest with
  | (_, _, Some _) => false
  | (r, _, None) => accepted (Decode_loop (length r) URLEncoding r)
  end = base64urlText (repeat 65 j ++ 61 :: withoutNewlines rest).
Proof.
  intros Hj Hb. unfold afterPadding.
  assert (Hfinish : forall r dbuf' j',
    (j' = 2 \/ j' = 3)%nat ->
    match assemble URLEncoding dbuf' j' (skipNewlines r)
            (match skipNewlines r with [] => None | _ => Some Corrupt end) with
    | (_, _, Some _) => false
    | (r0, _, None) => accepted (Decode_loop (length r0) URLEncoding r0)
    end = match withoutNewlines r with [] => true | _ => false end).
  { intros r dbuf' j' Hj'.
    destruct (skipNewlines r) as [|c0 r0] eqn:Hsk.
    - rewrite (skipNewlines_nil _ Hsk).
      destruct Hj' as [-> | ->]; reflexivity.
    - destruct (skipNewlines_cons _ _ _ Hsk) as (_ & -> & _).
      destruct Hj' as [-> | ->]; reflexivity. }
  destruct j as [|[|[|[|j]]]]; [| | | |lia]; cbv zeta.
  - rewrite (text_pad01 0) by lia. reflexivity.
  - rewrite (text_pad01 1) by lia. reflexivity.
  - cbn [repeat app]. rewrite text_pad2.
    destruct (skipNewlines rest) as [|c r] eqn:Hsk.
    + rewrite (skipNewlines_nil _ Hsk). reflexivity.
    + destruct (skipNewlines_cons _ _ _ Hsk) as (Hn & -> & _).
      case_bool_decide as Hp; cbn [negb].
      * injection Hp as <-. rewrite (Hfinish r dbuf 2%nat) by auto.
        destruct (withoutNewlines r); reflexivity.
      * destruct (Z.eqb_spec c 61) as [->|Hne]; [exfalso; apply Hp; reflexivity|].
        destruct (withoutNewlines r) as [|? ?]; reflexivity.
  - cbn [repeat app]. rewrite text_pad3. apply (Hfinish rest dbuf 3%nat). auto.
Qed.

Lemma acceptedFrom_text : forall n src, (length src <= n)%nat -> Forall is_byte src ->
  forall j dbuf, (j <= 3)%nat ->
  acceptedFrom j dbuf src = base64urlText (repeat 65 j ++ withoutNewlines src).
Proof.
  induction n as [|n IH]; intros src Hlen Hb j dbuf Hj.
  - destruct src; [|simpl in Hlen; lia]. unfold acceptedFrom. cbn [decodeQuantum_from].
    destruct j as [|[|[|[|j]]]]; [| | | |lia]; reflexivity.
  - destruct src as [|c rest].
    { unfold acceptedFrom. cbn [decodeQuantum_from].
      destruct j as [|[|[|[|j]]]]; [| | | |lia]; reflexivity. }
    apply List.Forall_cons_iff in Hb. destruct Hb as [Hc Hb].
    cbn [length] in Hlen.
    assert (Hj4 : j <> 4%nat) by lia.
    destruct (char_tbl c Hc) as [Htbl Hchar].
    destruct (base64urlChar c) eqn:Hcc; cbn [negb] in Htbl.
    + (* a character of the alphabet *)
      destruct (Hchar eq_refl) as [Hnl Hnp].
      apply Z.eqb_neq in Htbl. unfold acceptedFrom. rewrite dq_valid by assumption.
      rewrite wn_other by exact Hnl. rewrite text_replace by assumption.
      destruct (Nat.eq_dec j 3%nat) as [->|Hj3].
      * rewrite dq_done. unfold assemble. cbn [strict URLEncoding NewEncoding andb].
        cbn [repeat app]. rewrite text_quantum by reflexivity.
        destruct rest as [|c' rest']; [reflexivity|].
        rewrite accepted_step by discriminate.
        rewrite (IH (c' :: rest')) by (assumption || lia). reflexivity.
      * apply (IH rest); [lia|assumption|lia].
    + apply Z.eqb_eq in Htbl. destruct (isNewline c) eqn:Hnl.
      * unfold acceptedFrom. rewrite dq_newline by assumption.
        rewrite wn_newline by exact Hnl. apply (IH rest); [lia|assumption|lia].
      * unfold acceptedFrom. rewrite dq_invalid by assumption.
        rewrite wn_other by exact Hnl.
        case_bool_decide as Hp; cbn [negb].
        -- injection Hp as <-. apply afterPadding_text; assumption.
        -- rewrite text_bad; [reflexivity|assumption|assumption|].
           intros ->. apply Hp. reflexivity.
Qed.

Lemma accepted_text src : Forall is_byte src ->
  accepted (Decode_loop (length src) URLEncoding src) = base64urlText (withoutNewlines src).
Proof.
  intros Hb. destruct src as [|c rest]; [reflexivity|].
  rewrite accepted_step by discriminate.
  rewrite (acceptedFrom_text (length (c :: rest))) by (assumption || lia).
  reflexivity.
Qed.

Lemma validBase64url_text x :
  validBase64url x <-> base64urlText (withoutNewlines (bytes x)) = true.
Proof.
  unfold validBase64url, DecodeString. rewrite <- accepted_text by apply bytes_is_byte.
  rewrite bytes_length. unfold accepted.
  destruct (snd (Decode_loop (String.length x) URLEncoding (bytes x))); split;
    congruence.
Qed.

Lemma assemble_out enc dbuf dlen rest err r out e :
  assemble enc dbuf dlen rest err = (r, out, e) ->
  r = rest /\ (length out <= dlen - 1)%nat.
Proof.
  unfold assemble. destruct dlen as [|[|[|[|[|n]]]]]; cbv zeta;
    repeat match goal with |- context [if ?b then _ else _] => destruct b end;
    intros [= <- <- <-]; cbn [length]; split; (reflexivity || lia).
Qed.

Lemma afterPadding_out enc j dbuf rest r out :
  (j <= 3)%nat -> afterPadding enc j dbuf rest = (r, out, None) ->
  (length out + length r + 1 <= length rest + 1 + j)%nat.
Proof.
  intros Hj. unfold afterPadding. destruct j as [|[|[|[|j]]]]; [| | | |lia]; cbv zeta;
    try discriminate.
  - destruct (skipNewlines rest) as [|c r0] eqn:Hsk; [discriminate|].
    destruct (negb _); [discriminate|]. intros H. apply assemble_out in H.
    destruct H as [-> H].
    pose proof (skipNewlines_length r0). pose proof (skipNewlines_length rest) as H1.
    rewrite Hsk in H1. cbn [length] in H1. lia.
  - intros H. apply assemble_out in H. destruct H as [-> H].
    pose proof (skipNewlines_length rest). lia.
Qed.

Lemma decodeQuantum_from_out enc src : forall j dbuf r out,
  (j <= 4)%nat -> decodeQuantum_from enc j dbuf src = (r, out, None) ->
  (length out + length r + 1 <= length src + j)%nat \/ out = [].
Proof.
  induction src as [|c rest IH]; intros j dbuf r out Hj.
  - cbn [decodeQuantum_from]. destruct (Nat.eqb_spec j 4) as [->|Hj4].
    + intros H. apply assemble_out in H. destruct H as [-> H]. left. cbn [length] in *. lia.
    + destruct (Nat.eqb_spec j 0); [intros [= <- <-]; right; reflexivity|].
      destruct (_ || _); [discriminate|].
      intros H. apply assemble_out in H. destruct H as [-> H]. left. cbn [length]. lia.
  - cbn [decodeQuantum_from]. destruct (Nat.eqb_spec j 4) as [->|Hj4].
    + intros H. apply assemble_out in H. destruct H as [-> H]. left. lia.
    + cbv zeta. destruct (negb (index (decodeMap enc) c =? 255)).
      * intros H. apply IH in H; [|lia]. cbn [length]. destruct H; [left; lia|right; assumption].
      * destruct (isNewline c).
        -- intros H. apply IH in H; [|lia]. cbn [length].
           destruct H; [left; lia|right; assumption].
        -- destruct (negb (bool_decide _)); [discriminate|].
           intros H. apply afterPadding_out in H; [|lia]. left. cbn [length]. lia.
Qed.

Lemma Decode_loop_shorter enc : forall fuel src d,
  Decode_loop fuel enc src = (d, None) ->
  (length d <= length src)%nat /\ (src <> [] -> (length d < length src)%nat).
Proof.
  induction fuel as [|fuel IH]; intros src d.
  - cbn [Decode_loop]. intros [= <-]. cbn [length].
    split; [lia|]. destruct src; [contradiction|cbn [length]; lia].
  - destruct src as [|c rest]; [intros [= <-]; cbn [length]; split; [lia|contradiction]|].
    rewrite Decode_loop_cons.
    pose proof (decodeQuantum_length enc (c :: rest) ltac:(discriminate)) as Hlen.
    pose proof (decodeQuantum_from_out enc (c :: rest) 0 []) as Hout.
    fold (decodeQuantum enc (c :: rest)) in Hout.
    destruct (decodeQuantum enc (c :: rest)) as [[r out] [e|]]; [discriminate|].
    specialize (Hout r out ltac:(lia) eq_refl). cbn [fst] in Hlen.
    destruct (Decode_loop fuel enc r) as [d' e'] eqn:Hd. intros [= <- ->].
    destruct (IH _ _ Hd) as [Hle _]. rewrite length_app.
    assert ((length out + length d' < length (c :: rest))%nat).
    { destruct Hout as [Hout | ->]; [lia|cbn [length] in *; lia]. }
    split; [lia|intros _; lia].
Qed.

Lemma of_bytes_length d : String.length (of_bytes d) = length d.
Proof. unfold of_bytes. induction d as [|b d IH]; [reflexivity|]. cbn. rewrite IH. reflexivity. Qed.

(** C10, amended.  [decodeTagValue] returns its input unchanged exactly when
    the input, its carriage returns and line feeds left out, is not
    base64url text with padding (or when the input is empty); input that
    is such text is decoded, line breaks or not. *)
Theorem decodeTagValue_fallback x :
  (decodeTagValue x = x <->
   base64urlText (withoutNewlines (bytes x)) = false \/ x = ""%string) /\
  (base64urlText (withoutNewlines (bytes x)) = true ->
   exists d, DecodeString URLEncoding x = (d, None) /\ decodeTagValue x = of_bytes d).
Proof.
  pose proof (accepted_text (bytes x) (bytes_is_byte x)) as Hacc.
  rewrite bytes_length in Hacc. unfold accepted in Hacc.
  unfold decodeTagValue, DecodeString.
  destruct (Decode_loop (String.length x) URLEncoding (bytes x)) as [d [e|]] eqn:Hd;
    cbn [snd] in Hacc; rewrite <- Hacc.
  - split; [split; [intros _; left; reflexivity|reflexivity]|discriminate].
  - split; [|intros _; exists d; split; reflexivity]. split.
    + intros H. right. destruct x as [|a x]; [reflexivity|exfalso].
      apply Decode_loop_shorter in Hd. destruct Hd as [_ Hd].
      pose proof (f_equal String.length H) as Hl.
      rewrite of_bytes_length, <- bytes_length in Hl.
      assert (Hne : bytes (String a x) <> []) by (unfold bytes; cbn; discriminate).
      specialize (Hd Hne). lia.
    + intros [H | ->]; [discriminate|]. cbn in Hd. injection Hd as <-. reflexivity.
Qed.

(** C10 as stated fails for input with a line break: the tag value of [A]
    followed by a line feed is not base64url (the line feed is no
    character of the alphabet), yet it is decoded and [A] is returned, not
    the input. *)
Lemma decodeTagValue_decodes_line_break :
  base64urlText (bytes paddedWithNewline) = false /\
  decodeTagValue paddedWithNewline = "A"%string /\
  decodeTagValue paddedWithNewline <> paddedWithNewline.
Proof.
  split; [vm_compute; reflexivity|].
  assert (H : decodeTagValue paddedWithNewline = "A"%string) by (vm_compute; reflexivity).
  split; [exact H|]. rewrite H. vm_compute. discriminate.
Qed.

Lemma decodeTagValue_fallback_witness :
  base64urlText (withoutNewlines (bytes "not base64")) = false /\
  decodeTagValue "not base64" = "not base64"%string.
Proof.
  assert (H : base64urlText (withoutNewlines (bytes "not base64")) = false)
    by (vm_compute; reflexivity).
  split; [exact H|].
  exact (proj2 (proj1 (decodeTagValue_fallback "not base64")) (or_introl H)).
Defined.

End base64_facts.

(** * Shell patterns: errors and rounds *)

Section path_facts.
Import path.
#[local] Open Scope string_scope.

Lemma drop_length n s : String.length (drop n s) = (String.length s - n)%nat.
Proof.
  revert s. induction n as [|n IH]; intros s; destruct s; cbn [drop String.length];
    auto; lia.
Qed.

Lemma DecodeRuneInString_size s : s <> "" ->
  (1 <= snd (utf8.DecodeRuneInString s) <= 4)%nat.
Proof.
  intros Hne. unfold utf8.DecodeRuneInString.
  destruct s as [|c s]; [contradiction|]. cbn [bytes list_ascii_of_string map].
  repeat match goal with
  | |- context [match ?x with _ => _ end] => destruct x; cbn [snd]; try lia
  | |- context [if ?x then _ else _] => destruct x; cbn [snd]; try lia
  end.
Qed.

Lemma getEsc_shorter chunk r nchunk :
  getEsc chunk = Some (r, nchunk) ->
  (0 < String.length nchunk < String.length chunk)%nat.
Proof.
  unfold getEsc. destruct chunk as [|c tl]; [discriminate|].
  destruct (isChar c "-" || isChar c "]"); [discriminate|].
  set (chunk1 := if Ascii.eqb c backslash then tl else String c tl).
  assert (Hlen : (String.length chunk1 <= String.length (String c tl))%nat).
  { subst chunk1. destruct (Ascii.eqb c backslash); cbn [String.length]; lia. }
  cbv zeta.
  destruct (String.length chunk1 =? 0)%nat eqn:E0; [discriminate|].
  assert (Hne : chunk1 <> "") by (intros E; rewrite E in E0; discriminate).
  pose proof (DecodeRuneInString_size chunk1 Hne) as Hsz.
  destruct (utf8.DecodeRuneInString chunk1) as [r0 n]. cbn [snd] in Hsz.
  destruct (_ || (String.length (drop n chunk1) =? 0)%nat) eqn:Ebad; [discriminate|].
  intros [= <- <-]. apply orb_false_elim in Ebad as [_ Ebad].
  apply Nat.eqb_neq in Ebad. rewrite drop_length in *. lia.
Qed.

(** The parse of a class does not depend on the rune it is matched against,
    but for the flag it returns. *)
Lemma parseRanges_chunk fuel : forall r m r' m' n chunk,
  option_map snd (parseRanges fuel r m n chunk)
  = option_map snd (parseRanges fuel r' m' n chunk).
Proof.
  induction fuel as [|fuel IH]; intros r m r' m' n chunk; [reflexivity|].
  cbn [parseRanges].
  destruct (match chunk with
            | "" => None
            | String c tl => if isChar c "]" && (0 <? n)%nat then Some tl else None
            end); [reflexivity|].
  destruct (getEsc chunk) as [[lo chunk1]|]; [|reflexivity].
  destruct chunk1 as [|c tl]; [reflexivity|].
  destruct (isChar c "-").
  - destruct (getEsc tl) as [[hi chunk2]|]; [|reflexivity]. apply IH.
  - apply IH.
Qed.

Lemma parseRanges_shorter fuel : forall r m n chunk res chunk',
  parseRanges fuel r m n chunk = Some (res, chunk') ->
  (String.length chunk' < String.length chunk)%nat.
Proof.
  induction fuel as [|fuel IH]; intros r m n chunk res chunk'; [discriminate|].
  cbn [parseRanges].
  destruct chunk as [|c0 tl0] eqn:Hchunk.
  { cbn [getEsc]. discriminate. }
  rewrite <- Hchunk.
  destruct (isChar c0 "]" && (0 <? n)%nat).
  { intros [= <- <-]. rewrite Hchunk. cbn [String.length]. lia. }
  destruct (getEsc chunk) as [[lo chunk1]|] eqn:He; [|discriminate].
  apply getEsc_shorter in He.
  destruct chunk1 as [|c tl]; [discriminate|].
  destruct (isChar c "-").
  - destruct (getEsc tl) as [[hi chunk2]|] eqn:He2; [|discriminate].
    apply getEsc_shorter in He2. intros H. apply IH in H.
    cbn [String.length] in *. lia.
  - intros H. apply IH in H. lia.
Qed.

(** Fuel above the length of the chunk is never used up. *)
Lemma parseRanges_fuel fuel : forall r m n chunk,
  (String.length chunk < fuel)%nat ->
  parseRanges fuel r m n chunk = parseRanges (S (String.length chunk)) r m n chunk.
Proof.
  induction fuel as [fuel IH] using lt_wf_ind. intros r m n chunk Hlen.
  destruct fuel as [|fuel]; [lia|]. cbn [parseRanges].
  destruct (match chunk with
            | "" => None
            | String c tl => if isChar c "]" && (0 <? n)%nat then Some tl else None
            end); [reflexivity|].
  destruct (getEsc chunk) as [[lo chunk1]|] eqn:He; [|reflexivity].
  apply getEsc_shorter in He.
  destruct chunk1 as [|c tl] eqn:Hc1; [reflexivity|]. rewrite <- Hc1 in *.
  destruct (isChar c "-").
  - destruct (getEsc tl) as [[hi chunk2]|] eqn:He2; [|reflexivity].
    apply getEsc_shorter in He2.
    assert (String.length tl < String.length chunk1)%nat by (rewrite Hc1; cbn [String.length]; lia).
    rewrite (IH fuel) by lia. rewrite (IH (String.length chunk)) by lia. reflexivity.
  - rewrite (IH fuel) by lia. rewrite (IH (String.length chunk)) by lia. reflexivity.
Qed.

(** Whether [matchChunk] reports [ErrBadPattern] depends on the chunk only. *)
Lemma matchChunk_loop_error fuel : forall failed s failed' s' chunk,
  matchChunk_loop fuel failed chunk s = None <->
  matchChunk_loop fuel failed' chunk s' = None.
Proof.
  induction fuel as [|fuel IH]; intros failed s failed' s' chunk.
  - cbn [matchChunk_loop]. destruct chunk, failed, failed'; split; discriminate.
  - destruct chunk as [|c tl].
    { cbn [matchChunk_loop]. destruct failed, failed'; split; discriminate. }
    cbn [matchChunk_loop]. cbv zeta.
    destruct (isChar c "[").
    + destruct (if failed || (String.length s =? 0)%nat then (0%Z, s)
                else let '(r, n) := utf8.DecodeRuneInString s in (r, drop n s)) as [r s1].
      destruct (if failed' || (String.length s' =? 0)%nat then (0%Z, s')
                else let '(r, n) := utf8.DecodeRuneInString s' in (r, drop n s')) as [r' s1'].
      destruct (match tl with
                | "" => (false, tl)
                | String c1 tl1 => if isChar c1 "^" then (true, tl1) else (false, tl)
                end) as [negated chunk1].
      pose proof (parseRanges_chunk (S (String.length chunk1)) r false r' false 0 chunk1) as Hp.
      destruct (parseRanges (S (String.length chunk1)) r false 0 chunk1) as [[m chunk2]|];
        destruct (parseRanges (S (String.length chunk1)) r' false 0 chunk1) as [[m' chunk2']|];
        cbn [option_map snd] in Hp; try discriminate; [|tauto].
      injection Hp as <-. apply IH.
    + destruct (isChar c "?").
      * destruct (if failed || (String.length s =? 0)%nat then _ else _) as [f1 s1].
        destruct (if failed' || (String.length s' =? 0)%nat then _ else _) as [f1' s1'].
        apply IH.
      * destruct (Ascii.eqb c backslash).
        -- destruct tl as [|l tl0]; [tauto|].
           destruct (if failed || (String.length s =? 0)%nat then _ else _) as [f1 s1].
           destruct (if failed' || (String.length s' =? 0)%nat then _ else _) as [f1' s1'].
           apply IH.
        -- destruct (if failed || (String.length s =? 0)%nat then _ else _) as [f1 s1].
           destruct (if failed' || (String.length s' =? 0)%nat then _ else _) as [f1' s1'].
           apply IH.
Qed.

Lemma matchChunk_error chunk s s' : matchChunk chunk s = None <-> matchChunk chunk s' = None.
Proof. apply matchChunk_loop_error. Qed.

(** [len(chunk)] rounds are enough for [matchChunk]. *)
Lemma matchChunk_loop_fuel fuel : forall failed chunk s,
  (String.length chunk <= fuel)%nat ->
  matchChunk_loop fuel failed chunk s = matchChunk_loop (String.length chunk) failed chunk s.
Proof.
  induction fuel as [fuel IH] using lt_wf_ind. intros failed chunk s Hlen.
  destruct chunk as [|c tl]; [destruct fuel; reflexivity|].
  destruct fuel as [|fuel]; [cbn [String.length] in Hlen; lia|].
  cbn [String.length] in *. cbn [matchChunk_loop]. cbv zeta.
  destruct (isChar c "[").
  - destruct (if failed || (String.length s =? 0)%nat then (0%Z, s)
              else let '(r, n) := utf8.DecodeRuneInString s in (r, drop n s)) as [r s1].
    assert (Hneg : (String.length (snd (match tl with
                | "" => (false, tl)
                | String c1 tl1 => if isChar c1 "^" then (true, tl1) else (false, tl)
                end)) <= String.length tl)%nat).
    { destruct tl as [|c1 tl1]; [cbn; lia|]. destruct (isChar c1 "^"); cbn; lia. }
    destruct (match tl with
              | "" => (false, tl)
              | String c1 tl1 => if isChar c1 "^" then (true, tl1) else (false, tl)
              end) as [negated chunk1]. cbn [snd] in Hneg.
    destruct (parseRanges (S (String.length chunk1)) r false 0 chunk1) as [[m chunk2]|] eqn:Hp;
      [|reflexivity].
    apply parseRanges_shorter in Hp.
    rewrite (IH fuel) by lia. rewrite (IH (String.length tl)) by lia. reflexivity.
  - destruct (isChar c "?").
    + destruct (if failed || (String.length s =? 0)%nat then _ else _) as [f1 s1].
      rewrite (IH fuel) by lia. reflexivity.
    + destruct (Ascii.eqb c backslash).
      * destruct tl as [|l tl0]; [reflexivity|].
        destruct (if failed || (String.length s =? 0)%nat then _ else _) as [f1 s1].
        cbn [String.length] in *.
        rewrite (IH fuel) by lia. rewrite (IH (S (String.length tl0))) by lia. reflexivity.
      * destruct (if failed || (String.length s =? 0)%nat then _ else _) as [f1 s1].
        rewrite (IH fuel) by lia. reflexivity.
Qed.

Lemma skipStars_spec pattern :
  let '(star, p) := skipStars pattern in
  (String.length p <= String.length pattern)%nat /\
  (star = true -> (String.length p < String.length pattern)%nat) /\
  (star = false -> p = pattern) /\
  match p with String c _ => isChar c "*" = false | EmptyString => True end.
Proof.
  induction pattern as [|c rest IH]; cbn [skipStars].
  - repeat split; auto; discriminate.
  - destruct (isChar c "*") eqn:Hc.
    + destruct (skipStars rest) as [star p]. cbn [snd String.length].
      destruct IH as (H1 & _ & _ & H4). repeat split; auto; try lia; discriminate.
    + repeat split; auto; discriminate.
Qed.

Lemma scan_length_le n : forall pattern inrange,
  (String.length pattern <= n)%nat ->
  let '(chunk, rest) := scan inrange pattern in
  (String.length chunk + String.length rest = String.length pattern)%nat.
Proof.
  induction n as [|n IH]; intros pattern inrange Hn;
    (destruct pattern as [|c rest]; [reflexivity|]); cbn [String.length] in Hn; [lia|].
  cbn [scan].
  destruct (Ascii.eqb c backslash).
  - destruct rest as [|c1 rest1]; [reflexivity|]. cbn [String.length] in Hn.
    specialize (IH rest1 inrange ltac:(lia)).
    destruct (scan inrange rest1) as [chunk r]. cbn [String.length]. lia.
  - destruct (isChar c "[").
    + specialize (IH rest true ltac:(lia)).
      destruct (scan true rest) as [chunk r]. cbn [String.length]. lia.
    + destruct (isChar c "]").
      * specialize (IH rest false ltac:(lia)). destruct (scan false rest) as [chunk r].
        cbn [String.length]. lia.
      * destruct (isChar c "*" && negb inrange); [reflexivity|].
        specialize (IH rest inrange ltac:(lia)). destruct (scan inrange rest) as [chunk r].
        cbn [String.length]. lia.
Qed.

Lemma scan_length pattern inrange :
  let '(chunk, rest) := scan inrange pattern in
  (String.length chunk + String.length rest = String.length pattern)%nat.
Proof. apply (scan_length_le (String.length pattern)). lia. Qed.

Lemma scan_nonempty c rest :
  isChar c "*" = false -> fst (scan false (String c rest)) <> "".
Proof.
  intros Hc. cbn [scan]. rewrite Hc. cbn [andb].
  destruct (Ascii.eqb c backslash).
  - destruct rest as [|c1 rest1]; [discriminate|].
    destruct (scan false rest1); discriminate.
  - destruct (isChar c "["); [destruct (scan true rest); discriminate|].
    destruct (isChar c "]"); destruct (scan false rest); discriminate.
Qed.

(** A round of [Match] shortens the pattern, and an empty chunk ends it. *)
Lemma scanChunk_spec pattern star chunk rest :
  pattern <> "" -> scanChunk pattern = (star, chunk, rest) ->
  (String.length rest < String.length pattern)%nat /\ (chunk = "" -> rest = "").
Proof.
  intros Hne. unfold scanChunk.
  pose proof (skipStars_spec pattern) as Hs.
  destruct (skipStars pattern) as [star0 p]. destruct Hs as (H1 & H2 & H3 & H4).
  pose proof (scan_length p false) as Hl.
  destruct (scan false p) as [chunk0 rest0] eqn:Hscan.
  intros [= <- <- <-].
  destruct p as [|c p'].
  - cbn in Hscan. injection Hscan as <- <-. split; [|reflexivity].
    destruct star0; [apply H2; reflexivity|]. rewrite <- H3 in Hne by reflexivity. contradiction.
  - pose proof (scan_nonempty c p' H4) as Hc. rewrite Hscan in Hc. cbn [fst] in Hc.
    split; [|contradiction].
    destruct chunk0; [contradiction|]. cbn [String.length] in *. lia.
Qed.

Lemma checkRest_fuel fuel : forall pattern,
  (String.length pattern <= fuel)%nat ->
  checkRest fuel pattern = checkRest (String.length pattern) pattern.
Proof.
  induction fuel as [fuel IH] using lt_wf_ind. intros pattern Hlen.
  destruct pattern as [|c p]; [destruct fuel; reflexivity|].
  destruct fuel as [|fuel]; [cbn [String.length] in Hlen; lia|].
  cbn [String.length] in *. cbn [checkRest].
  destruct (scanChunk (String c p)) as [[star chunk] rest] eqn:Hsc.
  apply scanChunk_spec in Hsc as [Hlt _]; [|discriminate]. cbn [String.length] in Hlt.
  destruct (matchChunk chunk ""); [|reflexivity].
  rewrite (IH fuel) by lia. rewrite (IH (String.length p)) by lia. reflexivity.
Qed.

Lemma starLoop_error chunk last name :
  starLoop chunk last name = starError -> matchChunk chunk "" = None.
Proof.
  induction name as [|c name IH]; cbn [starLoop]; [discriminate|].
  destruct (isChar c "/"); [discriminate|].
  destruct (matchChunk chunk name) as [[t|]|] eqn:Hm.
  - destruct (last && _); [exact IH|discriminate].
  - exact IH.
  - intros _. apply (matchChunk_error chunk name ""). exact Hm.
Qed.

(** [Match] reports [ErrBadPattern] exactly when the check of the chunks of
    the pattern does, whatever the name. *)
Lemma Match_loop_error fuel : forall pattern name,
  (String.length pattern <= fuel)%nat ->
  (Match_loop fuel pattern name = None <-> checkRest fuel pattern = None).
Proof.
  induction fuel as [|fuel IH]; intros pattern name Hlen.
  - cbn. destruct pattern; split; discriminate.
  - destruct pattern as [|c p]; [cbn; split; discriminate|].
    cbn [Match_loop checkRest].
    destruct (scanChunk (String c p)) as [[star chunk] rest] eqn:Hsc.
    apply scanChunk_spec in Hsc as [Hlt Hempty]; [|discriminate].
    cbn [String.length] in Hlen, Hlt.
    assert (Hrest : forall t, Match_loop fuel rest t = None <-> checkRest fuel rest = None)
      by (intros; apply IH; lia).
    destruct (star && (String.length chunk =? 0)%nat) eqn:Hstar.
    { apply andb_prop in Hstar as [_ Hc]. apply Nat.eqb_eq in Hc.
      destruct chunk; [|discriminate]. rewrite (Hempty eq_refl).
      cbn. destruct fuel; split; discriminate. }
    cbv zeta.
    assert (HorElse : matchChunk chunk "" <> None ->
      (match (if star then starLoop chunk (String.length rest =? 0)%nat name else starNone) with
       | starError => None
       | starFound t => Match_loop fuel rest t
       | starNone => checkRest (String.length rest) rest
       end = None <-> checkRest fuel rest = None)).
    { intros Hok.
      destruct (if star then starLoop chunk (String.length rest =? 0)%nat name else starNone)
        eqn:Hst.
      - destruct star; [|discriminate]. apply starLoop_error in Hst. contradiction.
      - apply Hrest.
      - rewrite (checkRest_fuel fuel rest) by lia. reflexivity. }
    destruct (matchChunk chunk name) as [[t|]|] eqn:Hm.
    + assert (Hok : matchChunk chunk "" <> None).
      { intros E. apply (matchChunk_error chunk "" name) in E. congruence. }
      destruct (matchChunk chunk "") eqn:Hm0; [|contradiction].
      destruct ((String.length t =? 0)%nat || (0 <? String.length rest)%nat).
      * apply Hrest.
      * apply HorElse. discriminate.
    + assert (Hok : matchChunk chunk "" <> None).
      { intros E. apply (matchChunk_error chunk "" name) in E. congruence. }
      destruct (matchChunk chunk "") eqn:Hm0; [|contradiction].
      apply HorElse. discriminate.
    + apply (matchChunk_error chunk name "") in Hm. rewrite Hm. tauto.
Qed.

(** The error of [Match] is a property of the pattern alone. *)
Lemma Match_error pattern name name' :
  Match pattern name = None <-> Match pattern name' = None.
Proof.
  unfold Match. rewrite !Match_loop_error by lia. reflexivity.
Qed.

(** [len(pattern)] rounds are enough for [Match]. *)
Lemma Match_loop_fuel fuel : forall pattern name,
  (String.length pattern <= fuel)%nat ->
  Match_loop fuel pattern name = Match_loop (String.length pattern) pattern name.
Proof.
  induction fuel as [fuel IH] using lt_wf_ind. intros pattern name Hlen.
  destruct pattern as [|c p]; [destruct fuel; reflexivity|].
  destruct fuel as [|fuel]; [cbn [String.length] in Hlen; lia|].
  cbn [String.length] in *. cbn [Match_loop].
  destruct (scanChunk (String c p)) as [[star chunk] rest] eqn:Hsc.
  apply scanChunk_spec in Hsc as [Hlt _]; [|discriminate]. cbn [String.length] in Hlt.
  assert (Hrest : forall t, Match_loop fuel rest t = Match_loop (String.length p) rest t).
  { intros t. rewrite (IH fuel) by lia. rewrite (IH (String.length p)) by lia. reflexivity. }
  destruct (star && _); [reflexivity|]. cbv zeta.
  destruct (matchChunk chunk name) as [[t|]|]; [| |reflexivity].
  - destruct (_ || _); [apply Hrest|].
    destruct (if star then _ else _); [reflexivity|apply Hrest|reflexivity].
  - destruct (if star then _ else _); [reflexivity|apply Hrest|reflexivity].
Qed.

End path_facts.

(** * Subdomain validation *)

Section regexp_facts.
Import regexp.
#[local] Open Scope string_scope.

Lemma run_Concat r1 r2 st x :
  In x (run (Concat r1 r2) st) <-> exists y, In y (run r1 st) /\ In x (run r2 y).
Proof. cbn [run]. apply List.in_flat_map. Qed.

Lemma run_CharClass ranges b s x :
  In x (run (CharClass ranges) (b, s)) <->
  exists c, s = String c (snd x) /\ inClass ranges c = true /\ fst x = false.
Proof.
  cbn [run snd]. destruct s as [|c s'].
  - split; [intros []|intros (c & H & _); discriminate].
  - destruct (inClass ranges c) eqn:E.
    + split.
      * intros [<-|[]]. exists c. auto.
      * intros (c' & [= -> ->] & _ & Hf). destruct x as [b' s'']. simpl in *. subst. left. reflexivity.
    + split; [intros []|]. intros (c' & [= -> ->] & Hc & _). congruence.
Qed.

(** All the strings of at most [n] characters of a class that start [s]. *)
Lemma run_Repeat_class ranges n : forall b s x,
  In x (run (Repeat (CharClass ranges) 0 n) (b, s)) <->
  exists pre, s = pre ++ snd x /\ (String.length pre <= n)%nat /\
    (forall c, In c (list_ascii_of_string pre) -> inClass ranges c = true) /\
    fst x = match pre with EmptyString => b | _ => false end.
Proof.
  induction n as [|n IH]; intros b s x.
  - cbn [run]. split.
    + intros [<-|[]]. exists "". cbn. repeat split; auto; try (intros c []).
    + intros (pre & Hs & Hl & _ & Hb). destruct pre; [|simpl in Hl; lia].
      left. destruct x; simpl in *; subst; reflexivity.
  - change (run (Repeat (CharClass ranges) 0 (S n)) (b, s))
      with ((b, s) :: flat_map (fun st => run (Repeat (CharClass ranges) 0 n) st)
                               (run (CharClass ranges) (b, s))).
    split.
    + intros [<-|H].
      * exists "". cbn. repeat split; auto; try lia; try (intros c []).
      * apply List.in_flat_map in H as ([b1 s1] & H1 & H2).
        apply run_CharClass in H1 as (c & -> & Hc & Hb1). cbn [fst snd] in *. subst b1.
        apply IH in H2 as (pre & -> & Hl & Hall & Hb).
        exists (String c pre). cbn. repeat split; auto; [lia| |].
        -- intros c' [<-|Hin]; auto.
        -- rewrite Hb. destruct pre; reflexivity.
    + intros (pre & Hs & Hl & Hall & Hb). destruct pre as [|c pre].
      * left. destruct x; simpl in *; subst; reflexivity.
      * right. apply List.in_flat_map. exists (false, pre ++ snd x). split.
        -- apply run_CharClass. exists c. cbn. repeat split; auto.
           apply Hall. left. reflexivity.
        -- apply IH. exists pre. repeat split; auto.
           ++ simpl in Hl. lia.
           ++ intros c' Hin. apply Hall. right. exact Hin.
           ++ rewrite Hb. destruct pre; reflexivity.
Qed.

Lemma run_EndText st x : In x (run EndText st) <-> snd st = "" /\ x = st.
Proof.
  cbn [run]. destruct (snd st) eqn:E.
  - split; [intros [<-|[]]; auto|intros [_ ->]; left; reflexivity].
  - split; [intros []|intros [H _]; discriminate].
Qed.

Lemma nonempty_In {A} (l : list A) : negb (Nat.eqb (length l) 0) = true <-> exists x, In x l.
Proof.
  destruct l as [|a l]; simpl.
  - split; [discriminate|intros [x []]].
  - split; [intros _; exists a; auto|reflexivity].
Qed.

Lemma MatchString_anchored r s :
  MatchString (Concat BeginText r) s = true <-> exists x, In x (run r (true, s)).
Proof.
  unfold MatchString.
  assert (Hfalse : forall t, existsb (fun st => negb (Nat.eqb (length (run (Concat BeginText r) st)) 0))
                               (starts false t) = false).
  { induction t as [|c t IH]; cbn [starts existsb run fst flat_map length Nat.eqb negb orb]; auto. }
  destruct s as [|c s]; cbn [starts existsb]; rewrite ?Hfalse, ?orb_false_r;
    rewrite nonempty_In; cbn [run fst flat_map]; rewrite app_nil_r; reflexivity.
Qed.

End regexp_facts.

Section validate_facts.
#[local] Open Scope string_scope.

Lemma isChar_byte c l : path.isChar c (String l "") = (byte_of l <=? byte_of c)%Z && (byte_of c <=? byte_of l)%Z.
Proof.
  cbn [path.isChar]. destruct (Ascii.eqb_spec c l) as [->|Hne].
  - rewrite !Z.leb_refl. reflexivity.
  - symmetry. apply andb_false_iff.
    destruct (Z.leb_spec (byte_of l) (byte_of c)); [|auto].
    destruct (Z.leb_spec (byte_of c) (byte_of l)); [|auto].
    exfalso. apply Hne. assert (E : byte_of c = byte_of l) by lia.
    unfold byte_of in E. apply N2Z.inj in E.
    rewrite <- (ascii_N_embedding c), <- (ascii_N_embedding l), E. reflexivity.
Qed.

Lemma class_first c :
  regexp.inClass [rng "a" "z"; rng "A" "Z"; chr "*"; chr "?"; chr "["; chr "]"] c
  = isLetter c || isGlobMeta c.
Proof.
  unfold isLetter, isGlobMeta, between, regexp.inClass. rewrite !isChar_byte.
  cbn [existsb rng chr]. rewrite orb_false_r, !orb_assoc. reflexivity.
Qed.

Lemma class_interior c :
  regexp.inClass [rng "a" "z"; rng "A" "Z"; rng "0" "9"; chr "-"; chr "*"; chr "?";
                  chr "["; chr "]"] c
  = isAlnum c || isGlobMeta c || isHyphen c.
Proof.
  unfold isAlnum, isLetter, isDigit, isGlobMeta, isHyphen, between, regexp.inClass.
  rewrite !isChar_byte. cbn [existsb rng chr]. rewrite orb_false_r.
  repeat match goal with |- context [(?a <=? ?b)%Z && (?c <=? ?d)%Z] =>
    let x := fresh "x" in set (x := ((a <=? b)%Z && (c <=? d)%Z)) end.
  destruct x, x0, x1, x2, x3, x4, x5, x6; reflexivity.
Qed.

Lemma class_last c :
  regexp.inClass [rng "a" "z"; rng "A" "Z"; rng "0" "9"; chr "*"; chr "?"; chr "["; chr "]"] c
  = isAlnum c || isGlobMeta c.
Proof.
  unfold isAlnum, isLetter, isDigit, isGlobMeta, between, regexp.inClass.
  rewrite !isChar_byte. cbn [existsb rng chr]. rewrite orb_false_r, !orb_assoc. reflexivity.
Qed.

Lemma length_append s t : String.length (s ++ t) = (String.length s + String.length t)%nat.
Proof. induction s; simpl; auto. Qed.

Lemma DNSName_matches s :
  regexp.MatchString DNSNameRegexpWithPattern s = true <->
  labelShape (fun c => isLetter c || isGlobMeta c) s.
Proof.
  unfold DNSNameRegexpWithPattern, labelShape. rewrite MatchString_anchored. split.
  - intros (x & Hx).
    apply run_Concat in Hx as ([b1 s1] & H1 & Hx).
    apply run_CharClass in H1 as (c0 & -> & Hc0 & _). cbn [snd] in *.
    apply run_Concat in Hx as ([b2 s2] & H2 & Hx).
    apply run_Repeat_class in H2 as (mid & -> & Hlen & Hmid & _). cbn [snd] in *.
    apply run_Concat in Hx as ([b3 s3] & H3 & Hx).
    apply run_CharClass in H3 as (cl & -> & Hcl & _). cbn [snd] in *.
    apply run_EndText in Hx as [Hend _]. cbn [snd] in *. subst s3.
    rewrite class_first in Hc0. rewrite class_last in Hcl.
    split.
    + unfold len. cbn [String.length]. rewrite length_append. cbn [String.length]. lia.
    + exists c0, mid, cl. repeat split; auto.
      intros c Hc. rewrite <- class_interior. auto.
  - intros (Hlen & c0 & mid & cl & -> & Hc0 & Hmid & Hcl).
    unfold len in Hlen. cbn [String.length] in Hlen. rewrite length_append in Hlen.
    cbn [String.length] in Hlen.
    exists (false, "").
    apply run_Concat. exists (false, mid ++ String cl ""). split.
    { apply run_CharClass. exists c0. rewrite class_first. auto. }
    apply run_Concat. exists (false, String cl ""). split.
    { apply run_Repeat_class. exists mid. cbn [fst snd]. repeat split; auto; [lia| |].
      - intros c Hc. rewrite class_interior. auto.
      - destruct mid; reflexivity. }
    apply run_Concat. exists (false, ""). split.
    { apply run_CharClass. exists cl. rewrite class_last. auto. }
    apply run_EndText. auto.
Qed.

Lemma validPattern_x s : validPattern s <-> path.Match s "x" <> None.
Proof.
  unfold validPattern. split; [intros H; apply H|].
  intros H name E. apply H. apply (Match_error s name "x"). exact E.
Qed.

Lemma validateSubdomain_accepts s :
  validateSubdomain s = None <->
  labelShape (fun c => isLetter c || isGlobMeta c) s /\ validPattern s.
Proof.
  rewrite validPattern_x. unfold validateSubdomain.
  destruct (String.eqb_spec s "") as [->|Hne].
  { split; [discriminate|]. intros [[Hl _] _]. unfold len in Hl. simpl in Hl. lia. }
  destruct (Z.ltb_spec (len s) 2).
  { split; [discriminate|]. intros [[Hl _] _]. lia. }
  destruct (Z.ltb_spec 63 (len s)).
  { split; [discriminate|]. intros [[Hl _] _]. lia. }
  destruct (regexp.MatchString DNSNameRegexpWithPattern s) eqn:Hre; cbn [negb].
  - apply DNSName_matches in Hre.
    destruct (path.Match s "x").
    + split; [|reflexivity]. intros _. split; [assumption|discriminate].
    + split; [discriminate|]. intros [_ HH]. congruence.
  - split; [discriminate|]. intros [Hs _]. apply DNSName_matches in Hs. congruence.
Qed.

Lemma validateSubdomain_long s : (64 <= len s)%Z -> validateSubdomain s = Some ErrTooLong.
Proof.
  intros H. unfold validateSubdomain.
  destruct (String.eqb_spec s "") as [->|Hne]; [unfold len in H; simpl in H; lia|].
  destruct (Z.ltb_spec (len s) 2); [lia|].
  destruct (Z.ltb_spec 63 (len s)); [reflexivity|lia].
Qed.

Lemma validateSubdomain_examples :
  validateSubdomain "abc" = None /\ validateSubdomain "a-b-c" = None /\
  validateSubdomain "a*c" = None /\ validateSubdomain "[ab]c" = None /\
  validateSubdomain "" <> None /\ validateSubdomain "a" <> None /\
  validateSubdomain "-ab" <> None /\ validateSubdomain "ab-" <> None /\
  validateSubdomain "ab/cd" <> None.
Proof. vm_compute. repeat split; discriminate. Qed.

(** C5, amended.  A string is accepted exactly when it is a label of 2 to
    63 characters whose first character is a letter or a glob
    meta-character (not a digit), whose last character is alphanumeric or a
    glob meta-character, whose interior also allows the hyphen, and which
    is a well-formed shell pattern.  The examples of the claim are accepted
    and rejected as it says, and so is every string of 64 characters or
    more. *)
Theorem validateSubdomain_accepts_labels :
  (forall s, validateSubdomain s = None <->
             labelShape (fun c => isLetter c || isGlobMeta c) s /\ validPattern s) /\
  (validateSubdomain "abc" = None /\ validateSubdomain "a-b-c" = None /\
   validateSubdomain "a*c" = None /\ validateSubdomain "[ab]c" = None /\
   validateSubdomain "" <> None /\ validateSubdomain "a" <> None /\
   validateSubdomain "-ab" <> None /\ validateSubdomain "ab-" <> None /\
   validateSubdomain "ab/cd" <> None) /\
  (forall s, (64 <= len s)%Z -> validateSubdomain s <> None).
Proof.
  split; [exact validateSubdomain_accepts|]. split; [exact validateSubdomain_examples|].
  intros s H. rewrite validateSubdomain_long by exact H. discriminate.
Qed.

(** C5 as stated fails: a label that starts with a digit has the shape the
    claim describes and is a well-formed pattern, and is rejected. *)
Lemma validateSubdomain_digit_first :
  labelShape (fun c => isAlnum c || isGlobMeta c) "1ab" /\ validPattern "1ab" /\
  validateSubdomain "1ab" <> None.
Proof.
  split; [|split].
  - split; [unfold len; simpl; lia|].
    exists "1"%char, "a", "b"%char. repeat split.
    intros c [<-|[]]. reflexivity.
  - apply validPattern_x. vm_compute. discriminate.
  - vm_compute. discriminate.
Qed.

End validate_facts.

(** * The registry: lookups, deadlines and registration *)

Section registry_facts.

Import reverseproxy.

Lemma Handler_range_frame now order : forall m res m' logs,
  Handler_range now order m = (res, m', logs) ->
  forall addr,
    (forall hd, m' !! addr = Some hd -> m !! addr = Some hd) /\
    (forall hd, m !! addr = Some hd -> alive now hd = true -> m' !! addr = Some hd).
Proof.
  induction order as [|ip order IH]; intros m res m' logs H addr; cbn [Handler_range] in H.
  - injection H as <- <- <-. auto.
  - destruct (m !! ip) as [h|] eqn:Hip; [|eapply IH; eassumption].
    destruct (alive now h) eqn:Hal.
    + injection H as <- <- <-. auto.
    + destruct (Handler_range now order (delete ip m)) as [[res1 m1] logs1] eqn:Hrec.
      injection H as <- <- <-.
      destruct (IH _ _ _ _ Hrec addr) as [H1 H2]. split.
      * intros hd Hhd. apply H1 in Hhd. apply lookup_delete_Some in Hhd as [_ ?]. assumption.
      * intros hd Hhd Hlive. apply H2; [|assumption].
        apply lookup_delete_Some. split; [|assumption]. intros ->. congruence.
Qed.

Lemma Handler_range_Some now order : forall m h m' logs,
  Handler_range now order m = (Some h, m', logs) ->
  exists addr hd, In addr order /\ m !! addr = Some hd /\ m' !! addr = Some hd /\
    alive now hd = true /\ handler hd = h.
Proof.
  induction order as [|ip order IH]; intros m h m' logs H; cbn [Handler_range] in H.
  - discriminate.
  - destruct (m !! ip) as [h0|] eqn:Hip.
    + destruct (alive now h0) eqn:Hal.
      * injection H as <- <- <-. exists ip, h0. repeat split; auto. left; reflexivity.
      * destruct (Handler_range now order (delete ip m)) as [[res1 m1] logs1] eqn:Hrec.
        injection H as -> <- <-.
        destruct (IH _ _ _ _ Hrec) as (addr & hd & Hin & Hm & Hm' & Hlive & Hh).
        exists addr, hd. repeat split; auto. right; assumption.
        apply lookup_delete_Some in Hm as [_ ?]. assumption.
    + destruct (IH _ _ _ _ H) as (addr & hd & Hin & Hm & Hm' & Hlive & Hh).
      exists addr, hd. repeat split; auto. right; assumption.
Qed.

Lemma Handler_range_None now order : forall m m' logs,
  Handler_range now order m = (None, m', logs) ->
  forall addr, In addr order -> m' !! addr = None.
Proof.
  induction order as [|ip order IH]; intros m m' logs H addr Hin; cbn [Handler_range] in H.
  - destruct Hin.
  - destruct (m !! ip) as [h0|] eqn:Hip.
    + destruct (alive now h0) eqn:Hal; [discriminate|].
      destruct (Handler_range now order (delete ip m)) as [[res1 m1] logs1] eqn:Hrec.
      injection H as -> <- <-.
      destruct Hin as [<-|Hin]; [|eapply IH; eassumption].
      destruct (m1 !! ip) as [hd|] eqn:E; [|reflexivity].
      apply (Handler_range_frame _ _ _ _ _ _ Hrec ip) in E.
      rewrite lookup_delete_eq in E. discriminate.
    + destruct Hin as [<-|Hin]; [|eapply IH; eassumption].
      destruct (m' !! ip) as [hd|] eqn:E; [|reflexivity].
      apply (Handler_range_frame _ _ _ _ _ _ H ip) in E. congruence.
Qed.


Lemma Handler_frame now order ph port res ph' logs :
  Handler_ now order ph port = (res, ph', logs) ->
  forall p addr,
    (forall hd, onPort ph' p addr = Some hd -> onPort ph p addr = Some hd) /\
    (forall hd, onPort ph p addr = Some hd -> alive now hd = true -> onPort ph' p addr = Some hd).
Proof.
  unfold Handler_, onPort. intros H p addr.
  destruct (ph !! port) as [m|] eqn:Hm; [|injection H as <- <- <-; auto].
  destruct (size m =? 0)%nat; [injection H as <- <- <-; auto|].
  destruct (Handler_range now order m) as [[res1 m1] logs1] eqn:Hr.
  injection H as <- <- <-.
  destruct (decide (p = port)) as [->|Hne].
  - rewrite lookup_insert_eq, Hm. eapply Handler_range_frame; eassumption.
  - rewrite lookup_insert_ne by congruence. auto.
Qed.

Lemma Handler_Some now order ph port h ph' logs :
  Handler_ now order ph port = (Some h, ph', logs) ->
  exists addr hd, In addr order /\ onPort ph port addr = Some hd /\
    onPort ph' port addr = Some hd /\ alive now hd = true /\ handler hd = h.
Proof.
  unfold Handler_, onPort. intros H.
  destruct (ph !! port) as [m|] eqn:Hm; [|discriminate].
  destruct (size m =? 0)%nat; [discriminate|].
  destruct (Handler_range now order m) as [[res1 m1] logs1] eqn:Hr.
  injection H as -> <- <-. rewrite lookup_insert_eq.
  eapply Handler_range_Some; eassumption.
Qed.

Lemma Handler_None now order ph port ph' logs :
  Handler_ now order ph port = (None, ph', logs) ->
  forall addr, In addr order -> onPort ph' port addr = None.
Proof.
  unfold Handler_, onPort. intros H addr Hin.
  destruct (ph !! port) as [m|] eqn:Hm; [|injection H as <- <-; rewrite Hm; reflexivity].
  destruct (size m =? 0)%nat eqn:Hsz.
  - injection H as <- <-. rewrite Hm. apply Nat.eqb_eq, map_size_empty_iff in Hsz.
    subst m. apply lookup_empty.
  - destruct (Handler_range now order m) as [[res1 m1] logs1] eqn:Hr.
    injection H as -> <- <-. rewrite lookup_insert_eq.
    eapply Handler_range_None; eassumption.
Qed.

Lemma find_split {A} (f : A -> bool) (l : list A) (x : A) :
  List.find f l = Some x <->
  exists pre post, l = pre ++ x :: post /\ f x = true /\ forall n, In n pre -> f n = false.
Proof.
  induction l as [|a l IH]; cbn [List.find].
  - split; [discriminate|]. intros (pre & post & H & _). destruct pre; discriminate.
  - destruct (f a) eqn:Hfa.
    + split.
      * intros [= ->]. exists [], l. repeat split; auto. intros n [].
      * intros (pre & post & H & Hx & Hpre). destruct pre as [|b pre].
        -- injection H as -> _. reflexivity.
        -- injection H as -> _. rewrite (Hpre b) in Hfa by (left; reflexivity). discriminate.
    + rewrite IH. split.
      * intros (pre & post & -> & Hx & Hpre). exists (a :: pre), post. repeat split; auto.
        intros n [<-|Hn]; auto.
      * intros (pre & post & H & Hx & Hpre). destruct pre as [|b pre].
        -- injection H as -> _. congruence.
        -- injection H as -> ->. exists pre, post. repeat split; auto.
           intros n Hn. apply Hpre. right. assumption.
Qed.

Lemma resolve_resolvesTo r s name : resolve r s = Some name <-> resolvesTo r s name.
Proof.
  unfold resolve, resolvesTo, firstMatch. destruct (domainMap r !! s) as [ph|] eqn:Hs.
  - split.
    + intros [= <-]. left. split; [eauto|reflexivity].
    + intros [[_ ->]|[H _]]; [reflexivity|discriminate].
  - rewrite find_split. split.
    + intros H. right. split; [reflexivity|assumption].
    + intros [[[? H] _]|[_ H]]; [discriminate|assumption].
Qed.

Lemma registered_insert r name ph p addr cfg' dom' ac' un' lt' n :
  registered {| cfg := cfg'; domains := dom'; domainMap := <[name := ph]> (domainMap r);
                accessCounters := ac'; accessCounterUnit := un';
                proxyHandlerLifetime := lt' |} n p addr
  = if decide (name = n) then onPort ph p addr else registered r n p addr.
Proof.
  unfold registered. cbn [domainMap]. rewrite lookup_insert.
  destruct (decide (name = n)); reflexivity.
Qed.

Lemma FindHandler_spec now order r s port res r' logs :
  FindHandler now order r s port = (res, r', logs) ->
  (forall h, res = Some h ->
     exists name addr hd, resolvesTo r s name /\ In addr order /\
       registered r name port addr = Some hd /\
       registered r' name port addr = Some hd /\
       alive now hd = true /\ handler hd = h) /\
  (res = None -> forall name, resolvesTo r s name ->
     forall addr, In addr order -> registered r' name port addr = None) /\
  (forall name p addr,
     (forall hd, registered r' name p addr = Some hd -> registered r name p addr = Some hd) /\
     (forall hd, registered r name p addr = Some hd -> alive now hd = true ->
                 registered r' name p addr = Some hd)) /\
  domains r' = domains r /\ accessCounters r' = accessCounters r /\ cfg r' = cfg r /\
  proxyHandlerLifetime r' = proxyHandlerLifetime r.
Proof.
  unfold FindHandler. intros H.
  assert (Hres : forall name, resolvesTo r s name <-> resolve r s = Some name)
    by (intros; symmetry; apply resolve_resolvesTo).
  unfold resolve in Hres.
  set (resolved := match domainMap r !! s with
                   | Some ph => Some (s, ph)
                   | None => match firstMatch r s with
                             | Some name => match domainMap r !! name with
                                            | Some ph => Some (name, ph)
                                            | None => None
                                            end
                             | None => None
                             end
                   end) in H.
  assert (Hr : match resolved with
               | Some (name, ph) => resolvesTo r s name /\ domainMap r !! name = Some ph
               | None => forall name, resolvesTo r s name -> domainMap r !! name = None
               end).
  { subst resolved. destruct (domainMap r !! s) as [ph|] eqn:Hs.
    - split; [apply Hres; reflexivity|assumption].
    - destruct (firstMatch r s) as [name|] eqn:Hf.
      + destruct (domainMap r !! name) as [ph|] eqn:Hn.
        * split; [apply Hres; reflexivity|assumption].
        * intros n Hn'. apply Hres in Hn'. injection Hn' as <-. assumption.
      + intros n Hn'. apply Hres in Hn'. discriminate. }
  destruct resolved as [[name ph]|].
  - destruct Hr as [Hname Hph].
    destruct (Handler_ now order ph port) as [[res1 ph1] logs1] eqn:HH.
    injection H as <- <- <-.
    assert (Hreg : forall p addr, registered r name p addr = onPort ph p addr).
    { intros. unfold registered. rewrite Hph. reflexivity. }
    repeat split; try reflexivity.
    + intros h ->. destruct (Handler_Some _ _ _ _ _ _ _ HH) as (addr & hd & Hin & H1 & H2 & H3 & H4).
      exists name, addr, hd. rewrite registered_insert, decide_True by reflexivity.
      rewrite Hreg. repeat split; auto.
    + intros -> n Hn addr Hin. apply Hres in Hn. apply Hres in Hname.
      assert (n = name) by congruence. subst n.
      rewrite registered_insert, decide_True by reflexivity.
      eapply Handler_None; eassumption.
    + intros hd. rewrite registered_insert. destruct (decide (name = name0)) as [<-|]; [|auto].
      rewrite Hreg. apply (Handler_frame _ _ _ _ _ _ _ HH).
    + intros hd. rewrite registered_insert. destruct (decide (name = name0)) as [<-|]; [|auto].
      rewrite Hreg. apply (Handler_frame _ _ _ _ _ _ _ HH).
  - injection H as <- <- <-. repeat split; auto; try discriminate.
    intros _ name Hname addr _. unfold registered. rewrite (Hr name Hname). reflexivity.
Qed.


Lemma addresses_registered r name port addr :
  In addr (addresses r name port) <-> is_Some (registered r name port addr).
Proof.
  unfold addresses, registered, onPort.
  destruct (domainMap r !! name) as [ph|]; [|split; [intros []|intros [? ?]; discriminate]].
  destruct (ph !! port) as [m|]; [|split; [intros []|intros [? ?]; discriminate]].
  rewrite <- list_elem_of_In, list_elem_of_fmap. split.
  - intros ([a hd] & -> & Hin). apply elem_of_map_to_list in Hin. cbn [fst]. eauto.
  - intros [hd Hhd]. exists (addr, hd). split; [reflexivity|].
    apply elem_of_map_to_list. exact Hhd.
Qed.

(** C2, amended.  When the visiting order leaves no handler out, the lookup
    returns a handler exactly when the entry it resolves to (the entry of
    [s] itself when [s] is registered, otherwise that of the first
    registered name whose pattern matches) has a live handler for the port;
    a handler returned is one the claim's condition describes.  When none
    is returned, the resolved entry has no handler left for the port.  The
    lookup deletes dead handlers only and changes no handler that stays. *)
Theorem FindHandler_resolved_live now order r s port :
  (forall name, resolvesTo r s name -> visitsAll order r name port) ->
  let '(res, r', _) := FindHandler now order r s port in
  (is_Some res <-> exists name, resolvesTo r s name /\ liveHandler now r name port) /\
  (is_Some res -> someLiveHandler now r s port) /\
  (res = None ->
   forall name addr, resolvesTo r s name -> registered r' name port addr = None) /\
  (forall name p addr hd,
     registered r' name p addr = Some hd -> registered r name p addr = Some hd) /\
  (forall name p addr hd,
     registered r name p addr = Some hd -> alive now hd = true ->
     registered r' name p addr = Some hd).
Proof.
  intros Hvisit.
  destruct (FindHandler now order r s port) as [[res r'] logs] eqn:HF.
  destruct (FindHandler_spec _ _ _ _ _ _ _ _ HF) as (HSome & HNone & Hframe & _).
  assert (Hlive : is_Some res -> exists name, resolvesTo r s name /\ liveHandler now r name port).
  { intros [h ->]. destruct (HSome h eq_refl) as (name & addr & hd & Hr & _ & H1 & _ & H3 & _).
    exists name. split; [assumption|]. exists addr, hd. auto. }
  assert (Hin : forall name addr hd, resolvesTo r s name ->
            registered r name port addr = Some hd -> In addr order).
  { intros name addr hd Hr Hreg. apply (Hvisit name Hr), addresses_registered. eauto. }
  split; [split; [exact Hlive|]|split; [|split; [|split]]].
  - intros (name & Hr & addr & hd & Hreg & Hal).
    destruct res as [h|]; [eauto|]. exfalso.
    pose proof (HNone eq_refl name Hr addr (Hin _ _ _ Hr Hreg)) as Hgone.
    destruct (Hframe name port addr) as [_ Hkeep]. rewrite (Hkeep hd Hreg Hal) in Hgone.
    discriminate.
  - intros Hs. destruct (Hlive Hs) as (name & Hr & Hl).
    destruct Hr as [[_ ->]|[_ (pre & post & Hd & Hm & _)]]; [left; exact Hl|].
    right. exists name. repeat split; auto. rewrite Hd. apply in_elt.
  - intros -> name addr Hr.
    destruct (registered r' name port addr) as [hd|] eqn:E; [|reflexivity].
    destruct (Hframe name port addr) as [Hback _]. pose proof (Hback hd E) as Hreg.
    rewrite (HNone eq_refl name Hr addr (Hin _ _ _ Hr Hreg)) in E. discriminate.
  - intros name p addr hd. apply Hframe.
  - intros name p addr hd. apply Hframe.
Qed.

End registry_facts.

(** ** Registration *)

Section add_facts.

Import reverseproxy.

Variable url_Parse : string -> string + string.
Variable newHTTPTransport : Z -> RoundTripper.

Abbreviation step := (AddSubdomain_step url_Parse newHTTPTransport).

Lemma AddSubdomain_loop_skips r now subdomain addr targetPort counter l st :
  localMode (cfg r) = false ->
  (forall v, In v l -> TargetPort v <> targetPort) ->
  fold_left (step r now subdomain addr targetPort counter) l st = st.
Proof.
  intros Hlocal. revert st. induction l as [|v l IH]; intros st Hall; [reflexivity|].
  cbn [fold_left]. rewrite IH by (intros w Hw; apply Hall; right; exact Hw).
  unfold AddSubdomain_step. destruct st as [[ph proxy] logs].
  rewrite Hlocal. destruct (Z.eqb_spec (TargetPort v) targetPort) as [E|E]; [|reflexivity].
  exfalso. apply (Hall v); [left; reflexivity|exact E].
Qed.

Lemma exists_other lifetime now ph port addr p a :
  p <> port ->
  onPort (snd (fst (exists_ lifetime now ph port addr))) p a = onPort ph p a.
Proof.
  intros Hne. unfold exists_, onPort.
  destruct (ph !! port) as [m|]; [|reflexivity].
  destruct (m !! addr) as [h|]; [|reflexivity].
  destruct (alive now h); cbn [fst snd]; rewrite lookup_insert_ne by congruence; reflexivity.
Qed.

Lemma add_other lifetime now ph port addr h p a :
  p <> port ->
  onPort (fst (add lifetime now ph port addr h)) p a = onPort ph p a.
Proof.
  intros Hne. unfold add, onPort. cbn [fst]. rewrite lookup_insert_ne by congruence. reflexivity.
Qed.

Lemma exists_live lifetime now ph port addr hd :
  onPort ph port addr = Some hd -> alive now hd = true ->
  fst (fst (exists_ lifetime now ph port addr)) = true /\
  onPort (snd (fst (exists_ lifetime now ph port addr))) port addr
  = Some (extend lifetime now hd).
Proof.
  unfold exists_, onPort. intros H Hl.
  destruct (ph !! port) as [m|]; [|discriminate].
  rewrite H, Hl. cbn [fst snd]. rewrite !lookup_insert_eq. auto.
Qed.

Lemma extend_extend lifetime now hd :
  extend lifetime now (extend lifetime now hd) = extend lifetime now hd.
Proof. reflexivity. Qed.

Lemma alive_extend lifetime now hd : 0 < lifetime -> alive now (extend lifetime now hd) = true.
Proof. intros H. unfold alive, extend. cbn [timer]. apply Z.ltb_lt. lia. Qed.

(** One round of the loop, for a live handler [hd] of the address on
    [port]: the handler stays, extended or not; once extended it stays
    extended; a round for [port] extends it. *)
Lemma AddSubdomain_step_extends r now subdomain addr targetPort counter port hd
    ph proxy logs v ph1 proxy1 logs1 :
  0 < proxyHandlerLifetime r -> alive now hd = true ->
  step r now subdomain addr targetPort counter (ph, proxy, logs) v = (ph1, proxy1, logs1) ->
  onPort ph port addr = Some hd \/
  onPort ph port addr = Some (extend (proxyHandlerLifetime r) now hd) ->
  (onPort ph1 port addr = Some hd \/
   onPort ph1 port addr = Some (extend (proxyHandlerLifetime r) now hd)) /\
  (onPort ph port addr = Some (extend (proxyHandlerLifetime r) now hd) ->
   onPort ph1 port addr = Some (extend (proxyHandlerLifetime r) now hd)) /\
  (proxy = true -> proxy1 = true) /\
  (ListenPort v = port ->
   TargetPort v = targetPort \/ localMode (cfg r) = true ->
   onPort ph1 port addr = Some (extend (proxyHandlerLifetime r) now hd) /\ proxy1 = true).
Proof.
  intros Hlt Hlive Hstep Hinv. unfold AddSubdomain_step in Hstep.
  destruct (negb (TargetPort v =? targetPort) && negb (localMode (cfg r))) eqn:Hskip.
  { injection Hstep as <- <- <-.
    split; [auto|split; [auto|split; [auto|]]]. intros _ [E|E]; exfalso.
    - apply Z.eqb_eq in E. rewrite E in Hskip. discriminate.
    - rewrite E, andb_false_r in Hskip. discriminate. }
  destruct (decide (ListenPort v = port)) as [Hp|Hp].
  - assert (Hex : exists hd0, onPort ph port addr = Some hd0 /\ alive now hd0 = true /\
                    extend (proxyHandlerLifetime r) now hd0
                    = extend (proxyHandlerLifetime r) now hd).
    { destruct Hinv as [H|H]; eexists; (split; [exact H|]); split; auto.
      apply alive_extend; assumption. }
    destruct Hex as (hd0 & Hhd0 & Hl0 & He0).
    rewrite <- Hp in Hhd0.
    destruct (exists_live (proxyHandlerLifetime r) now ph (ListenPort v) addr hd0 Hhd0 Hl0)
      as [Hf Hon].
    destruct (exists_ (proxyHandlerLifetime r) now ph (ListenPort v) addr)
      as [[found ph2] logs2]. cbn [fst snd] in Hf, Hon. subst found.
    injection Hstep as <- <- <-. rewrite <- Hp, Hon, He0. auto.
  - pose proof (exists_other (proxyHandlerLifetime r) now ph (ListenPort v) addr port addr
                  ltac:(congruence)) as Hon.
    destruct (exists_ (proxyHandlerLifetime r) now ph (ListenPort v) addr)
      as [[found ph2] logs2]. cbn [fst snd] in Hon.
    destruct found.
    + injection Hstep as <- <- <-. rewrite Hon. repeat split; auto; congruence.
    + destruct (url_Parse _) as [destUrl|err].
      * match type of Hstep with context [add ?a ?b ?c ?d ?e ?f] =>
          pose proof (add_other a b c d e f port addr ltac:(congruence)) as Hadd;
          destruct (add a b c d e f) as [ph3 logs3] end.
        cbn [fst] in Hadd. injection Hstep as <- <- <-. rewrite Hadd, Hon.
        repeat split; auto; congruence.
      * injection Hstep as <- <- <-. rewrite Hon. repeat split; auto; congruence.
Qed.

Lemma AddSubdomain_loop_keeps r now subdomain addr targetPort counter port hd :
  0 < proxyHandlerLifetime r -> alive now hd = true ->
  forall l ph proxy logs ph' proxy' logs',
    fold_left (step r now subdomain addr targetPort counter) l (ph, proxy, logs)
    = (ph', proxy', logs') ->
    onPort ph port addr = Some (extend (proxyHandlerLifetime r) now hd) ->
    onPort ph' port addr = Some (extend (proxyHandlerLifetime r) now hd) /\
    (proxy = true -> proxy' = true).
Proof.
  intros Hlt Hlive. induction l as [|v l IH]; intros ph proxy logs ph' proxy' logs' Hfold Hext.
  - injection Hfold as <- <- <-. auto.
  - cbn [fold_left] in Hfold.
    destruct (step r now subdomain addr targetPort counter (ph, proxy, logs) v)
      as [[ph1 proxy1] logs1] eqn:Hstep.
    destruct (AddSubdomain_step_extends _ _ _ _ _ _ port hd _ _ _ _ _ _ _ Hlt Hlive Hstep
                ltac:(right; exact Hext)) as (_ & Hkeep & Hproxy & _).
    destruct (IH _ _ _ _ _ _ Hfold (Hkeep Hext)) as [H1 H2]. auto.
Qed.

Lemma AddSubdomain_loop_extends r now subdomain addr targetPort counter port hd :
  0 < proxyHandlerLifetime r -> alive now hd = true ->
  forall l ph proxy logs ph' proxy' logs',
    fold_left (step r now subdomain addr targetPort counter) l (ph, proxy, logs)
    = (ph', proxy', logs') ->
    onPort ph port addr = Some hd \/
    onPort ph port addr = Some (extend (proxyHandlerLifetime r) now hd) ->
    (exists v, In v l /\ ListenPort v = port /\
               (TargetPort v = targetPort \/ localMode (cfg r) = true)) ->
    onPort ph' port addr = Some (extend (proxyHandlerLifetime r) now hd) /\ proxy' = true.
Proof.
  intros Hlt Hlive. induction l as [|v l IH];
    intros ph proxy logs ph' proxy' logs' Hfold Hinv (w & Hw & Hport & Hsel).
  - destruct Hw.
  - cbn [fold_left] in Hfold.
    destruct (step r now subdomain addr targetPort counter (ph, proxy, logs) v)
      as [[ph1 proxy1] logs1] eqn:Hstep.
    destruct (AddSubdomain_step_extends _ _ _ _ _ _ port hd _ _ _ _ _ _ _ Hlt Hlive Hstep Hinv)
      as (Hinv1 & _ & _ & Hhere).
    destruct Hw as [<-|Hw].
    + destruct (Hhere Hport Hsel) as [Hext ->].
      destruct (AddSubdomain_loop_keeps _ _ _ _ _ _ port hd Hlt Hlive _ _ _ _ _ _ _ Hfold Hext)
        as [H1 H2]. auto.
    + eapply IH; eauto.
Qed.

Lemma AddSubdomain_extends now h r subdomain ipaddress targetPort v hd :
  0 < proxyHandlerLifetime r ->
  In v (Listen_HTTP (cfg r)) ->
  TargetPort v = targetPort \/ localMode (cfg r) = true ->
  let addr := gostrings.JoinHostPort ipaddress (gostrings.Itoa targetPort) in
  registered r subdomain (ListenPort v) addr = Some hd ->
  alive now hd = true ->
  registered (snd (fst (AddSubdomain url_Parse newHTTPTransport now h r
                                     subdomain ipaddress targetPort)))
             subdomain (ListenPort v) addr
  = Some (extend (proxyHandlerLifetime r) now hd).
Proof.
  intros Hlt Hv Hsel addr Hreg Hlive. unfold AddSubdomain. fold addr.
  unfold registered in Hreg.
  destruct (domainMap r !! subdomain) as [ph0|] eqn:Hph0; [|discriminate].
  cbn [default].
  set (alloc := match accessCounters r !! subdomain with
                | Some c => (c, h, accessCounters r)
                | None => _
                end).
  destruct alloc as [[counter h1] counters1].
  match goal with |- context [fold_left ?f ?l ?st] =>
    destruct (fold_left f l st) as [[ph proxy] logs] eqn:Hfold end.
  destruct (AddSubdomain_loop_extends r now subdomain addr targetPort counter (ListenPort v) hd
              Hlt Hlive _ _ _ _ _ _ _ Hfold ltac:(left; exact Hreg)
              ltac:(exists v; auto)) as [Hext ->].
  cbn [negb fst snd]. rewrite registered_insert, decide_True by reflexivity. exact Hext.
Qed.

(** C1, amended.  A lookup that returns a handler leaves the handler as it
    was: it is registered under the resolved name, alive, with the deadline
    it had before the lookup.  The deadline is set to the full
    [proxyHandlerLifetime] from the instant of the call when [AddSubdomain]
    is called for the same name, listen port and upstream address while the
    handler is alive. *)
Theorem FindHandler_keeps_deadline now order r s port h r' logs :
  FindHandler now order r s port = (Some h, r', logs) ->
  exists name addr hd,
    resolvesTo r s name /\
    registered r name port addr = Some hd /\
    registered r' name port addr = Some hd /\
    handler hd = h /\ alive now hd = true /\
    forall now' hp ipaddress targetPort v,
      0 < proxyHandlerLifetime r ->
      alive now' hd = true ->
      In v (Listen_HTTP (cfg r)) -> ListenPort v = port ->
      TargetPort v = targetPort \/ localMode (cfg r) = true ->
      gostrings.JoinHostPort ipaddress (gostrings.Itoa targetPort) = addr ->
      registered (snd (fst (AddSubdomain url_Parse newHTTPTransport now' hp r'
                                         name ipaddress targetPort)))
                 name port addr
      = Some (extend (proxyHandlerLifetime r) now' hd).
Proof.
  intros HF.
  destruct (FindHandler_spec _ _ _ _ _ _ _ _ HF) as (HSome & _ & _ & _ & _ & Hcfg & Hlt).
  destruct (HSome h eq_refl) as (name & addr & hd & Hr & _ & H1 & H2 & H3 & H4).
  exists name, addr, hd. repeat split; auto.
  intros now' hp ipaddress targetPort v Hpos Hal Hv Hport Hsel Haddr.
  rewrite <- Hlt, <- Hport, <- Haddr.
  apply AddSubdomain_extends; rewrite ?Hcfg, ?Hlt, ?Hport, ?Haddr; auto.
Qed.

(** C3, amended.  Outside local mode, with no listen mapping for the target
    port, the call ends with a warning and leaves the domain map and the
    ordered list of domains as they were.  The map of access counters is
    left as it was when the subdomain has a counter; otherwise the call has
    registered a new counter for the subdomain. *)
Theorem AddSubdomain_without_mapping now h r subdomain ipaddress targetPort :
  localMode (cfg r) = false ->
  (forall v, In v (Listen_HTTP (cfg r)) -> TargetPort v <> targetPort) ->
  let '(h', r', logs) :=
    AddSubdomain url_Parse newHTTPTransport now h r subdomain ipaddress targetPort in
  domainMap r' = domainMap r /\ domains r' = domains r /\
  (exists logs0 warning, logs = logs0 ++ [warning] /\ logLevelOf warning = LevelWarn) /\
  match accessCounters r !! subdomain with
  | Some _ => accessCounters r' = accessCounters r /\ h' = h
  | None =>
      accessCounters r' = <[subdomain := fresh (dom h)]> (accessCounters r) /\
      h' = <[fresh (dom h) := NewAccessCounter (accessCounterUnit r)]> h
  end.
Proof.
  intros Hlocal Hnone. unfold AddSubdomain.
  destruct (accessCounters r !! subdomain) as [c|] eqn:Hc;
    rewrite AddSubdomain_loop_skips by assumption; cbn [negb domainMap domains accessCounters];
    (repeat split; [| eexists _, _; split; [reflexivity|reflexivity] ]);
    (destruct (domainMap r !! subdomain) as [ph|] eqn:Hph;
      [rewrite bool_decide_eq_true_2 by eauto; cbn [default]; apply insert_id; exact Hph
      |rewrite bool_decide_eq_false_2 by (intros [? ?]; discriminate); reflexivity]).
Qed.

End add_facts.

Section registry_examples.

Import reverseproxy.

#[local] Open Scope string_scope.

Lemma FindHandler_resolved_live_witness :
  (forall name, resolvesTo (snd registry2) "ab" name ->
                visitsAll ["10.0.0.1:80"] (snd registry2) name 80) /\
  (let '(res, r', _) := FindHandler (10 * Second) ["10.0.0.1:80"] (snd registry2) "ab" 80 in
   (is_Some res <->
    exists name, resolvesTo (snd registry2) "ab" name /\
                 liveHandler (10 * Second) (snd registry2) name 80) /\
   (is_Some res -> someLiveHandler (10 * Second) (snd registry2) "ab" 80) /\
   (res = None ->
    forall name addr, resolvesTo (snd registry2) "ab" name ->
                      registered r' name 80 addr = None) /\
   (forall name p addr hd,
      registered r' name p addr = Some hd ->
      registered (snd registry2) name p addr = Some hd) /\
   (forall name p addr hd,
      registered (snd registry2) name p addr = Some hd -> alive (10 * Second) hd = true ->
      registered r' name p addr = Some hd)).
Proof.
  assert (Hv : forall name, resolvesTo (snd registry2) "ab" name ->
                 visitsAll ["10.0.0.1:80"] (snd registry2) name 80).
  { intros name Hres. apply resolve_resolvesTo in Hres.
    assert (E : resolve (snd registry2) "ab" = Some "ab") by (vm_compute; reflexivity).
    rewrite E in Hres. injection Hres as <-. intros addr Hin.
    assert (Ea : addresses (snd registry2) "ab" 80 = ["10.0.0.1:80"])
      by (vm_compute; reflexivity).
    rewrite Ea in Hin. exact Hin. }
  split; [exact Hv|].
  exact (FindHandler_resolved_live (10 * Second) ["10.0.0.1:80"] (snd registry2) "ab" 80 Hv).
Defined.

(** C2 as stated fails: the pattern [a*] matches [ab] and has a live
    handler on port 8080, but [ab] is registered itself, with a handler on
    port 80 only, and the lookup stops there. *)
Lemma FindHandler_shadowed_pattern :
  someLiveHandler (10 * Second) (snd registry2) "ab" 8080 /\
  visitsAll [] (snd registry2) "ab" 8080 /\
  fst (fst (FindHandler (10 * Second) [] (snd registry2) "ab" 8080)) = None.
Proof.
  split; [|split].
  - right. exists "a*". split; [vm_compute; auto|]. split; [vm_compute; reflexivity|].
    exists "10.0.0.2:8080". eexists. split; [vm_compute; reflexivity|reflexivity].
  - intros addr Hin.
    assert (Ea : addresses (snd registry2) "ab" 8080 = []) by (vm_compute; reflexivity).
    rewrite Ea in Hin. destruct Hin.
  - vm_compute. reflexivity.
Qed.

Lemma FindHandler_keeps_deadline_witness :
  exists h r' logs,
    FindHandler (10 * Second) ["10.0.0.1:80"] (snd registry2) "ab" 80 = (Some h, r', logs) /\
    exists name addr hd,
      resolvesTo (snd registry2) "ab" name /\
      registered (snd registry2) name 80 addr = Some hd /\
      registered r' name 80 addr = Some hd /\
      handler hd = h /\ alive (10 * Second) hd = true /\
      forall now' hp ipaddress targetPort v,
        0 < proxyHandlerLifetime (snd registry2) ->
        alive now' hd = true ->
        In v (Listen_HTTP (cfg (snd registry2))) -> ListenPort v = 80 ->
        TargetPort v = targetPort \/ localMode (cfg (snd registry2)) = true ->
        gostrings.JoinHostPort ipaddress (gostrings.Itoa targetPort) = addr ->
        registered (snd (fst (AddSubdomain parseAny unreachable now' hp r'
                                           name ipaddress targetPort)))
                   name 80 addr
        = Some (extend (proxyHandlerLifetime (snd registry2)) now' hd).
Proof.
  destruct (FindHandler (10 * Second) ["10.0.0.1:80"] (snd registry2) "ab" 80)
    as [[res r'] logs] eqn:HF.
  assert (Hres : is_Some res).
  { replace res with (fst (fst (FindHandler (10 * Second) ["10.0.0.1:80"]
                                  (snd registry2) "ab" 80))) by (rewrite HF; reflexivity).
    vm_compute. eauto. }
  destruct Hres as [h ->]. exists h, r', logs. split; [reflexivity|].
  exact (FindHandler_keeps_deadline parseAny unreachable (10 * Second) ["10.0.0.1:80"]
           (snd registry2) "ab" 80 h r' logs HF).
Defined.

(** C1 as stated fails: a handler added at the instant 0 has the deadline
    30 s; a lookup at 10 s returns it and leaves the deadline at 30 s, not
    at 10 s plus the lifetime. *)
Lemma FindHandler_does_not_extend :
  is_Some (fst (fst (FindHandler (10 * Second) ["10.0.0.1:80"] (snd registry2) "ab" 80))) /\
  timer <$> registered (snd (fst (FindHandler (10 * Second) ["10.0.0.1:80"]
                                              (snd registry2) "ab" 80)))
                       "ab" 80 "10.0.0.1:80"
  = Some (30 * Second) /\
  30 * Second <> 10 * Second + proxyHandlerLifetime (snd registry2).
Proof.
  split; [vm_compute; eauto|]. split; [vm_compute; reflexivity|]. vm_compute. discriminate.
Qed.

Lemma AddSubdomain_without_mapping_witness :
  localMode (cfg registry0) = false /\
  (forall v, In v (Listen_HTTP (cfg registry0)) ->
             TargetPort v <> 9000) /\
  (let '(h', r', logs) :=
     AddSubdomain parseAny unreachable 0 ∅ registry0
                  "ab" "10.0.0.1" 9000 in
   domainMap r' = domainMap registry0 /\
   domains r' = domains registry0 /\
   (exists logs0 warning, logs = (logs0 ++ [warning])%list /\
                          logLevelOf warning = LevelWarn) /\
   match accessCounters registry0 !! "ab" with
   | Some _ => accessCounters r' = accessCounters registry0 /\ h' = ∅
   | None =>
       accessCounters r'
       = <["ab" := fresh (dom (∅ : heap))]> (accessCounters registry0) /\
       h' = <[fresh (dom (∅ : heap)) :=
                NewAccessCounter (accessCounterUnit registry0)]> ∅
   end).
Proof.
  assert (H1 : localMode (cfg registry0) = false) by reflexivity.
  assert (H2 : forall v, In v (Listen_HTTP (cfg registry0)) ->
                         TargetPort v <> 9000).
  { intros v [<-|[<-|[]]]; simpl; lia. }
  split; [exact H1|]. split; [exact H2|].
  exact (AddSubdomain_without_mapping parseAny unreachable 0 ∅ registry0
           "ab" "10.0.0.1" 9000 H1 H2).
Defined.

(** C3 as stated fails: the subdomain had no access counter before the
    call and has one after it. *)
Lemma AddSubdomain_registers_counter :
  localMode exampleConfig = false /\
  (forall v, In v (Listen_HTTP exampleConfig) -> TargetPort v <> 9000) /\
  accessCounters (snd (fst (exampleAdd ∅ registry0 "ab" "10.0.0.1" 9000)))
  <> accessCounters registry0.
Proof.
  split; [reflexivity|]. split; [intros v [<-|[<-|[]]]; simpl; lia|].
  assert (E1 : accessCounters (snd (fst (exampleAdd ∅ registry0
                                                   "ab" "10.0.0.1" 9000))) !! "ab"
               = Some 0%nat) by (vm_compute; reflexivity).
  intros E. rewrite E in E1. discriminate.
Qed.

End registry_examples.

(** ** The purge rule *)

Section purge_facts.

Import ecs.

Lemma tagRule info p :
  existsb (fun t =>
     match excludeTagsMap p !! ToString (Key t) with
     | Some ev => String.eqb ev (ToString (Value t))
     | None => false
     end) (Tags info) = true <-> excludedByTag info p.
Proof.
  unfold excludedByTag. rewrite List.existsb_exists. split.
  - intros (t & Hin & Ht). exists t. split; [assumption|].
    destruct (excludeTagsMap p !! ToString (Key t)) as [ev|]; [|discriminate].
    apply String.eqb_eq in Ht. congruence.
  - intros (t & Hin & Ht). exists t. split; [assumption|].
    rewrite Ht. apply String.eqb_refl.
Qed.

Lemma regexpRule info p :
  match ExcludeRegexp p with Some re => re (SubDomain info) | None => false end = true
  <-> excludedByRegexp info p.
Proof.
  unfold excludedByRegexp. destruct (ExcludeRegexp p) as [re|].
  - split; [intros H; exists re; auto|intros (re' & [= <-] & H); exact H].
  - split; [discriminate|intros (re' & H & _); discriminate].
Qed.

Lemma int64_small x : - 2 ^ 63 <= x < 2 ^ 63 -> int64 x = x.
Proof. intros H. unfold int64. rewrite Z.mod_small by lia. lia. Qed.

(** C4, amended.  [ShouldBePurged] returns true exactly when the last
    status is RUNNING, the subdomain is not excluded, no tag of the task
    equals an excluded key and value, the exclusion pattern (when present)
    does not match the subdomain, and the task was created at or before
    the instant [now] plus the negated duration.  The negation is that of
    an [int64]: the instant is [now - duration] for every duration but the
    least one, [- 2 ^ 63], which is its own negation.  The result is false
    whenever one exclusion rule matches, whatever the other rules say. *)
Theorem ShouldBePurged_rules now info p :
  (ShouldBePurged now info p = true <->
   LastStatus info = statusRunning /\
   ~ excludedBySubdomain info p /\
   ~ excludedByTag info p /\
   ~ excludedByRegexp info p /\
   Created info <= now + int64 (- Duration p)) /\
  (- 2 ^ 63 < Duration p < 2 ^ 63 -> now + int64 (- Duration p) = now - Duration p) /\
  (Duration p = - 2 ^ 63 -> now + int64 (- Duration p) = now - 2 ^ 63) /\
  (excludedBySubdomain info p \/ excludedByTag info p \/ excludedByRegexp info p ->
   ShouldBePurged now info p = false).
Proof.
  assert (Hiff : ShouldBePurged now info p = true <->
    LastStatus info = statusRunning /\ ~ excludedBySubdomain info p /\
    ~ excludedByTag info p /\ ~ excludedByRegexp info p /\
    Created info <= now + int64 (- Duration p)).
  { unfold ShouldBePurged, excludedBySubdomain.
    rewrite <- tagRule, <- regexpRule.
    destruct (String.eqb_spec (LastStatus info) statusRunning) as [Hs|Hs]; cbn [negb];
      [|split; [discriminate|intros [? _]; contradiction]].
    case_bool_decide as Hex; [split; [discriminate|intros (_ & ? & _); contradiction]|].
    destruct (existsb _ (Tags info)); [split; [discriminate|intros (_ & _ & H & _); exfalso; auto]|].
    destruct (match ExcludeRegexp p with Some re => re (SubDomain info) | None => false end);
      [split; [discriminate|intros (_ & _ & _ & H & _); exfalso; auto]|].
    cbv zeta. destruct (Z.ltb_spec (now + int64 (- Duration p)) (Created info)).
    - split; [discriminate|intros (_ & _ & _ & _ & ?); lia].
    - split; [|reflexivity]. intros _. repeat split; auto; try discriminate. }
  split; [exact Hiff|]. split; [|split].
  - intros Hd. rewrite int64_small by lia. lia.
  - intros ->. reflexivity.
  - intros Hex. destruct Hiff as [Hf _].
    destruct (ShouldBePurged now info p); [|reflexivity].
    destruct (Hf eq_refl) as (_ & H1 & H2 & H3 & _).
    destruct Hex as [?|[?|?]]; contradiction.
Qed.

(** C4 as stated fails at the boundary: a running task without exclusions,
    created exactly [duration] before the call, is not older than
    [now - duration] and is purged. *)
Lemma ShouldBePurged_at_boundary :
  LastStatus exampleInformation = statusRunning /\
  ~ excludedBySubdomain exampleInformation exampleParams /\
  ~ excludedByTag exampleInformation exampleParams /\
  ~ excludedByRegexp exampleInformation exampleParams /\
  ~ Created exampleInformation < fiveMinutes - Duration exampleParams /\
  ShouldBePurged fiveMinutes exampleInformation exampleParams = true.
Proof.
  split; [reflexivity|]. split; [|split; [|split; [|split]]].
  - unfold excludedBySubdomain. cbn [excludesMap exampleParams]. apply not_elem_of_empty.
  - intros (t & _ & Ht). cbn [excludeTagsMap exampleParams] in Ht.
    rewrite lookup_empty in Ht. discriminate.
  - intros (re & Hre & _). discriminate.
  - cbn [Created exampleInformation Duration exampleParams]. lia.
  - vm_compute. reflexivity.
Qed.

(** The least duration is met: a purge request for 2 ^ 54 seconds passes
    [Validate], the product with [time.Second] wraps around to [- 2 ^ 63],
    and with it no task is purged that was created in the last 292
    years. *)
Lemma ShouldBePurged_least_duration :
  webapi.Validate leastInt64 (fun _ => None) leastRequest = inl leastParams /\
  Duration leastParams = - 2 ^ 63 /\
  ShouldBePurged (10 * reverseproxy.Minute) exampleInformation leastParams = false.
Proof. split; [|split]; vm_compute; reflexivity. Qed.

End purge_facts.

(** ** The transport of a handler *)

Section transport_facts.

Import reverseproxy gostrings.

#[local] Open Scope string_scope.

Lemma HasPrefix_app p s : HasPrefix (p ++ s) p = true.
Proof.
  induction p as [|c p IH].
  - destruct s; reflexivity.
  - change (String c p ++ s) with (String c (p ++ s)). cbn [HasPrefix].
    rewrite Ascii.eqb_refl. exact IH.
Qed.

Lemma Contains_prefix p s : Contains (p ++ s) p = true.
Proof.
  destruct (p ++ s) eqn:E; cbn [Contains]; rewrite <- E, HasPrefix_app; reflexivity.
Qed.

Lemma Contains_skip pre s x : Contains s x = true -> Contains (pre ++ s) x = true.
Proof.
  intros H. induction pre as [|c pre IH]; [exact H|].
  change (String c pre ++ s) with (String c (pre ++ s)). cbn [Contains].
  rewrite IH. apply orb_true_r.
Qed.

Lemma append_empty s : s ++ "" = s.
Proof.
  induction s as [|c s IH]; [reflexivity|].
  change (String c s ++ "") with (String c (s ++ "")). rewrite IH. reflexivity.
Qed.

Lemma Contains_self s : Contains s s = true.
Proof. rewrite <- (append_empty s) at 1. apply Contains_prefix. Qed.

Lemma newTimeoutResponse_body subdomain u err :
  let body := Body (newTimeoutResponse subdomain u err) in
  Contains body subdomain = true /\ Contains body u = true /\ Contains body err = true.
Proof.
  cbn [newTimeoutResponse Body]. repeat split.
  - apply Contains_prefix.
  - apply Contains_skip, Contains_skip, Contains_prefix.
  - apply Contains_skip, Contains_skip, Contains_skip, Contains_skip, Contains_self.
Qed.

(** The end of [RoundTrip]: the request reaches the wrapped transport, whose
    response is returned; its error is returned unless it holds [timeout]. *)
Lemma RoundTrip_forward_spec t req h logs :
  forwarded (snd (RoundTrip_forward t req h logs)) = [req] /\
  fst (RoundTrip_forward t req h logs)
  = match Transport_ t req with
    | inl resp => inl resp
    | inr err =>
        if Contains err "timeout"
        then inl (newTimeoutResponse (Subdomain t) (URL req) err) else inr err
    end.
Proof.
  unfold RoundTrip_forward. destruct (Transport_ t req) as [resp|err]; [auto|].
  destruct (Contains err "timeout"); auto.
Qed.

(** A call that reaches the wrapped transport ends as [RoundTrip_forward]. *)
Lemma RoundTrip_reaches now t req h :
  reachesUpstream now t req h ->
  exists h1 logs, RoundTrip now t req h = RoundTrip_forward t req h1 logs.
Proof.
  unfold reachesUpstream, RoundTrip. intros Hreach.
  destruct (AuthCookieValidateFunc t) as [validate|]; [|eauto].
  destruct (negb (String.eqb (Method req) MethodOptions)); [|eauto].
  destruct (Request_Cookie req AuthCookieName) as [cookie|]; [|discriminate].
  destruct (validate cookie); [discriminate|eauto].
Qed.

(** The calls that reach the wrapped transport are those the cookie gate
    lets through. *)
Lemma reachesUpstream_iff now t req h :
  reachesUpstream now t req h <->
  match AuthCookieValidateFunc t with
  | None => True
  | Some validate =>
      Method req = MethodOptions \/
      exists cookie, Request_Cookie req AuthCookieName = Some cookie /\ validate cookie = None
  end.
Proof.
  unfold reachesUpstream, RoundTrip.
  destruct (AuthCookieValidateFunc t) as [validate|];
    [|split; [trivial|intros _; apply RoundTrip_forward_spec]].
  destruct (String.eqb_spec (Method req) MethodOptions) as [Hm|Hm]; cbn [negb].
  - split; [auto|intros _; apply RoundTrip_forward_spec].
  - destruct (Request_Cookie req AuthCookieName) as [cookie|].
    + destruct (validate cookie) as [err|] eqn:Hv.
      * split; [discriminate|]. intros [?|(c & [= <-] & Hc)]; [contradiction|congruence].
      * split; [eauto|intros _; apply RoundTrip_forward_spec].
    + split; [discriminate|]. intros [?|(c & Hc & _)]; [contradiction|discriminate].
Qed.

(** C6.  When the wrapped transport is reached and returns an error, an
    error whose message holds [timeout] becomes a response (no error) of
    status 504 whose body holds the subdomain, the URL of the request and
    the message; any other error is returned as it is. *)
Theorem RoundTrip_upstream_error now t req h err :
  reachesUpstream now t req h ->
  Transport_ t req = inr err ->
  (Contains err "timeout" = true ->
   exists resp, fst (RoundTrip now t req h) = inl resp /\
     StatusCode resp = 504 /\
     Contains (Body resp) (Subdomain t) = true /\
     Contains (Body resp) (URL req) = true /\
     Contains (Body resp) err = true) /\
  (Contains err "timeout" = false -> fst (RoundTrip now t req h) = inr err).
Proof.
  intros Hreach Hup. destruct (RoundTrip_reaches _ _ _ _ Hreach) as (h1 & logs & ->).
  destruct (RoundTrip_forward_spec t req h1 logs) as [_ ->]. rewrite Hup.
  destruct (newTimeoutResponse_body (Subdomain t) (URL req) err) as (B1 & B2 & B3).
  split; intros ->; [|reflexivity].
  eexists. split; [reflexivity|]. repeat split; assumption.
Qed.

(** C7.  With a validator configured: for a method other than OPTIONS, a
    request without the cookie [mirage-ecs-auth], or with one the validator
    rejects, gets the response 403 with the body [Forbidden] and does not
    reach the wrapped transport; an OPTIONS request, or one with a cookie
    the validator accepts, is handed to the wrapped transport. *)
Theorem RoundTrip_cookie_gate now t req h validate :
  AuthCookieValidateFunc t = Some validate ->
  (Method req <> MethodOptions ->
   Request_Cookie req AuthCookieName = None \/
   (exists cookie err, Request_Cookie req AuthCookieName = Some cookie /\
                       validate cookie = Some err) ->
   fst (RoundTrip now t req h) = inl (mkResponse 403 "Forbidden") /\
   forwarded (snd (RoundTrip now t req h)) = []) /\
  (Method req = MethodOptions \/
   (exists cookie, Request_Cookie req AuthCookieName = Some cookie /\ validate cookie = None) ->
   forwarded (snd (RoundTrip now t req h)) = [req] /\
   fst (RoundTrip now t req h)
   = match Transport_ t req with
     | inl resp => inl resp
     | inr err =>
         if Contains err "timeout"
         then inl (newTimeoutResponse (Subdomain t) (URL req) err) else inr err
     end).
Proof.
  intros Hv. unfold RoundTrip. rewrite Hv. split.
  - intros Hm Hc. apply String.eqb_neq in Hm. rewrite Hm. cbn [negb].
    destruct Hc as [->|(cookie & err & -> & ->)]; split; reflexivity.
  - intros Hc.
    destruct (String.eqb_spec (Method req) MethodOptions) as [Hm|Hm]; cbn [negb].
    + apply RoundTrip_forward_spec.
    + destruct Hc as [?|(cookie & -> & ->)]; [contradiction|]. apply RoundTrip_forward_spec.
Qed.

End transport_facts.

Section transport_examples.

Import reverseproxy gostrings.

#[local] Open Scope string_scope.

(** The upstream of scenario S3: the request carries a cookie the validator
    accepts, and the dial times out. *)
Lemma RoundTrip_upstream_error_witness :
  reachesUpstream 0 (exampleTransport "dial tcp 10.0.0.5:80: i/o timeout")
                  (exampleRequest "GET" [mkCookie AuthCookieName "ok"]) ∅ /\
  (Contains "dial tcp 10.0.0.5:80: i/o timeout" "timeout" = true ->
   exists resp,
     fst (RoundTrip 0 (exampleTransport "dial tcp 10.0.0.5:80: i/o timeout")
                    (exampleRequest "GET" [mkCookie AuthCookieName "ok"]) ∅) = inl resp /\
     StatusCode resp = 504 /\
     Contains (Body resp) "feature-x" = true /\
     Contains (Body resp) "http://10.0.0.5:80/" = true /\
     Contains (Body resp) "dial tcp 10.0.0.5:80: i/o timeout" = true) /\
  (Contains "dial tcp 10.0.0.5:80: i/o timeout" "timeout" = false ->
   fst (RoundTrip 0 (exampleTransport "dial tcp 10.0.0.5:80: i/o timeout")
                  (exampleRequest "GET" [mkCookie AuthCookieName "ok"]) ∅)
   = inr "dial tcp 10.0.0.5:80: i/o timeout").
Proof.
  assert (H1 : reachesUpstream 0 (exampleTransport "dial tcp 10.0.0.5:80: i/o timeout")
                 (exampleRequest "GET" [mkCookie AuthCookieName "ok"]) ∅)
    by (vm_compute; reflexivity).
  split; [exact H1|].
  exact (RoundTrip_upstream_error 0 (exampleTransport "dial tcp 10.0.0.5:80: i/o timeout")
           (exampleRequest "GET" [mkCookie AuthCookieName "ok"]) ∅
           "dial tcp 10.0.0.5:80: i/o timeout" H1 eq_refl).
Defined.

(** Scenario S4: the validator of the example configuration, and a request
    without cookies. *)
Lemma RoundTrip_cookie_gate_witness :
  AuthCookieValidateFunc (exampleTransport "connection refused")
  = Some (Auth_ValidateAuthCookie exampleConfig) /\
  fst (RoundTrip 0 (exampleTransport "connection refused") (exampleRequest "GET" []) ∅)
  = inl (mkResponse 403 "Forbidden") /\
  forwarded (snd (RoundTrip 0 (exampleTransport "connection refused")
                            (exampleRequest "GET" []) ∅)) = [].
Proof.
  split; [reflexivity|].
  apply (RoundTrip_cookie_gate 0 (exampleTransport "connection refused")
           (exampleRequest "GET" []) ∅ (Auth_ValidateAuthCookie exampleConfig) eq_refl).
  - vm_compute. discriminate.
  - left. reflexivity.
Defined.

End transport_examples.

(** ** Listings *)

Section list_facts.

Import ecs.

#[local] Open Scope string_scope.

Lemma getTags_found tags name v :
  getTags tags name = Returns v -> v <> "" ->
  exists t, In t tags /\ Key t = Some name /\ Value t = Some v.
Proof.
  induction tags as [|t tags IH]; cbn [getTags]; intros H Hv.
  - injection H as <-. contradiction.
  - destruct (Key t) as [k|] eqn:Hk; cbn [deref bind] in H; [|discriminate].
    destruct (String.eqb_spec k name) as [->|Hne].
    + destruct (Value t) as [v'|] eqn:Hval; cbn [deref] in H; [|discriminate].
      injection H as <-. exists t. repeat split; auto. left; reflexivity.
    + destruct (IH H Hv) as (t' & Hin & H1 & H2). exists t'. repeat split; auto.
      right; assumption.
Qed.

(** An entry that [List] appends carries the tags of its task, and the
    subdomain decoded from the tag [Subdomain]. *)
Lemma informationOf_entry svc t cache info cache' :
  informationOf svc t cache = Returns (Some info, cache') ->
  getTags (TaskTags t) TagManagedBy = Returns TagValueMirage /\
  (exists sub, getTags (TaskTags t) "Subdomain" = Returns sub /\
               SubDomain info = decodeTagValue sub) /\
  TaskArn t = Some (ID info) /\ TaskLastStatus t = Some (LastStatus info) /\
  Tags info = TaskTags t /\ task info = t.
Proof.
  unfold informationOf, getTagsFromTask.
  destruct (getTags (TaskTags t) TagManagedBy) as [m|] eqn:Hm; cbn [bind]; [|discriminate].
  destruct (String.eqb_spec m TagValueMirage) as [->|Hne]; cbn [negb]; [|discriminate].
  destruct (TaskArn t); cbn [deref bind]; [|discriminate].
  destruct (getTags (TaskTags t) "Subdomain") as [sub|]; cbn [bind]; [|discriminate].
  destruct (getEnvironmentFromTask (Overrides t) "GIT_BRANCH"); cbn [bind]; [|discriminate].
  destruct (TaskDefinitionArn t); cbn [deref bind]; [|discriminate].
  destruct (getIPV4AddressFromTask (Attachments t)); cbn [bind]; [|discriminate].
  destruct (TaskLastStatus t); cbn [deref bind]; [|discriminate].
  destruct (getEnvironmentsFromTask (Overrides t)); cbn [bind]; [|discriminate].
  destruct (portMapInTask svc t cache) as [[portMap c]|]; cbn [bind]; [|discriminate].
  intros [= <- <-]. cbn [Tags task ID LastStatus SubDomain].
  split; [reflexivity|]. split; [exists sub; split; reflexivity|]. repeat split.
Qed.

Lemma informationOf_managed svc t cache info cache' :
  informationOf svc t cache = Returns (Some info, cache') -> managed info /\ task info = t.
Proof.
  intros H. destruct (informationOf_entry _ _ _ _ _ H) as (Hm & _ & _ & _ & Htags & Ht).
  split; [|exact Ht]. unfold managed. rewrite Htags. split; [exact Hm|].
  apply getTags_found; [exact Hm|discriminate].
Qed.

Lemma informationsOf_managed svc tasks : forall cache infos cache',
  informationsOf svc tasks cache = Returns (infos, cache') -> List.Forall managed infos.
Proof.
  induction tasks as [|t tasks IH]; cbn [informationsOf]; intros cache infos cache' H.
  - injection H as <- <-. constructor.
  - destruct (informationOf svc t cache) as [[i cache1]|] eqn:Hi; cbn [bind] in H;
      [|discriminate].
    destruct (informationsOf svc tasks cache1) as [[rest cache2]|] eqn:Hrest; cbn [bind] in H;
      [|discriminate].
    injection H as <- <-. specialize (IH _ _ _ Hrest).
    destruct i as [info|]; [|exact IH].
    constructor; [|exact IH]. eapply informationOf_managed. exact Hi.
Qed.

(** The order of Go on strings, byte by byte, is a strict total order. *)
Lemma ltb_lt a b : String.ltb a b = true <-> OrderedTypeEx.String_as_OT.lt a b.
Proof.
  rewrite <- OrderedTypeEx.String_as_OT.cmp_lt. unfold String.ltb, OrderedTypeEx.String_as_OT.cmp.
  destruct (String.compare a b); split; congruence.
Qed.

Lemma ltb_irrefl a : String.ltb a a = false.
Proof.
  destruct (String.ltb a a) eqn:H; [|reflexivity].
  apply ltb_lt in H. exfalso. exact (OrderedTypeEx.String_as_OT.lt_not_eq _ _ H eq_refl).
Qed.

Lemma ltb_trans a b c :
  String.ltb a b = true -> String.ltb b c = true -> String.ltb a c = true.
Proof.
  rewrite !ltb_lt. apply OrderedTypeEx.String_as_OT.lt_trans.
Qed.

Lemma ltb_false a b : String.ltb a b = false <-> bytewiseLe b a.
Proof.
  unfold bytewiseLe. split.
  - intros H. destruct (OrderedTypeEx.String_as_OT.compare b a) as [Hlt|Heq|Hgt].
    + right. exact Hlt.
    + left. exact Heq.
    + apply ltb_lt in Hgt. congruence.
  - intros [->|Hlt]; [apply ltb_irrefl|].
    destruct (String.ltb a b) eqn:H; [|reflexivity]. apply ltb_lt in H.
    exfalso. eapply OrderedTypeEx.String_as_OT.lt_not_eq; [|reflexivity].
    eapply OrderedTypeEx.String_as_OT.lt_trans; eassumption.
Qed.

Lemma bytewiseLe_trans a b c : bytewiseLe a b -> bytewiseLe b c -> bytewiseLe a c.
Proof.
  intros [->|Hab] [->|Hbc]; [left; reflexivity|right; assumption|right; assumption|].
  right. eapply OrderedTypeEx.String_as_OT.lt_trans; eassumption.
Qed.

(** The comparison that [List] hands to [sort.Slice] is one that
    [sort.Slice] accepts. *)
Lemma lessSubDomain_strictWeakOrdering : strictWeakOrdering lessSubDomain.
Proof.
  unfold strictWeakOrdering, lessSubDomain. split; [|split].
  - intros a. apply ltb_irrefl.
  - intros a b c. apply ltb_trans.
  - intros a b c. rewrite !ltb_false. intros H1 H2. eapply bytewiseLe_trans; eassumption.
Qed.

(** A list sorted by that comparison is in ascending order of the
    subdomains. *)
Lemma sortedBy_lessSubDomain l : sortedBy lessSubDomain l -> ascending l.
Proof.
  unfold sortedBy, ascending. induction 1 as [|a l Hl IH Ha]; constructor; [exact IH|].
  eapply List.Forall_impl; [|exact Ha]. intros b Hb. apply ltb_false. exact Hb.
Qed.

Lemma insertSorted_permutation less x l : Permutation (insertSorted less x l) (x :: l).
Proof.
  induction l as [|y l IH]; cbn [insertSorted]; [reflexivity|].
  destruct (less x y); [reflexivity|].
  rewrite IH. apply perm_swap.
Qed.

Lemma insertionSort_permutation less l : Permutation (insertionSort less l) l.
Proof.
  induction l as [|x l IH]; [reflexivity|].
  cbn [insertionSort fold_right]. rewrite insertSorted_permutation.
  apply perm_skip. exact IH.
Qed.

Lemma insertSorted_sortedBy less x l :
  strictWeakOrdering less -> sortedBy less l -> sortedBy less (insertSorted less x l).
Proof.
  intros (Hirr & Htrans & _). unfold sortedBy.
  induction 1 as [|y l Hl IH Hy]; cbn [insertSorted].
  - repeat constructor.
  - destruct (less x y) eqn:Hxy.
    + constructor; [constructor; assumption|].
      constructor.
      * destruct (less y x) eqn:Hyx; [|reflexivity].
        rewrite <- (Hirr x). symmetry. eapply Htrans; eassumption.
      * rewrite List.Forall_forall in Hy |- *. intros z Hz.
        destruct (less z x) eqn:Hzx; [|reflexivity].
        rewrite <- (Hy z Hz). symmetry. eapply Htrans; eassumption.
    + constructor; [exact IH|].
      eapply Permutation_Forall; [symmetry; apply insertSorted_permutation|].
      constructor; assumption.
Qed.

Lemma insertionSort_sortedBy less :
  strictWeakOrdering less -> forall l, sortedBy less (insertionSort less l).
Proof.
  intros Hless l. induction l as [|x l IH]; [constructor|].
  cbn [insertionSort fold_right]. apply insertSorted_sortedBy; assumption.
Qed.

Lemma List_pages_returns sort_Slice fuel svc desiredStatus : forall nextToken acc cache,
  pagesEndWithin fuel svc desiredStatus nextToken = true ->
  exists r, List_pages sort_Slice fuel svc desiredStatus nextToken acc cache = Some r.
Proof.
  induction fuel as [|fuel IH]; intros nextToken acc cache H; cbn [pagesEndWithin] in H;
    [discriminate|].
  cbn [List_pages]. destruct (ListTasks svc nextToken desiredStatus) as [listOut|e]; [|eauto].
  destruct (length (TaskArns listOut) =? 0)%nat; [eauto|].
  destruct (DescribeTasks svc (TaskArns listOut)) as [tasks|e]; [|eauto].
  destruct (informationsOf svc tasks cache) as [[new cache']|]; [|eauto].
  destruct (NextToken listOut) as [token|]; [|eauto].
  apply IH. exact H.
Qed.

(** Every entry of a listing is managed by the gateway, whatever the
    listing returns with it, as long as sorting rearranges. *)
Lemma List_pages_managed sort_Slice fuel svc desiredStatus :
  (forall l, Permutation (sort_Slice lessSubDomain l) l) ->
  forall nextToken acc cache infos err cache',
    List.Forall managed acc ->
    List_pages sort_Slice fuel svc desiredStatus nextToken acc cache
    = Some (Returns (infos, err, cache')) ->
    List.Forall managed infos.
Proof.
  intros Hperm.
  induction fuel as [|fuel IH]; intros nextToken acc cache infos err cache' Hacc H;
    cbn [List_pages] in H.
  - discriminate.
  - destruct (ListTasks svc nextToken desiredStatus) as [listOut|e].
    2:{ injection H as <- <- <-. constructor. }
    destruct (length (TaskArns listOut) =? 0)%nat.
    { injection H as <- <- <-. constructor. }
    destruct (DescribeTasks svc (TaskArns listOut)) as [tasks|e].
    2:{ injection H as <- <- <-. assumption. }
    destruct (informationsOf svc tasks cache) as [[new cache1]|] eqn:Hnew; [|discriminate].
    assert (Hall : List.Forall managed (acc ++ new)).
    { apply List.Forall_app. split; [assumption|]. eapply informationsOf_managed. exact Hnew. }
    destruct (NextToken listOut) as [token|].
    + eapply IH; eassumption.
    + injection H as <- <- <-.
      eapply Permutation_Forall; [|exact Hall]. symmetry. apply Hperm.
Qed.

Section with_sort.

Variable sort_Slice : (Information -> Information -> bool) -> list Information -> list Information.

(** What [sort.Slice] promises: the slice is rearranged in place, and for
    a comparison that is a strict weak ordering no element is afterwards
    less than an earlier one. *)
Hypothesis sort_Slice_permutation :
  forall less l, Permutation (sort_Slice less l) l.
Hypothesis sort_Slice_sorted :
  forall less, strictWeakOrdering less -> forall l, sortedBy less (sort_Slice less l).

Lemma List_pages_sorted fuel svc desiredStatus : forall nextToken acc cache infos cache',
  List_pages sort_Slice fuel svc desiredStatus nextToken acc cache
  = Some (Returns (infos, None, cache')) ->
  ascending infos.
Proof.
  induction fuel as [|fuel IH]; intros nextToken acc cache infos cache' H;
    cbn [List_pages] in H.
  - discriminate.
  - destruct (ListTasks svc nextToken desiredStatus) as [listOut|e]; [|discriminate].
    destruct (length (TaskArns listOut) =? 0)%nat.
    { injection H as <- <-. constructor. }
    destruct (DescribeTasks svc (TaskArns listOut)) as [tasks|e]; [|discriminate].
    destruct (informationsOf svc tasks cache) as [[new cache1]|]; [|discriminate].
    destruct (NextToken listOut) as [token|].
    + eapply IH; eassumption.
    + injection H as <- <-. apply sortedBy_lessSubDomain.
      apply sort_Slice_sorted. exact lessSubDomain_strictWeakOrdering.
Qed.


End with_sort.

(** A listing of the example cluster: the task of another owner is left
    out, and the two others come in the order of their subdomains. *)
Lemma List_example :
  (match List_ insertionSort 1 exampleClient statusRunning ∅ with
   | Some (Returns (infos, err, _)) => (map SubDomain infos, map ID infos, err)
   | _ => ([], [], None)
   end) = (["feature-x"; "pr-42"], ["t3"; "t1"], None).
Proof. vm_compute. reflexivity. Qed.

Lemma unsorted_pair (infos : list Information) :
  map SubDomain infos = ["pr-42"; "feature-x"] -> ~ ascending infos.
Proof.
  intros Hs Hasc. destruct infos as [|a [|b [|c l]]]; try discriminate.
  injection Hs as Ha Hb. unfold ascending in Hasc.
  apply StronglySorted_inv in Hasc. destruct Hasc as [_ Hall].
  apply List.Forall_cons_iff in Hall. destruct Hall as [Hle _].
  rewrite Ha, Hb in Hle. apply ltb_false in Hle.
  assert (E : String.ltb "feature-x" "pr-42" = true) by (vm_compute; reflexivity).
  congruence.
Qed.



End list_facts.


(** * Further properties *)

(** ** The registry as a whole *)

Section removeFirst_facts.

Import reverseproxy.

Lemma existsb_eqb_In s l : existsb (String.eqb s) l = true <-> In s l.
Proof.
  rewrite List.existsb_exists. split.
  - intros (x & Hin & Heq). apply String.eqb_eq in Heq. subst. exact Hin.
  - intros Hin. exists s. split; [exact Hin|apply String.eqb_refl].
Qed.

Lemma removeFirst_notin s l : ~ In s l -> removeFirst s l = l.
Proof.
  induction l as [|n l IH]; [reflexivity|]. intros Hn. cbn [removeFirst].
  destruct (String.eqb_spec n s) as [->|Hne]; [exfalso; apply Hn; left; reflexivity|].
  rewrite IH; [reflexivity|]. intros Hin. apply Hn. right. exact Hin.
Qed.

Lemma removeFirst_app s l : ~ In s l -> removeFirst s (l ++ [s]) = l.
Proof.
  induction l as [|n l IH]; intros Hn.
  - cbn. rewrite String.eqb_refl. reflexivity.
  - cbn [app removeFirst].
    destruct (String.eqb_spec n s) as [->|Hne]; [exfalso; apply Hn; left; reflexivity|].
    rewrite IH; [reflexivity|]. intros Hin. apply Hn. right. exact Hin.
Qed.

Lemma removeFirst_In s l n : NoDup l -> (In n (removeFirst s l) <-> In n l /\ n <> s).
Proof.
  induction 1 as [|x l Hx Hl IH]; cbn [removeFirst]; [cbn; tauto|].
  destruct (String.eqb_spec x s) as [->|Hne].
  - split.
    + intros Hin. split; [right; exact Hin|]. intros ->. apply Hx.
      apply list_elem_of_In. exact Hin.
    + intros [[->|Hin] Hns]; [contradiction|exact Hin].
  - cbn [In]. rewrite IH. split.
    + intros [->|[Hin Hns]]; [split; [left; reflexivity|exact Hne]|split; [right|]; assumption].
    + intros [[->|Hin] Hns]; [left; reflexivity|right; split; assumption].
Qed.

Lemma removeFirst_NoDup s l : NoDup l -> NoDup (removeFirst s l).
Proof.
  induction 1 as [|x l Hx Hl IH]; cbn [removeFirst]; [constructor|].
  destruct (String.eqb x s); [exact Hl|].
  constructor; [|exact IH]. intros Hin. apply Hx.
  apply list_elem_of_In. apply list_elem_of_In in Hin.
  apply (removeFirst_In s l x Hl) in Hin. apply Hin.
Qed.

End removeFirst_facts.

Section registry_invariant.

Import reverseproxy.

Variable url_Parse : string -> string + string.
Variable newHTTPTransport : Z -> RoundTripper.

Lemma NewReverseProxy_wellFormed lifetime c : wellFormed (NewReverseProxy lifetime c).
Proof.
  split; [constructor|]. split; intros n; cbn [NewReverseProxy domains domainMap].
  - rewrite lookup_empty. split; [intros []|intros [? ?]; discriminate].
  - rewrite lookup_empty. intros [? ?]; discriminate.
Qed.

Lemma AddSubdomain_wellFormed now h r subdomain ipaddress targetPort :
  wellFormed r ->
  wellFormed (snd (fst (AddSubdomain url_Parse newHTTPTransport now h r
                                     subdomain ipaddress targetPort))).
Proof.
  intros (Hnd & Hdom & Hcnt). unfold AddSubdomain.
  set (counted := match accessCounters r !! subdomain with
                  | Some c => (c, h, accessCounters r)
                  | None => (fresh (dom h),
                             <[fresh (dom h) := NewAccessCounter (accessCounterUnit r)]> h,
                             <[subdomain := fresh (dom h)]> (accessCounters r))
                  end).
  assert (Hc : forall n, is_Some (accessCounters r !! n) \/ n = subdomain ->
                         is_Some (snd counted !! n)).
  { intros n Hn. subst counted. destruct (accessCounters r !! subdomain) as [c|] eqn:E;
      cbn [snd].
    - destruct Hn as [?| ->]; [assumption|eauto].
    - destruct (decide (subdomain = n)) as [->|Hne];
        [rewrite lookup_insert_eq; eauto|rewrite lookup_insert_ne by assumption].
      destruct Hn as [?| ->]; [assumption|contradiction]. }
  destruct counted as [[counter h1] counters1]. cbn [snd] in Hc.
  destruct (fold_left _ _ _) as [[ph proxy] logs]. destruct proxy; cbn [negb snd fst].
  - split; [|split]; cbn [domains domainMap accessCounters].
    + destruct (existsb (String.eqb subdomain) (domains r)) eqn:Hex; [exact Hnd|].
      apply NoDup_app. split; [exact Hnd|]. split; [|apply NoDup_singleton].
      intros x Hx Hx'. apply list_elem_of_singleton in Hx'. subst x.
      apply list_elem_of_In, existsb_eqb_In in Hx. congruence.
    + intros n. destruct (decide (subdomain = n)) as [->|Hne].
      * rewrite lookup_insert_eq. split; [eauto|]. intros _.
        destruct (existsb (String.eqb n) (domains r)) eqn:Hex.
        -- apply existsb_eqb_In. exact Hex.
        -- apply in_or_app. right. left. reflexivity.
      * rewrite lookup_insert_ne by assumption. rewrite <- Hdom.
        destruct (existsb (String.eqb subdomain) (domains r)); [reflexivity|].
        rewrite in_app_iff. cbn [In]. split; [intros [?|[?|[]]]; [assumption|contradiction]|auto].
    + intros n. destruct (decide (subdomain = n)) as [->|Hne].
      * intros _. apply Hc. right. reflexivity.
      * rewrite lookup_insert_ne by assumption. intros Hs. apply Hc; auto.
  - assert (Hsame : forall n,
              is_Some ((if bool_decide (is_Some (domainMap r !! subdomain))
                        then <[subdomain := ph]> (domainMap r) else domainMap r) !! n)
              <-> is_Some (domainMap r !! n)).
    { intros n. case_bool_decide as Hreg; [|reflexivity].
      destruct (decide (subdomain = n)) as [->|Hne].
      - rewrite lookup_insert_eq. split; eauto.
      - rewrite lookup_insert_ne by assumption. reflexivity. }
    split; [|split]; cbn [domains domainMap accessCounters].
    + exact Hnd.
    + intros n. rewrite Hsame. apply Hdom.
    + intros n. rewrite Hsame. intros Hs. apply Hc; auto.
Qed.

Lemma RemoveSubdomain_wellFormed r subdomain :
  wellFormed r -> wellFormed (fst (RemoveSubdomain r subdomain)).
Proof.
  intros (Hnd & Hdom & Hcnt). unfold RemoveSubdomain. cbn [fst].
  split; [|split]; cbn [domains domainMap accessCounters].
  - apply removeFirst_NoDup. exact Hnd.
  - intros n. rewrite removeFirst_In by exact Hnd. rewrite Hdom.
    destruct (decide (subdomain = n)) as [->|Hne].
    + rewrite lookup_delete_eq. split; [intros [_ ?]; contradiction|intros [? ?]; discriminate].
    + rewrite lookup_delete_ne by assumption. split; [tauto|]. intros ?. split; [assumption|].
      congruence.
  - intros n. destruct (decide (subdomain = n)) as [->|Hne].
    + rewrite lookup_delete_eq. intros [? ?]; discriminate.
    + rewrite !lookup_delete_ne by assumption. apply Hcnt.
Qed.

Lemma FindHandler_wellFormed now order r s port :
  wellFormed r -> wellFormed (snd (fst (FindHandler now order r s port))).
Proof.
  intros Hwf. pose proof Hwf as (Hnd & Hdom & Hcnt). unfold FindHandler.
  assert (Hkeep : forall name ph ph',
            domainMap r !! name = Some ph ->
            wellFormed {| cfg := cfg r; domains := domains r;
                          domainMap := <[name := ph']> (domainMap r);
                          accessCounters := accessCounters r;
                          accessCounterUnit := accessCounterUnit r;
                          proxyHandlerLifetime := proxyHandlerLifetime r |}).
  { intros name ph ph' Hph.
    assert (Hsame : forall n, is_Some (<[name := ph']> (domainMap r) !! n)
                              <-> is_Some (domainMap r !! n)).
    { intros n. destruct (decide (name = n)) as [->|Hne].
      - rewrite lookup_insert_eq. split; eauto.
      - rewrite lookup_insert_ne by assumption. reflexivity. }
    split; [exact Hnd|]. split; intros n; cbn [domains domainMap accessCounters];
      rewrite Hsame; auto. }
  destruct (domainMap r !! s) as [ph|] eqn:Hs.
  - destruct (Handler_ now order ph port) as [[res ph'] logs]. cbn [snd fst].
    eapply Hkeep. exact Hs.
  - destruct (firstMatch r s) as [name|]; [|exact Hwf].
    destruct (domainMap r !! name) as [ph|] eqn:Hn; [|exact Hwf].
    destruct (Handler_ now order ph port) as [[res ph'] logs]. cbn [snd fst].
    eapply Hkeep. exact Hn.
Qed.

(** X1.  The registry stays consistent: a new registry is, and [Modify] with
    any action (so [AddSubdomain] and [RemoveSubdomain]) and [FindHandler]
    keep it so. *)
Theorem registry_wellFormed :
  (forall lifetime c, wellFormed (NewReverseProxy lifetime c)) /\
  (forall now h r action,
     wellFormed r ->
     wellFormed (snd (fst (Modify url_Parse newHTTPTransport now h r action)))) /\
  (forall now order r s port,
     wellFormed r -> wellFormed (snd (fst (FindHandler now order r s port)))).
Proof.
  split; [exact NewReverseProxy_wellFormed|]. split; [|exact FindHandler_wellFormed].
  intros now h r action Hwf. unfold Modify.
  destruct (String.eqb (Action action) proxyAdd); [apply AddSubdomain_wellFormed; exact Hwf|].
  destruct (String.eqb (Action action) proxyRemove); [|exact Hwf].
  pose proof (RemoveSubdomain_wellFormed r (ControlSubdomain action) Hwf) as H.
  destruct (RemoveSubdomain r (ControlSubdomain action)) as [r' logs]. exact H.
Qed.

End registry_invariant.


(** ** Registration followed by lookups *)

Section registry_lookup.

Import reverseproxy.

Variable url_Parse : string -> string + string.
Variable newHTTPTransport : Z -> RoundTripper.
Variable Map_unicode_ToLower : string -> string.

#[local] Abbreviation round := (AddSubdomain_step url_Parse newHTTPTransport).

(** A handler of the address on [port] with the full lifetime from [now]. *)
#[local] Abbreviation fullLifetime lifetime now port addr :=
  (fun ph : proxyHandlers =>
     exists hd, onPort ph port addr = Some hd /\ timer hd = now + lifetime).

Lemma exists_dead lifetime now ph port addr :
  fst (fst (exists_ lifetime now ph port addr)) = false ->
  onPort (snd (fst (exists_ lifetime now ph port addr))) port addr = None.
Proof.
  unfold exists_, onPort.
  destruct (ph !! port) as [m|] eqn:Hm; cbn [fst snd]; [|intros _; rewrite Hm; reflexivity].
  destruct (m !! addr) as [h|] eqn:Hh; cbn [fst snd]; [|intros _; rewrite Hm; exact Hh].
  destruct (alive now h); cbn [fst snd]; [discriminate|]. intros _.
  rewrite lookup_insert_eq. apply lookup_delete_eq.
Qed.

Lemma exists_found lifetime now ph port addr :
  fst (fst (exists_ lifetime now ph port addr)) = true ->
  exists hd, onPort ph port addr = Some hd /\ alive now hd = true /\
    onPort (snd (fst (exists_ lifetime now ph port addr))) port addr
    = Some (extend lifetime now hd).
Proof.
  unfold exists_, onPort.
  destruct (ph !! port) as [m|] eqn:Hm; cbn [fst snd]; [|discriminate].
  destruct (m !! addr) as [h|] eqn:Hh; cbn [fst snd]; [|discriminate].
  destruct (alive now h) eqn:Hal; cbn [fst snd]; [|discriminate]. intros _.
  exists h. rewrite !lookup_insert_eq. auto.
Qed.

Lemma add_at lifetime now ph port addr h :
  onPort (fst (add lifetime now ph port addr h)) port addr
  = Some (newProxyHandler lifetime now h).
Proof. unfold add, onPort. cbn [fst]. rewrite !lookup_insert_eq. reflexivity. Qed.

(** One round of the loop of [AddSubdomain] keeps a handler with the full
    lifetime, and a round for the port that is not skipped and whose
    destination parses leaves one. *)
Lemma AddSubdomain_step_registers r now subdomain addr targetPort counter port
    ph proxy logs v ph1 proxy1 logs1 :
  0 < proxyHandlerLifetime r ->
  round r now subdomain addr targetPort counter (ph, proxy, logs) v = (ph1, proxy1, logs1) ->
  (fullLifetime (proxyHandlerLifetime r) now port addr ph ->
   fullLifetime (proxyHandlerLifetime r) now port addr ph1) /\
  (proxy = true -> proxy1 = true) /\
  (ListenPort v = port ->
   TargetPort v = targetPort \/ localMode (cfg r) = true ->
   (exists destUrl, url_Parse ("http://" ++ addr) = inl destUrl) ->
   fullLifetime (proxyHandlerLifetime r) now port addr ph1 /\ proxy1 = true).
Proof.
  intros Hlt Hstep. unfold AddSubdomain_step in Hstep.
  destruct (negb (TargetPort v =? targetPort) && negb (localMode (cfg r))) eqn:Hskip.
  { injection Hstep as <- <- <-. split; [auto|split; [auto|]]. intros _ [E|E] _; exfalso.
    - apply Z.eqb_eq in E. rewrite E in Hskip. discriminate.
    - rewrite E, andb_false_r in Hskip. discriminate. }
  pose proof (exists_found (proxyHandlerLifetime r) now ph (ListenPort v) addr) as Hfound.
  pose proof (exists_dead (proxyHandlerLifetime r) now ph (ListenPort v) addr) as Hdead.
  pose proof (fun p Hp => exists_other (proxyHandlerLifetime r) now ph (ListenPort v) addr
                            p addr Hp) as Hother.
  pose proof (fun hd0 H1 H2 =>
                proj1 (exists_live (proxyHandlerLifetime r) now ph (ListenPort v) addr
                                   hd0 H1 H2)) as Hlive.
  destruct (exists_ (proxyHandlerLifetime r) now ph (ListenPort v) addr)
    as [[found ph2] logs2]. cbn [fst snd] in Hfound, Hdead, Hother, Hlive.
  destruct found.
  - injection Hstep as <- <- <-.
    destruct (Hfound eq_refl) as (hd & Hhd & Hal & Hext).
    split; [|split; [auto|]].
    + intros (hd0 & Hhd0 & Ht0). destruct (decide (ListenPort v = port)) as [Hp|Hp].
      * rewrite <- Hp. eexists. split; [exact Hext|reflexivity].
      * rewrite Hother by congruence. eauto.
    + intros <- _ _. split; [|reflexivity]. eexists. split; [exact Hext|reflexivity].
  - specialize (Hdead eq_refl).
    assert (Hgone : fullLifetime (proxyHandlerLifetime r) now port addr ph ->
                    ListenPort v <> port).
    { intros (hd0 & Hhd0 & Ht0) <-.
      assert (Hal : alive now hd0 = true) by (unfold alive; apply Z.ltb_lt; lia).
      specialize (Hlive hd0 Hhd0 Hal). discriminate. }
    destruct (url_Parse ("http://" ++ addr)) as [destUrl|err] eqn:Hparse.
    + match type of Hstep with context [add ?a ?b ?c ?d ?e ?f] =>
        pose proof (fun p Hp => add_other a b c d e f p addr Hp) as Hadd;
        pose proof (add_at a b c d e f) as Hat;
        destruct (add a b c d e f) as [ph3 logs3] end.
      cbn [fst] in Hadd, Hat. injection Hstep as <- <- <-.
      split; [|split; [auto|]].
      * intros HQ. pose proof (Hgone HQ) as Hp. rewrite Hadd, Hother by congruence. exact HQ.
      * intros <- _ _. split; [|reflexivity]. eexists. split; [exact Hat|reflexivity].
    + injection Hstep as <- <- <-. split; [|split; [auto|]].
      * intros HQ. pose proof (Hgone HQ) as Hp. rewrite Hother by congruence. exact HQ.
      * intros _ _ [? Hinl]. discriminate.
Qed.

Lemma AddSubdomain_loop_registers r now subdomain addr targetPort counter port :
  0 < proxyHandlerLifetime r ->
  forall l ph proxy logs ph' proxy' logs',
    fold_left (round r now subdomain addr targetPort counter) l (ph, proxy, logs)
    = (ph', proxy', logs') ->
    (fullLifetime (proxyHandlerLifetime r) now port addr ph ->
     fullLifetime (proxyHandlerLifetime r) now port addr ph') /\
    (proxy = true -> proxy' = true) /\
    ((exists v, In v l /\ ListenPort v = port /\
                (TargetPort v = targetPort \/ localMode (cfg r) = true)) ->
     (exists destUrl, url_Parse ("http://" ++ addr) = inl destUrl) ->
     fullLifetime (proxyHandlerLifetime r) now port addr ph' /\ proxy' = true).
Proof.
  intros Hlt. induction l as [|v l IH]; intros ph proxy logs ph' proxy' logs' Hfold.
  - injection Hfold as <- <- <-. split; [auto|split; [auto|]]. intros (w & [] & _).
  - cbn [fold_left] in Hfold.
    destruct (round r now subdomain addr targetPort counter (ph, proxy, logs) v)
      as [[ph1 proxy1] logs1] eqn:Hstep.
    destruct (AddSubdomain_step_registers _ _ _ _ _ _ port _ _ _ _ _ _ _ Hlt Hstep)
      as (Hkeep1 & Hproxy1 & Hhere).
    destruct (IH _ _ _ _ _ _ Hfold) as (Hkeep & Hproxy & Hlater).
    split; [auto|split; [auto|]].
    intros (w & [<-|Hw] & Hport & Hsel) Hparse.
    + destruct (Hhere Hport Hsel Hparse) as [HQ ->]. auto.
    + apply Hlater; eauto.
Qed.

(** After [AddSubdomain], for a listen mapping that is not skipped and a
    destination that parses: the entry of the subdomain has a handler of the
    address on the listen port whose timer fires a full lifetime after the
    call. *)
Lemma AddSubdomain_registered now h r subdomain ipaddress targetPort v :
  0 < proxyHandlerLifetime r ->
  In v (Listen_HTTP (cfg r)) ->
  TargetPort v = targetPort \/ localMode (cfg r) = true ->
  let addr := gostrings.JoinHostPort ipaddress (gostrings.Itoa targetPort) in
  (exists destUrl, url_Parse ("http://" ++ addr) = inl destUrl) ->
  let r' := snd (fst (AddSubdomain url_Parse newHTTPTransport now h r
                                   subdomain ipaddress targetPort)) in
  (exists hd, registered r' subdomain (ListenPort v) addr = Some hd /\
              timer hd = now + proxyHandlerLifetime r) /\
  In subdomain (domains r') /\
  is_Some (accessCounters r' !! subdomain) /\
  proxyHandlerLifetime r' = proxyHandlerLifetime r.
Proof.
  intros Hlt Hv Hsel addr Hparse. unfold AddSubdomain. fold addr.
  set (alloc := match accessCounters r !! subdomain with
                | Some c => (c, h, accessCounters r)
                | None => _
                end).
  assert (Hcnt : is_Some (snd alloc !! subdomain)).
  { subst alloc. destruct (accessCounters r !! subdomain) as [c|] eqn:E; cbn [snd];
      [rewrite E; eauto|rewrite lookup_insert_eq; eauto]. }
  destruct alloc as [[counter h1] counters1]. cbn [snd] in Hcnt.
  match goal with |- context [fold_left ?f ?l ?st] =>
    destruct (fold_left f l st) as [[ph proxy] logs] eqn:Hfold end.
  destruct (AddSubdomain_loop_registers _ _ _ _ _ _ (ListenPort v) Hlt _ _ _ _ _ _ _ Hfold)
    as (_ & _ & Hreg).
  destruct Hreg as [HQ ->]; [eauto|exact Hparse|].
  cbn [negb snd fst]. split; [|split; [|split]].
  - rewrite registered_insert, decide_True by reflexivity. exact HQ.
  - cbn [domains]. destruct (existsb (String.eqb subdomain) (domains r)) eqn:Hex.
    + apply existsb_eqb_In. exact Hex.
    + apply in_or_app. right. left. reflexivity.
  - exact Hcnt.
  - reflexivity.
Qed.

(** X2.  [AddSubdomain] registers: for a listen mapping with the target port
    (or any mapping, in local mode) and a destination that parses, the call
    leaves a handler of the address on the listen port whose timer fires a
    full [proxyHandlerLifetime] after the call, whether the handler is new
    or was there; the subdomain is listed and has an access counter. *)
Theorem AddSubdomain_registers now h r subdomain ipaddress targetPort v :
  0 < proxyHandlerLifetime r ->
  In v (Listen_HTTP (cfg r)) ->
  TargetPort v = targetPort \/ localMode (cfg r) = true ->
  (exists destUrl,
     url_Parse ("http://" ++ gostrings.JoinHostPort ipaddress (gostrings.Itoa targetPort))
     = inl destUrl) ->
  let '(_, r', _) :=
    AddSubdomain url_Parse newHTTPTransport now h r subdomain ipaddress targetPort in
  (exists hd,
     registered r' subdomain (ListenPort v)
                (gostrings.JoinHostPort ipaddress (gostrings.Itoa targetPort)) = Some hd /\
     timer hd = now + proxyHandlerLifetime r) /\
  In subdomain (domains r') /\
  is_Some (accessCounters r' !! subdomain).
Proof.
  intros Hlt Hv Hsel Hparse.
  pose proof (AddSubdomain_registered now h r subdomain ipaddress targetPort v
                Hlt Hv Hsel Hparse) as H.
  cbv zeta in H. destruct (AddSubdomain _ _ _ _ _ _ _ _) as [[h' r'] logs].
  cbn [fst snd] in H. destruct H as (H1 & H2 & H3 & _). auto.
Qed.

Lemma subdomain_resolves r s :
  is_Some (domainMap r !! s) -> forall name, resolvesTo r s name <-> name = s.
Proof.
  intros Hs name. unfold resolvesTo. split.
  - intros [[_ ->]|[Hn _]]; [reflexivity|]. rewrite Hn in Hs. destruct Hs. discriminate.
  - intros ->. left. auto.
Qed.

Lemma FindHandler_live now order r s port addr hd :
  registered r s port addr = Some hd -> alive now hd = true -> In addr order ->
  is_Some (fst (fst (FindHandler now order r s port))).
Proof.
  intros Hreg Hal Hin.
  destruct (FindHandler now order r s port) as [[res r'] logs] eqn:HF. cbn [fst].
  destruct (FindHandler_spec _ _ _ _ _ _ _ _ HF) as (_ & HNone & Hframe & _).
  destruct res as [hdl|]; [eauto|]. exfalso.
  assert (Hs : is_Some (domainMap r !! s)).
  { unfold registered in Hreg. destruct (domainMap r !! s); [eauto|discriminate]. }
  pose proof (HNone eq_refl s (proj2 (subdomain_resolves r s Hs s) eq_refl) addr Hin) as Hgone.
  destruct (Hframe s port addr) as [_ Hkeep]. rewrite (Hkeep hd Hreg Hal) in Hgone.
  discriminate.
Qed.

(** X3.  A request for a subdomain that [AddSubdomain] has registered is served:
    when the first label of the host, in lower case, is the subdomain, the
    request arrives on the listen port before the lifetime has passed, and
    the range over the handlers of the port reaches the address, then
    [ServeHTTPWithPort] hands it to a handler and does not answer 404. *)
Theorem ServeHTTPWithPort_after_AddSubdomain now h r subdomain ipaddress targetPort v
    now' order req :
  0 < proxyHandlerLifetime r ->
  In v (Listen_HTTP (cfg r)) ->
  TargetPort v = targetPort \/ localMode (cfg r) = true ->
  (exists destUrl,
     url_Parse ("http://" ++ gostrings.JoinHostPort ipaddress (gostrings.Itoa targetPort))
     = inl destUrl) ->
  subdomainOf Map_unicode_ToLower (Host req) = subdomain ->
  now' < now + proxyHandlerLifetime r ->
  In (gostrings.JoinHostPort ipaddress (gostrings.Itoa targetPort)) order ->
  let r' := snd (fst (AddSubdomain url_Parse newHTTPTransport now h r
                                   subdomain ipaddress targetPort)) in
  exists hdl,
    fst (fst (ServeHTTPWithPort Map_unicode_ToLower now' order r' req (ListenPort v)))
    = ServeHTTP hdl.
Proof.
  intros Hlt Hv Hsel Hparse Hhost Hnow Hin r'.
  destruct (AddSubdomain_registered now h r subdomain ipaddress targetPort v
              Hlt Hv Hsel Hparse) as ((hd & Hreg & Ht) & _).
  fold r' in Hreg.
  assert (Hal : alive now' hd = true) by (unfold alive; apply Z.ltb_lt; lia).
  pose proof (FindHandler_live now' order r' subdomain (ListenPort v) _ hd Hreg Hal Hin)
    as [hdl Hres].
  unfold ServeHTTPWithPort. rewrite Hhost.
  destruct (FindHandler now' order r' subdomain (ListenPort v)) as [[res r''] logs].
  cbn [fst] in Hres. subst res. exists hdl. reflexivity.
Qed.

(** X4.  [RemoveSubdomain] undoes [AddSubdomain]: for a subdomain that had no
    entry, no counter and no place in the list, adding it (whether or not a
    proxy is created) and then removing it gives the registry back. *)
Theorem Modify_add_then_remove now h r subdomain ipaddress targetPort now' h' ip' port' :
  domainMap r !! subdomain = None ->
  accessCounters r !! subdomain = None ->
  ~ In subdomain (domains r) ->
  let added :=
    Modify url_Parse newHTTPTransport now h r
           (mkProxyControl proxyAdd subdomain ipaddress targetPort) in
  snd (fst (Modify url_Parse newHTTPTransport now' h' (snd (fst added))
                   (mkProxyControl proxyRemove subdomain ip' port'))) = r.
Proof.
  intros Hmap Hcnt Hdom added. subst added. unfold Modify.
  cbn [Action ControlSubdomain IPAddress Port].
  change (String.eqb proxyAdd proxyAdd) with true.
  change (String.eqb proxyRemove proxyAdd) with false.
  change (String.eqb proxyRemove proxyRemove) with true. cbv iota.
  unfold AddSubdomain. rewrite Hmap, Hcnt. cbn [default].
  rewrite bool_decide_eq_false_2 by (intros [? ?]; discriminate).
  match goal with |- context [fold_left ?f ?l ?st] =>
    destruct (fold_left f l st) as [[ph proxy] logs] end.
  destruct r as [c ds dm ac un lt]. cbn [domains domainMap accessCounters cfg
    accessCounterUnit proxyHandlerLifetime] in *.
  destruct proxy; cbn [negb fst snd RemoveSubdomain domains domainMap accessCounters cfg
    accessCounterUnit proxyHandlerLifetime].
  - assert (Hex : existsb (String.eqb subdomain) ds = false).
    { destruct (existsb (String.eqb subdomain) ds) eqn:E; [|reflexivity].
      apply existsb_eqb_In in E. contradiction. }
    rewrite Hex, removeFirst_app by exact Hdom.
    rewrite !delete_insert_id by assumption. reflexivity.
  - rewrite removeFirst_notin by exact Hdom.
    rewrite delete_insert_id, delete_id by assumption. reflexivity.
Qed.

(** X5.  [Exists] and [FindHandler] agree on what is registered: a lookup that
    finds a handler is for a subdomain that [Exists] reports, and for a
    subdomain that [Exists] does not report the lookup returns nil and
    leaves the registry as it is. *)
Theorem Exists_FindHandler now order r s port :
  (is_Some (fst (fst (FindHandler now order r s port))) -> Exists r s = true) /\
  (Exists r s = false ->
   fst (fst (FindHandler now order r s port)) = None /\
   snd (fst (FindHandler now order r s port)) = r).
Proof.
  assert (Hno : Exists r s = false ->
                fst (fst (FindHandler now order r s port)) = None /\
                snd (fst (FindHandler now order r s port)) = r).
  { unfold Exists, FindHandler, firstMatch.
    destruct (domainMap r !! s) as [ph|]; [discriminate|]. intros Hex.
    destruct (List.find (fun name => matches name s) (domains r)) as [name|] eqn:Hfind.
    - apply List.find_some in Hfind. destruct Hfind as [Hin Hm].
      assert (Ht : existsb (fun name => matches name s) (domains r) = true)
        by (apply List.existsb_exists; eauto).
      congruence.
    - auto. }
  split; [|exact Hno].
  intros Hsome. destruct (Exists r s) eqn:E; [reflexivity|].
  destruct (Hno eq_refl) as [Hnone _]. rewrite Hnone in Hsome. destruct Hsome. discriminate.
Qed.

End registry_lookup.

Section registry_removal.

Import reverseproxy.

(** X6.  After [RemoveSubdomain] the subdomain has no entry, no counter and no
    place in the list, the other names are as before, and the subdomain is
    still reported by [Exists] exactly when the pattern of another listed
    name matches it. *)
Theorem RemoveSubdomain_forgets r s :
  NoDup (domains r) ->
  let r' := fst (RemoveSubdomain r s) in
  domainMap r' !! s = None /\ accessCounters r' !! s = None /\ ~ In s (domains r') /\
  (forall n, n <> s ->
     domainMap r' !! n = domainMap r !! n /\
     accessCounters r' !! n = accessCounters r !! n /\
     (In n (domains r') <-> In n (domains r))) /\
  (Exists r' s = true <->
   exists name, In name (domains r) /\ name <> s /\ matches name s = true).
Proof.
  intros Hnd r'. subst r'. unfold RemoveSubdomain, Exists.
  cbn [fst domains domainMap accessCounters].
  rewrite !lookup_delete_eq. split; [reflexivity|]. split; [reflexivity|].
  split; [rewrite removeFirst_In by exact Hnd; tauto|]. split.
  - intros n Hn. rewrite !lookup_delete_ne by congruence.
    rewrite removeFirst_In by exact Hnd. tauto.
  - rewrite List.existsb_exists. split.
    + intros (name & Hin & Hm). apply removeFirst_In in Hin; [|exact Hnd].
      exists name. tauto.
    + intros (name & Hin & Hne & Hm). exists name. split; [|exact Hm].
      apply removeFirst_In; auto.
Qed.

End registry_removal.


(** ** Errors of the transport *)

Section transport_errors.

Import reverseproxy gostrings.

#[local] Open Scope string_scope.

(** X7.  An error that [RoundTrip] returns is the error of the wrapped
    transport for this request, and its message does not hold [timeout]:
    the cookie gate and an upstream timeout are answered with a response,
    never with an error. *)
Theorem RoundTrip_error now t req h err :
  fst (RoundTrip now t req h) = inr err ->
  Transport_ t req = inr err /\ Contains err "timeout" = false /\
  forwarded (snd (RoundTrip now t req h)) = [req].
Proof.
  intros Herr.
  assert (Hfwd : forall h1 logs,
            fst (RoundTrip_forward t req h1 logs) = inr err ->
            Transport_ t req = inr err /\ Contains err "timeout" = false).
  { intros h1 logs. destruct (RoundTrip_forward_spec t req h1 logs) as [_ ->].
    destruct (Transport_ t req) as [resp|e]; [discriminate|].
    destruct (Contains e "timeout") eqn:Ht; [discriminate|]. intros [= ->]. auto. }
  assert (Hreach : reachesUpstream now t req h).
  { unfold reachesUpstream. revert Herr. unfold RoundTrip.
    destruct (AuthCookieValidateFunc t) as [validate|];
      [|intros _; apply RoundTrip_forward_spec].
    destruct (negb (String.eqb (Method req) MethodOptions));
      [|intros _; apply RoundTrip_forward_spec].
    destruct (Request_Cookie req AuthCookieName) as [cookie|]; [|discriminate].
    destruct (validate cookie); [discriminate|]. intros _. apply RoundTrip_forward_spec. }
  destruct (RoundTrip_reaches _ _ _ _ Hreach) as (h1 & logs & E).
  rewrite E in Herr. destruct (Hfwd _ _ Herr) as [H1 H2]. auto.
Qed.

End transport_errors.


(** ** Tags and environment of a launched task *)

Section launch_facts.

Import ecs.

#[local] Open Scope string_scope.

Lemma firstValue_named pairs name :
  named pairs -> exists v, firstValue pairs name = Returns v.
Proof.
  induction 1 as [|kv pairs [[n Hn] [v Hv]] _ IH]; cbn [firstValue]; [eauto|].
  rewrite Hn, Hv. cbn [deref bind]. destruct (String.eqb n name); [eauto|exact IH].
Qed.

Lemma allValues_named pairs : forall env,
  named pairs -> exists m, allValues pairs env = Returns m.
Proof.
  induction pairs as [|kv pairs IH]; intros env H; cbn [allValues]; [eauto|].
  apply List.Forall_cons_iff in H. destruct H as [[[n Hn] [v Hv]] H].
  rewrite Hn, Hv. cbn [deref bind]. apply IH. exact H.
Qed.

Lemma portMappingsOf_named n mappings : forall portMap,
  exists portMap', portMappingsOf (Some n) mappings portMap = Returns portMap'.
Proof.
  induction mappings as [|m mappings IH]; intros portMap; cbn [portMappingsOf]; [eauto|].
  destruct (HostPort m); cbn [deref bind]; apply IH.
Qed.

Lemma containerPortsOf_named containers : forall portMap,
  List.Forall (fun c => is_Some (ContainerName c)) containers ->
  exists portMap', containerPortsOf containers portMap = Returns portMap'.
Proof.
  induction containers as [|c containers IH]; intros portMap H; cbn [containerPortsOf];
    [eauto|].
  apply List.Forall_cons_iff in H. destruct H as [[n Hn] H]. rewrite Hn.
  destruct (portMappingsOf_named n (PortMappings c) portMap) as [portMap' ->].
  cbn [bind]. apply IH. exact H.
Qed.

Lemma portMapInTask_returns svc t cache tdArn :
  TaskDefinitionArn t = Some tdArn -> namedContainers svc cache tdArn ->
  exists r, portMapInTask svc t cache = Returns r.
Proof.
  unfold portMapInTask, namedContainers. intros -> H. cbn [deref bind].
  destruct (cache !! tdArn) as [td|].
  - destruct H as (d & -> & Hd). cbn [deref bind].
    destruct (containerPortsOf_named _ ∅ Hd) as [portMap ->]. cbn [bind]. eauto.
  - destruct (DescribeTaskDefinition svc tdArn) as [td|err]; [|eauto].
    destruct H as (d & -> & Hd). cbn [deref bind].
    destruct (containerPortsOf_named _ ∅ Hd) as [portMap ->]. cbn [bind]. eauto.
Qed.

Lemma ToECSKeyValuePairs_named p subdomain configParams enc :
  named (ToECSKeyValuePairs p subdomain configParams enc).
Proof.
  unfold named, ToECSKeyValuePairs.
  repeat (constructor; [cbn [KVName KVValue]; eauto|]).
  induction configParams as [|v l IH]; cbn [parameterPairs]; [constructor|].
  destruct (String.eqb _ ""); [exact IH|]. constructor; [cbn [KVName KVValue]; eauto|exact IH].
Qed.

(** X8.  A task that carries the tags of [ToECSTags] is listed under its
    subdomain: [List] never passes it over as a task of another owner,
    and the entry it makes of it has the subdomain the task was launched
    for and counts as managed, whatever the parameters of the
    configuration are called.  The entry is made, that is no nil pointer
    is met on the way, when the task has its ARN, the ARN of its task
    definition and its status, the names and values of its first container
    override and of its first attachment are set, and the task definition,
    if it can be read, names its containers. *)
Theorem ToECSTags_listed p subdomain configParams svc cache t :
  TaskTags t = ToECSTags p subdomain configParams ->
  (forall cache', informationOf svc t cache <> Returns (None, cache')) /\
  (forall info cache',
     informationOf svc t cache = Returns (Some info, cache') ->
     SubDomain info = subdomain /\ managed info) /\
  (forall arn tdArn status overrides,
     TaskArn t = Some arn -> TaskDefinitionArn t = Some tdArn ->
     TaskLastStatus t = Some status -> Overrides t = Some overrides ->
     named (match overrides with ov :: _ => Environment ov | [] => [] end) ->
     named (match Attachments t with a :: _ => Details a | [] => [] end) ->
     namedContainers svc cache tdArn ->
     exists info cache',
       informationOf svc t cache = Returns (Some info, cache') /\
       ID info = arn /\ LastStatus info = status).
Proof.
  intros Htags.
  assert (Hm : getTags (TaskTags t) TagManagedBy = Returns TagValueMirage).
  { rewrite Htags. unfold ToECSTags. cbn [getTags Key Value deref bind].
    change (String.eqb TagSubdomain TagManagedBy) with false.
    change (String.eqb TagManagedBy TagManagedBy) with true. reflexivity. }
  assert (Hs : getTags (TaskTags t) "Subdomain" = Returns (encodeTagValue subdomain)).
  { rewrite Htags. unfold ToECSTags. cbn [getTags Key Value deref bind].
    change (String.eqb TagSubdomain "Subdomain") with true. reflexivity. }
  split; [|split].
  - intros cache'. unfold informationOf, getTagsFromTask. rewrite Hm, Hs. cbn [bind].
    change (String.eqb TagValueMirage TagValueMirage) with true. cbn [negb].
    destruct (TaskArn t); cbn [deref bind]; [|discriminate].
    destruct (getEnvironmentFromTask (Overrides t) "GIT_BRANCH"); cbn [bind]; [|discriminate].
    destruct (TaskDefinitionArn t); cbn [deref bind]; [|discriminate].
    destruct (getIPV4AddressFromTask (Attachments t)); cbn [bind]; [|discriminate].
    destruct (TaskLastStatus t); cbn [deref bind]; [|discriminate].
    destruct (getEnvironmentsFromTask (Overrides t)); cbn [bind]; [|discriminate].
    destruct (portMapInTask svc t cache) as [[portMap c]|]; cbn [bind]; discriminate.
  - intros info cache' H. split; [|eapply informationOf_managed; exact H].
    destruct (informationOf_entry _ _ _ _ _ H) as (_ & (sub & Hsub & ->) & _).
    rewrite Hs in Hsub. injection Hsub as <-. apply decode_after_encode.
  - intros arn tdArn status overrides Harn Htd Hstatus Hov Henv Hatt Hdef.
    unfold informationOf, getTagsFromTask. rewrite Hm, Hs. cbn [bind].
    change (String.eqb TagValueMirage TagValueMirage) with true. cbn [negb].
    rewrite Harn, Htd, Hstatus. cbn [deref bind].
    assert (Hb : exists branch,
               getEnvironmentFromTask (Overrides t) "GIT_BRANCH" = Returns branch).
    { unfold getEnvironmentFromTask. rewrite Hov. cbn [deref bind].
      destruct overrides as [|ov others]; [eauto|]. apply firstValue_named. exact Henv. }
    destruct Hb as [branch ->]. cbn [bind].
    assert (Hi : exists ipaddress,
               getIPV4AddressFromTask (Attachments t) = Returns ipaddress).
    { unfold getIPV4AddressFromTask.
      destruct (Attachments t) as [|a others]; [eauto|]. apply firstValue_named. exact Hatt. }
    destruct Hi as [ipaddress ->]. cbn [bind].
    assert (He : exists env, getEnvironmentsFromTask (Overrides t) = Returns env).
    { unfold getEnvironmentsFromTask. rewrite Hov. cbn [deref bind].
      destruct overrides as [|ov others]; [eauto|]. apply allValues_named. exact Henv. }
    destruct He as [env ->]. cbn [bind].
    destruct (portMapInTask_returns svc t cache tdArn Htd Hdef) as [[portMap cache'] ->].
    cbn [bind]. eexists _, _. split; [reflexivity|]. split; reflexivity.
Qed.

Lemma firstValue_parameterPairs p name : forall configParams,
  (forall w, In w configParams -> Env w = name -> paramOf p (ecs.Name w) = "") ->
  firstValue (parameterPairs p configParams) name = Returns "".
Proof.
  induction configParams as [|w l IH]; intros Hall; [reflexivity|].
  cbn [parameterPairs].
  assert (Hl : forall w', In w' l -> Env w' = name -> paramOf p (ecs.Name w') = "")
    by (intros w' Hw'; apply Hall; right; exact Hw').
  destruct (String.eqb_spec (paramOf p (ecs.Name w)) "") as [Hw|Hw]; [apply IH; exact Hl|].
  cbn [firstValue KVName KVValue deref bind].
  destruct (String.eqb_spec (Env w) name) as [He|He]; [|apply IH; exact Hl].
  exfalso. apply Hw. apply Hall; [left; reflexivity|exact He].
Qed.

Lemma firstValue_parameterPairs_first p v : forall pre post,
  paramOf p (ecs.Name v) <> "" ->
  (forall w, In w pre -> Env w = Env v -> paramOf p (ecs.Name w) = "") ->
  firstValue (parameterPairs p (pre ++ v :: post)) (Env v) = Returns (paramOf p (ecs.Name v)).
Proof.
  induction pre as [|w pre IH]; intros post Hv Hpre; cbn [app parameterPairs].
  - destruct (String.eqb_spec (paramOf p (ecs.Name v)) "") as [E|E]; [contradiction|].
    cbn [firstValue KVName KVValue deref bind]. rewrite String.eqb_refl. reflexivity.
  - assert (Hl : forall w', In w' pre -> Env w' = Env v -> paramOf p (ecs.Name w') = "")
      by (intros w' Hw'; apply Hpre; right; exact Hw').
    destruct (String.eqb_spec (paramOf p (ecs.Name w)) "") as [Hw|Hw]; [apply IH; assumption|].
    cbn [firstValue KVName KVValue deref bind].
    destruct (String.eqb_spec (Env w) (Env v)) as [He|He]; [|apply IH; assumption].
    exfalso. apply Hw. apply Hpre; [left; reflexivity|exact He].
Qed.

(** X9.  The environment of [ToECSKeyValuePairs] reads back: from the first
    container override of a task launched with it, [getEnvironmentFromTask]
    gives the encoded subdomain for [SUBDOMAIN], the subdomain for
    [SUBDOMAINRAW], and the value of a parameter for its variable, when the
    variable is neither of the two and no earlier parameter with a value
    has the same variable. *)
Theorem environment_reads_back p subdomain enc pre v post others :
  paramOf p (ecs.Name v) <> "" ->
  Env v <> EnvSubdomain -> Env v <> EnvSubdomainRaw ->
  (forall w, In w pre -> Env w = Env v -> paramOf p (ecs.Name w) = "") ->
  let overrides :=
    Some (mkContainerOverride (ToECSKeyValuePairs p subdomain (pre ++ v :: post) enc)
          :: others) in
  getEnvironmentFromTask overrides EnvSubdomain = Returns (enc subdomain) /\
  getEnvironmentFromTask overrides EnvSubdomainRaw = Returns subdomain /\
  getEnvironmentFromTask overrides (Env v) = Returns (paramOf p (ecs.Name v)).
Proof.
  intros Hv H1 H2 Hpre overrides. subst overrides.
  unfold getEnvironmentFromTask, ToECSKeyValuePairs.
  cbn [deref bind Environment firstValue KVName KVValue].
  change (String.eqb EnvSubdomain EnvSubdomain) with true.
  change (String.eqb EnvSubdomain EnvSubdomainRaw) with false.
  change (String.eqb EnvSubdomainRaw EnvSubdomainRaw) with true.
  split; [reflexivity|]. split; [reflexivity|].
  rewrite (proj2 (String.eqb_neq _ _)) by congruence.
  rewrite (proj2 (String.eqb_neq _ _)) by congruence.
  apply firstValue_parameterPairs_first; assumption.
Qed.

Lemma allValues_lookup : forall pairs env m,
  allValues pairs env = Returns m ->
  NoDup (map KVName pairs) ->
  forall name,
    match m !! name with
    | Some v =>
        (firstValue pairs name = Returns v /\ In (Some name) (map KVName pairs)) \/
        (firstValue pairs name = Returns "" /\ ~ In (Some name) (map KVName pairs) /\
         env !! name = Some v)
    | None =>
        firstValue pairs name = Returns "" /\ ~ In (Some name) (map KVName pairs) /\
        env !! name = None
    end.
Proof.
  induction pairs as [|kv rest IH]; intros env m Hm Hnd name.
  - injection Hm as <-. cbn. destruct (env !! name); [right|]; auto.
  - cbn [allValues] in Hm.
    destruct (KVName kv) as [n|] eqn:Hn; cbn [deref bind] in Hm; [|discriminate].
    destruct (KVValue kv) as [v|] eqn:Hv; cbn [deref bind] in Hm; [|discriminate].
    cbn [map] in Hnd. apply NoDup_cons in Hnd. destruct Hnd as [Hfresh Hnd].
    rewrite Hn in Hfresh.
    specialize (IH _ _ Hm Hnd name). cbn [firstValue map In]. rewrite Hn, Hv.
    cbn [deref bind].
    destruct (String.eqb_spec n name) as [->|Hne].
    + rewrite lookup_insert_eq in IH.
      assert (Hnot : ~ In (Some name) (map KVName rest))
        by (intros Hin; apply Hfresh, list_elem_of_In; exact Hin).
      destruct (m !! name) as [v'|].
      * destruct IH as [[_ Hin]|(_ & _ & [= ->])]; [contradiction|]. left. auto.
      * destruct IH as (_ & _ & ?). discriminate.
    + rewrite lookup_insert_ne in IH by assumption.
      destruct (m !! name) as [v'|].
      * destruct IH as [[H1 H2]|(H1 & H2 & H3)]; [left; auto|right].
        split; [exact H1|]. split; [|exact H3]. intros [[= ?]|?]; contradiction.
      * destruct IH as (H1 & H2 & H3). split; [exact H1|]. split; [|exact H3].
        intros [[= ?]|?]; contradiction.
Qed.

(** X10.  The two readings of the environment agree when no variable is set
    twice: what [getEnvironmentFromTask] returns for a name is the entry of
    the map of [getEnvironmentsFromTask], or the empty string when the map
    has none. *)
Theorem getEnvironments_agree ov others env name :
  NoDup (map KVName (Environment ov)) ->
  getEnvironmentsFromTask (Some (ov :: others)) = Returns env ->
  getEnvironmentFromTask (Some (ov :: others)) name = Returns (default "" (env !! name)).
Proof.
  intros Hnd Henv. unfold getEnvironmentsFromTask, getEnvironmentFromTask in *.
  cbn [deref bind] in *.
  pose proof (allValues_lookup _ _ _ Henv Hnd name) as H.
  destruct (env !! name) as [v|]; cbn [default].
  - destruct H as [[H _]|(_ & _ & H)]; [exact H|]. rewrite lookup_empty in H. discriminate.
  - apply H.
Qed.

End launch_facts.


(** ** Splitting strings: the short form of an ARN *)

Section split_facts.

Import gostrings.

#[local] Open Scope string_scope.

Lemma without_cons sep c s : without sep (String c s) <-> c <> sep /\ without sep s.
Proof. unfold without. cbn [list_ascii_of_string In]. tauto. Qed.

Lemma cut_None sep s : without sep s -> cut sep s = None.
Proof.
  induction s as [|c s IH]; [reflexivity|]. intros H. apply without_cons in H.
  destruct H as [Hc Hs]. cbn [cut]. rewrite (proj2 (Ascii.eqb_neq _ _) Hc), (IH Hs).
  reflexivity.
Qed.

Lemma cut_first sep a b : without sep a -> cut sep (a ++ String sep b) = Some (a, b).
Proof.
  induction a as [|c a IH]; intros H.
  - change ("" ++ String sep b) with (String sep b). cbn [cut].
    rewrite Ascii.eqb_refl. reflexivity.
  - apply without_cons in H. destruct H as [Hc Ha].
    change (String c a ++ String sep b) with (String c (a ++ String sep b)).
    cbn [cut]. rewrite (proj2 (Ascii.eqb_neq _ _) Hc), (IH Ha). reflexivity.
Qed.

Lemma cut_Some sep s a b :
  cut sep s = Some (a, b) -> s = a ++ String sep b /\ without sep a.
Proof.
  revert a. induction s as [|c s IH]; intros a; cbn [cut]; [discriminate|].
  destruct (Ascii.eqb_spec c sep) as [->|Hc].
  - intros [= <- <-]. split; [reflexivity|]. intros [].
  - destruct (cut sep s) as [[a' b']|]; [|discriminate]. intros [= <- <-].
    destruct (IH a' eq_refl) as [-> Ha]. split; [reflexivity|].
    apply without_cons. auto.
Qed.

Lemma genSplit_without sep cuts s : without sep s -> genSplit sep cuts s = [s].
Proof. intros H. destruct cuts; cbn [genSplit]; [|rewrite (cut_None _ _ H)]; reflexivity. Qed.

Lemma length_app_string a b : String.length (a ++ b) = (String.length a + String.length b)%nat.
Proof.
  induction a as [|c a IH]; [reflexivity|].
  change (String c a ++ b) with (String c (a ++ b)). cbn [String.length]. rewrite IH.
  reflexivity.
Qed.

(** The last piece of a split is what follows the last separator. *)
Lemma genSplit_last sep id : without sep id ->
  forall cuts pre, (String.length (pre ++ String sep id) <= cuts)%nat ->
    List.last (genSplit sep cuts (pre ++ String sep id)) "" = id.
Proof.
  intros Hid. induction cuts as [|cuts IH]; intros pre Hlen.
  - rewrite length_app_string in Hlen. cbn [String.length] in Hlen. lia.
  - cbn [genSplit]. destruct (cut sep (pre ++ String sep id)) as [[a b]|] eqn:Hcut.
    + destruct (cut_Some _ _ _ _ Hcut) as [Heq Ha].
      assert (Hb : (String.length b <= cuts)%nat).
      { apply (f_equal String.length) in Heq. rewrite !length_app_string in *.
        cbn [String.length] in *. lia. }
      assert (Hcases : b = id \/ exists pre', b = pre' ++ String sep id).
      { clear -Heq Ha Hid. revert a Heq Ha. induction pre as [|c pre IHp]; intros a Heq Ha.
        - destruct a as [|c a].
          + change ("" ++ String sep id) with (String sep id) in Heq.
            change ("" ++ String sep b) with (String sep b) in Heq.
            injection Heq as <-. left. reflexivity.
          + change ("" ++ String sep id) with (String sep id) in Heq.
            change (String c a ++ String sep b) with (String c (a ++ String sep b)) in Heq.
            injection Heq as -> Heq. apply without_cons in Ha. destruct Ha as [Ha _].
            contradiction.
        - destruct a as [|c' a].
          + change (String c pre ++ String sep id) with (String c (pre ++ String sep id))
              in Heq.
            change ("" ++ String sep b) with (String sep b) in Heq.
            injection Heq as -> <-. right. exists pre. reflexivity.
          + change (String c pre ++ String sep id) with (String c (pre ++ String sep id))
              in Heq.
            change (String c' a ++ String sep b) with (String c' (a ++ String sep b)) in Heq.
            injection Heq as -> Heq. apply without_cons in Ha. destruct Ha as [_ Ha].
            exact (IHp a Heq Ha). }
      destruct Hcases as [->|[pre' ->]].
      * rewrite genSplit_without by exact Hid. reflexivity.
      * specialize (IH pre' Hb).
        destruct (genSplit sep cuts (pre' ++ String sep id)) as [|x l] eqn:E.
        -- destruct cuts; cbn [genSplit] in E; [discriminate|].
           destruct (cut sep (pre' ++ String sep id)) as [[? ?]|]; discriminate.
        -- exact IH.
    + exfalso. clear -Hcut Hid.
      induction pre as [|c pre IHp].
      * change ("" ++ String sep id) with (String sep id) in Hcut. cbn [cut] in Hcut.
        rewrite Ascii.eqb_refl in Hcut. discriminate.
      * change (String c pre ++ String sep id) with (String c (pre ++ String sep id)) in Hcut.
        cbn [cut] in Hcut. destruct (Ascii.eqb c sep); [discriminate|].
        destruct (cut sep (pre ++ String sep id)) as [[? ?]|]; [discriminate|].
        apply IHp. reflexivity.
Qed.

Lemma Split_last sep pre id :
  without sep id -> List.last (Split (pre ++ String sep id) sep) "" = id.
Proof. intros H. unfold Split. apply genSplit_last; [exact H|lia]. Qed.

Lemma nth_last {A} (l : list A) d : nth (length l - 1) l d = List.last l d.
Proof.
  induction l as [|x l IH]; [reflexivity|].
  destruct l as [|y l]; [reflexivity|].
  cbn [length] in *. rewrite Nat.sub_succ, Nat.sub_0_r in *.
  change (nth (S (length l)) (x :: y :: l) d) with (nth (length l) (y :: l) d).
  rewrite IH. reflexivity.
Qed.

Lemma cut_without sep s : cut sep s = None -> without sep s.
Proof.
  induction s as [|c s IH]; [intros _ []|]. cbn [cut].
  destruct (Ascii.eqb_spec c sep) as [->|Hc]; [discriminate|].
  destruct (cut sep s) as [[a b]|]; [discriminate|]. intros _.
  apply without_cons. auto.
Qed.

Lemma countByte_cut sep a b :
  without sep a -> countByte sep (a ++ String sep b) = S (countByte sep b).
Proof.
  induction a as [|c a IH]; intros H.
  - change ("" ++ String sep b) with (String sep b). cbn [countByte].
    rewrite Ascii.eqb_refl. reflexivity.
  - apply without_cons in H. destruct H as [Hc Ha].
    change (String c a ++ String sep b) with (String c (a ++ String sep b)).
    cbn [countByte]. rewrite (proj2 (Ascii.eqb_neq _ _) Hc). apply IH. exact Ha.
Qed.

Lemma genSplit_length sep : forall cuts s,
  (length (genSplit sep cuts s) <= S (countByte sep s))%nat.
Proof.
  induction cuts as [|cuts IH]; intros s; cbn [genSplit length]; [lia|].
  destruct (cut sep s) as [[a b]|] eqn:Hcut; cbn [length]; [|lia].
  destruct (cut_Some _ _ _ _ Hcut) as [-> Ha]. rewrite countByte_cut by exact Ha.
  specialize (IH b). lia.
Qed.

Lemma genSplit_pieces sep : forall cuts s,
  (String.length s <= cuts)%nat -> List.Forall (without sep) (genSplit sep cuts s).
Proof.
  induction cuts as [|cuts IH]; intros s Hlen.
  - destruct s; [|cbn in Hlen; lia]. repeat constructor. intros [].
  - cbn [genSplit]. destruct (cut sep s) as [[a b]|] eqn:Hcut.
    + destruct (cut_Some _ _ _ _ Hcut) as [-> Ha]. constructor; [exact Ha|].
      apply IH. rewrite length_app_string in Hlen. cbn [String.length] in Hlen. lia.
    + repeat constructor. apply cut_without. exact Hcut.
Qed.

Lemma last_Forall {A} (P : A -> Prop) l d : List.Forall P l -> P d -> P (List.last l d).
Proof.
  induction 1 as [|x l Hx Hl IH]; intros Hd; [exact Hd|].
  destruct l; [exact Hx|]. apply IH. exact Hd.
Qed.

End split_facts.

Section shortenArn_facts.

Import gostrings ecs.

#[local] Open Scope string_scope.

Lemma shortenArn_parts p0 p1 p2 p3 p4 rest :
  without ":" p0 -> without ":" p1 -> without ":" p2 -> without ":" p3 -> without ":" p4 ->
  shortenArn (p0 ++ ":" ++ p1 ++ ":" ++ p2 ++ ":" ++ p3 ++ ":" ++ p4 ++ ":" ++ rest)
  = List.last (Split rest "/") "".
Proof.
  intros H0 H1 H2 H3 H4. unfold shortenArn, SplitN.
  repeat match goal with
         | |- context [":" ++ ?x] => change (":" ++ x) with (String ":"%char x)
         end.
  cbn [genSplit]. rewrite !cut_first by assumption.
  cbn [length Nat.eqb negb nth].
  destruct (Split rest "/") as [|x l] eqn:E; [reflexivity|].
  cbn [Nat.eqb length]. exact (nth_last (x :: l) "").
Qed.

Lemma Split_nonempty s sep : Split s sep <> [].
Proof.
  unfold Split. destruct (String.length s); cbn [genSplit]; [discriminate|].
  destruct (cut sep s) as [[? ?]|]; discriminate.
Qed.

(** X11.  The short form of an ARN.  It never holds a slash; it is empty for a
    string with fewer than five colons; for a string of six parts, it is
    what follows the last slash of the sixth part (which may hold colons),
    or the sixth part when that has no slash. *)
Theorem shortenArn_last_segment :
  (forall arn, without "/" (shortenArn arn)) /\
  (forall arn, (countByte ":" arn < 5)%nat -> shortenArn arn = "") /\
  (forall p0 p1 p2 p3 p4 rest,
     without ":" p0 -> without ":" p1 -> without ":" p2 -> without ":" p3 ->
     without ":" p4 ->
     let arn := p0 ++ ":" ++ p1 ++ ":" ++ p2 ++ ":" ++ p3 ++ ":" ++ p4 ++ ":" ++ rest in
     (without "/" rest -> shortenArn arn = rest) /\
     (forall pre id, rest = pre ++ "/" ++ id -> without "/" id -> shortenArn arn = id)).
Proof.
  split; [|split].
  - intros arn. unfold shortenArn.
    destruct (negb _); [intros []|].
    destruct (length (Split _ "/") =? 0)%nat; [intros []|].
    rewrite nth_last. apply last_Forall; [|intros []].
    apply genSplit_pieces. lia.
  - intros arn Hcount. unfold shortenArn, SplitN.
    pose proof (genSplit_length ":" 5 arn) as Hlen.
    destruct (Nat.eqb_spec (length (genSplit ":" 5 arn)) 6) as [E|E]; [lia|reflexivity].
  - intros p0 p1 p2 p3 p4 rest H0 H1 H2 H3 H4 arn. subst arn.
    rewrite shortenArn_parts by assumption. split.
    + intros Hrest. unfold Split. rewrite genSplit_without by exact Hrest. reflexivity.
    + intros pre id -> Hid. change ("/" ++ id) with (String "/"%char id).
      apply Split_last. exact Hid.
Qed.

End shortenArn_facts.


(** ** Stopping the tasks of a subdomain *)

Section terminate_facts.

Import ecs.

#[local] Open Scope string_scope.

Variable sort_Slice : (Information -> Information -> bool) -> list Information -> list Information.
Variable StopTask : string -> option string.
Variable errgroup_Wait : list (option string) -> option string.

Hypothesis sort_Slice_permutation :
  forall l, Permutation (sort_Slice lessSubDomain l) l.

(** [Wait] returns nil exactly when every function of the group did. *)
Hypothesis errgroup_Wait_nil :
  forall errs, errgroup_Wait errs = None <-> List.Forall (fun e => e = None) errs.

(** X12.  [TerminateBySubdomain] asks to stop the tasks that [List] returns
    for the desired status RUNNING and that carry the subdomain, those and
    no others; all of them are managed by the gateway.  It tells the proxy
    to remove the subdomain once, also when there is no such task.  When
    the listing fails it stops nothing, tells the proxy nothing and returns
    the error of the listing.  When it returns no error, every task it
    asked to stop was stopped. *)
Theorem TerminateBySubdomain_managed fuel svc subdomain cache :
  pagesEndWithin fuel svc statusRunning None = true ->
  exists r,
    TerminateBySubdomain sort_Slice StopTask errgroup_Wait fuel svc subdomain cache = Some r /\
    forall t cache', r = Returns (t, cache') ->
      exists infos err,
        List_ sort_Slice fuel svc statusRunning cache = Some (Returns (infos, err, cache')) /\
        (is_Some err -> stopped t = [] /\ controls t = [] /\ terminateError t = err) /\
        (err = None ->
         (forall arn, In arn (stopped t) <->
            exists info, In info infos /\ ID info = arn /\ SubDomain info = subdomain) /\
         (forall info, In info infos -> managed info) /\
         controls t
         = [reverseproxy.mkProxyControl reverseproxy.proxyRemove subdomain "" 0] /\
         (terminateError t = None -> forall arn, In arn (stopped t) -> StopTask arn = None)).
Proof.
  intros Hend. unfold TerminateBySubdomain, find, List_.
  destruct (List_pages_returns sort_Slice _ _ _ None [] cache Hend) as [r Hr]. rewrite Hr.
  destruct r as [[[infos [err|]] cache1]|]; eexists; (split; [reflexivity|]);
    intros t cache' [= <- <-] || (intros ? ? ?; discriminate);
    cbn [stopped controls terminateError].
  - exists infos, (Some err). split; [reflexivity|]. split; [auto|discriminate].
  - exists infos, None. split; [reflexivity|]. split; [intros [? ?]; discriminate|].
    intros _. split; [|split; [|split; [reflexivity|]]].
    + intros arn. rewrite in_map_iff. split.
      * intros (info & <- & Hin). apply filter_In in Hin. destruct Hin as [Hin Heq].
        apply String.eqb_eq in Heq. exists info. auto.
      * intros (info & Hin & <- & Heq). exists info. split; [reflexivity|].
        apply filter_In. split; [exact Hin|]. apply String.eqb_eq. exact Heq.
    + apply List.Forall_forall.
      eapply List_pages_managed; [exact sort_Slice_permutation|constructor|exact Hr].
    + intros Hnil arn Hin.
      apply errgroup_Wait_nil in Hnil. apply List.Forall_cons_iff in Hnil.
      destruct Hnil as [_ Hnil]. rewrite List.Forall_forall in Hnil.
      apply in_map_iff in Hin. destruct Hin as (info & <- & Hin).
      apply Hnil. apply in_map_iff. exists info. split; [reflexivity|exact Hin].
Qed.

End terminate_facts.

(** ** The length of a tag value *)

Section tag_length.

Import base64.

Lemma Encode_length src :
  length (Encode URLEncoding src) = (4 * ((length src + 2) / 3))%nat.
Proof.
  pattern src; apply list_ind3; clear src; [|intros a|intros a b|intros a b c l IH];
    try reflexivity.
  change (Encode URLEncoding (a :: b :: c :: l))
    with (index (encode URLEncoding) (Z.land (Z.shiftr (Z.lor (Z.lor (Z.shiftl a 16)
            (Z.shiftl b 8)) c) 18) 63)
          :: index (encode URLEncoding) (Z.land (Z.shiftr (Z.lor (Z.lor (Z.shiftl a 16)
            (Z.shiftl b 8)) c) 12) 63)
          :: index (encode URLEncoding) (Z.land (Z.shiftr (Z.lor (Z.lor (Z.shiftl a 16)
            (Z.shiftl b 8)) c) 6) 63)
          :: index (encode URLEncoding) (Z.land (Z.lor (Z.lor (Z.shiftl a 16)
            (Z.shiftl b 8)) c) 63)
          :: Encode URLEncoding l).
  cbn [length]. rewrite IH.
  replace (S (S (S (length l))) + 2)%nat with (1 * 3 + (length l + 2))%nat by lia.
  rewrite Nat.div_add_l by lia. lia.
Qed.

(** X13.  The tag value of a subdomain: its length is four characters for every
    three bytes, rounded up; the decoder accepts it; different subdomains
    have different tag values; and for a subdomain that [validateSubdomain]
    accepts it has at most 84 characters. *)
Theorem encodeTagValue_length_injective :
  (forall s, len (encodeTagValue s) = 4 * ((len s + 2) / 3)) /\
  (forall s, validBase64url (encodeTagValue s)) /\
  (forall s1 s2, encodeTagValue s1 = encodeTagValue s2 -> s1 = s2) /\
  (forall s, validateSubdomain s = None -> len (encodeTagValue s) <= 84).
Proof.
  assert (Hlen : forall s, len (encodeTagValue s) = 4 * ((len s + 2) / 3)).
  { intros s. unfold len, encodeTagValue, EncodeToString.
    rewrite of_bytes_length, Encode_length, bytes_length.
    rewrite Nat2Z.inj_mul, Nat2Z.inj_div, Nat2Z.inj_add. reflexivity. }
  split; [exact Hlen|]. split; [|split].
  - intros s. unfold validBase64url, encodeTagValue, DecodeString, EncodeToString.
    rewrite bytes_of_bytes by apply Encode_is_byte.
    rewrite Decode_Encode; [reflexivity|apply bytes_is_byte|].
    rewrite <- bytes_length, bytes_of_bytes by apply Encode_is_byte. lia.
  - intros s1 s2 H. rewrite <- (decode_after_encode s1), <- (decode_after_encode s2), H.
    reflexivity.
  - intros s Hs. rewrite Hlen.
    assert (Hle : len s <= 63).
    { unfold validateSubdomain in Hs. destruct (String.eqb s ""); [discriminate|].
      destruct (len s <? 2); [discriminate|].
      destruct (Z.ltb_spec 63 (len s)); [discriminate|lia]. }
    assert (0 <= len s) by (unfold len; lia).
    assert ((len s + 2) / 3 < 22) by (apply Z.div_lt_upper_bound; lia). lia.
Qed.

End tag_length.


(** ** Purge requests *)

Section purge_request_facts.

Import ecs webapi gostrings.

#[local] Open Scope string_scope.

Variable Number_Int64 : string -> option Z.
Variable regexp_Compile : string -> option (string -> bool).

Lemma excludesMapOf_elem excludes : forall s, s ∈ excludesMapOf excludes <-> In s excludes.
Proof.
  unfold excludesMapOf. intros s.
  assert (H : forall m : gset string, s ∈ fold_left (fun m e => {[e]} ∪ m) excludes m
                        <-> In s excludes \/ s ∈ m).
  { induction excludes as [|e l IH]; intros m; cbn [fold_left In]; [tauto|].
    rewrite IH, elem_of_union, elem_of_singleton. intuition congruence. }
  rewrite H. rewrite elem_of_empty. tauto.
Qed.

Lemma SplitN_2 t :
  SplitN t ":" 2 = match cut ":" t with
                   | Some (k, v) => [k; v]
                   | None => [t]
                   end.
Proof. unfold SplitN. cbn [genSplit]. destruct (cut ":" t) as [[k v]|]; reflexivity. Qed.

(** The map of the tags binds a key to the value of the last tag with that
    key. *)
Lemma excludeTagsMapOf_lookup : forall tags m m',
  excludeTagsMapOf tags m = inl m' ->
  (forall t, In t tags -> is_Some (cut ":" t)) /\
  forall k v,
    m' !! k = Some v <->
    (exists pre t post, tags = (pre ++ t :: post)%list /\ cut ":" t = Some (k, v) /\
       forall t' v', In t' post -> cut ":" t' <> Some (k, v')) \/
    (m !! k = Some v /\ forall t' v', In t' tags -> cut ":" t' <> Some (k, v')).
Proof.
  induction tags as [|t tags IH]; intros m m' H; cbn [excludeTagsMapOf] in H.
  - injection H as <-. split; [intros t []|]. intros k v. split.
    + intros Hm. right. split; [exact Hm|]. intros t' v' [].
    + intros [(pre & t & post & Heq & _)|[Hm _]]; [destruct pre; discriminate|exact Hm].
  - rewrite SplitN_2 in H. destruct (cut ":" t) as [[k0 v0]|] eqn:Hcut; [|discriminate].
    destruct (IH _ _ H) as [Hall Hlook]. split.
    + intros t' [<-|Hin]; [rewrite Hcut; eauto|apply Hall; exact Hin].
    + intros k v. rewrite Hlook. split.
      * intros [(pre & t1 & post & -> & Hc & Hlast)|[Hm Hnone]].
        -- left. exists (t :: pre), t1, post. auto.
        -- destruct (decide (k0 = k)) as [->|Hne].
           ++ rewrite lookup_insert_eq in Hm. injection Hm as ->.
              left. exists [], t, tags. auto.
           ++ rewrite lookup_insert_ne in Hm by assumption. right. split; [exact Hm|].
              intros t' v' [<-|Hin]; [rewrite Hcut; congruence|apply Hnone; exact Hin].
      * intros [(pre & t1 & post & Heq & Hc & Hlast)|[Hm Hnone]].
        -- destruct pre as [|t0 pre]; cbn [app] in Heq; injection Heq as <- ->.
           ++ right. rewrite Hcut in Hc. injection Hc as -> ->.
              rewrite lookup_insert_eq. auto.
           ++ left. exists pre, t1, post. auto.
        -- right. assert (Hne : k0 <> k).
           { intros ->. apply (Hnone t v0); [left; reflexivity|exact Hcut]. }
           rewrite lookup_insert_ne by assumption. split; [exact Hm|].
           intros t' v' Hin. apply Hnone. right. exact Hin.
Qed.

Lemma int64_wrapped x : 2 ^ 63 <= x < 2 ^ 64 -> int64 x = x - 2 ^ 64.
Proof.
  intros H. unfold int64.
  replace (x + 2 ^ 63) with (x - 2 ^ 63 + 1 * 2 ^ 64) by lia.
  rewrite Z.mod_add by lia. rewrite Z.mod_small by lia. lia.
Qed.

Lemma Validate_params_of r p :
  Validate Number_Int64 regexp_Compile r = inl p ->
  (forall s, s ∈ excludesMap p <-> In s (RequestExcludes r)) /\
  (forall k v,
     excludeTagsMap p !! k = Some v <->
     exists pre t post,
       RequestExcludeTags r = (pre ++ t :: post)%list /\ cut ":" t = Some (k, v) /\
       forall t' v', In t' post -> cut ":" t' <> Some (k, v')) /\
  ExcludeRegexp p
  = (if String.eqb (RequestExcludeRegexp r) "" then None
     else regexp_Compile (RequestExcludeRegexp r)).
Proof.
  unfold Validate. intros H.
  destruct (Number_Int64 (RequestDuration r)) as [di|]; [|discriminate].
  destruct (di <? _)%Z; [discriminate|].
  destruct (excludeTagsMapOf (RequestExcludeTags r) ∅) as [tm|bad] eqn:Htags; [|discriminate].
  destruct (excludeTagsMapOf_lookup _ _ _ Htags) as [Hall Hlook].
  assert (Hlook' : forall k v,
            tm !! k = Some v <->
            exists pre t post,
              RequestExcludeTags r = (pre ++ t :: post)%list /\ cut ":" t = Some (k, v) /\
              forall t' v', In t' post -> cut ":" t' <> Some (k, v')).
  { intros k v. rewrite Hlook. split; [|auto].
    intros [?|[Hm _]]; [assumption|]. rewrite lookup_empty in Hm. discriminate. }
  destruct (String.eqb (RequestExcludeRegexp r) "").
  - injection H as <-. cbn [excludesMap excludeTagsMap ExcludeRegexp].
    split; [apply excludesMapOf_elem|]. split; [exact Hlook'|reflexivity].
  - destruct (regexp_Compile (RequestExcludeRegexp r)) as [re|]; [|discriminate].
    injection H as <-. cbn [excludesMap excludeTagsMap ExcludeRegexp].
    split; [apply excludesMapOf_elem|]. split; [exact Hlook'|reflexivity].
Qed.

(** X14.  What [Validate] accepts.  The duration is a number of at least 300
    seconds, kept in nanoseconds: exactly up to 9223372036 seconds, and
    wrapped around to a negative duration from there to 18446744073
    seconds.  The excluded subdomains are those of the request, every
    excluded tag has a colon, and a key is bound to the value of the last
    tag with that key. *)
Theorem Validate_accepts r p :
  Validate Number_Int64 regexp_Compile r = inl p ->
  exists di,
    Number_Int64 (RequestDuration r) = Some di /\ 300 <= di /\
    Duration p = int64 (di * reverseproxy.Second) /\
    (di <= 9223372036 ->
     Duration p = di * reverseproxy.Second /\ PurgeMinimumDuration <= Duration p) /\
    (9223372037 <= di <= 18446744073 -> Duration p < 0) /\
    (forall s, s ∈ excludesMap p <-> In s (RequestExcludes r)) /\
    (forall t, In t (RequestExcludeTags r) -> is_Some (cut ":" t)) /\
    (forall k v,
       excludeTagsMap p !! k = Some v <->
       exists pre t post,
         RequestExcludeTags r = (pre ++ t :: post)%list /\ cut ":" t = Some (k, v) /\
         forall t' v', In t' post -> cut ":" t' <> Some (k, v')) /\
    ExcludeRegexp p
    = (if String.eqb (RequestExcludeRegexp r) "" then None
       else regexp_Compile (RequestExcludeRegexp r)).
Proof.
  unfold Validate. intros H.
  destruct (Number_Int64 (RequestDuration r)) as [di|]; [|discriminate].
  change (PurgeMinimumDuration / reverseproxy.Second) with 300 in H.
  destruct (Z.ltb_spec di 300) as [Hlt|Hge]; [discriminate|].
  destruct (excludeTagsMapOf (RequestExcludeTags r) ∅) as [tm|bad] eqn:Htags; [|discriminate].
  destruct (excludeTagsMapOf_lookup _ _ _ Htags) as [Hall Hlook].
  assert (Hre : exists re,
            (if String.eqb (RequestExcludeRegexp r) "" then None
             else regexp_Compile (RequestExcludeRegexp r)) = re /\
            p = {| Duration := int64 (di * reverseproxy.Second);
                   Excludes := RequestExcludes r;
                   ExcludeTags := RequestExcludeTags r;
                   ExcludeRegexp := re;
                   excludesMap := excludesMapOf (RequestExcludes r);
                   excludeTagsMap := tm |}).
  { destruct (String.eqb (RequestExcludeRegexp r) "").
    - injection H as <-. eauto.
    - destruct (regexp_Compile (RequestExcludeRegexp r)) as [re|]; [|discriminate].
      injection H as <-. eauto. }
  destruct Hre as (re & Hre & ->). clear H.
  exists di. cbn [Duration excludesMap excludeTagsMap ExcludeRegexp].
  change reverseproxy.Second with 1000000000.
  change PurgeMinimumDuration with 300000000000.
  split; [reflexivity|]. split; [exact Hge|]. split; [reflexivity|].
  split; [|split; [|split; [|split; [|split]]]].
  - intros Hle. rewrite int64_small by lia. lia.
  - intros Hbig. rewrite int64_wrapped by lia. lia.
  - apply excludesMapOf_elem.
  - exact Hall.
  - intros k v. rewrite Hlook. split; [|auto].
    intros [?|[Hm _]]; [assumption|]. rewrite lookup_empty in Hm. discriminate.
  - symmetry. exact Hre.
Qed.

Lemma excludeTagsMapOf_bad : forall pre m t post,
  (forall t', In t' pre -> is_Some (cut ":" t')) -> cut ":" t = None ->
  excludeTagsMapOf (pre ++ t :: post)%list m = inr t.
Proof.
  induction pre as [|t0 pre IH]; intros m t post Hpre Ht; cbn [app excludeTagsMapOf].
  - rewrite SplitN_2, Ht. reflexivity.
  - rewrite SplitN_2. destruct (Hpre t0 (or_introl eq_refl)) as [[k v] ->].
    apply IH; [|exact Ht]. intros t' Hin. apply Hpre. right. exact Hin.
Qed.

(** X15.  What [Validate] rejects, in the order of its checks: a duration that is
    not a number, a duration below 300 seconds, the first excluded tag
    without a colon, and a pattern that does not compile. *)
Theorem Validate_rejects r :
  (Number_Int64 (RequestDuration r) = None ->
   Validate Number_Int64 regexp_Compile r = inr (ErrInvalidDuration (RequestDuration r))) /\
  (forall di,
     Number_Int64 (RequestDuration r) = Some di ->
     (di < 300 ->
      Validate Number_Int64 regexp_Compile r = inr (ErrShortDuration di 300)) /\
     (300 <= di ->
      (forall pre t post,
         RequestExcludeTags r = (pre ++ t :: post)%list ->
         (forall t', In t' pre -> ~ without ":" t') -> without ":" t ->
         Validate Number_Int64 regexp_Compile r = inr (ErrInvalidExcludeTags t)) /\
      ((forall t, In t (RequestExcludeTags r) -> ~ without ":" t) ->
       RequestExcludeRegexp r <> "" ->
       regexp_Compile (RequestExcludeRegexp r) = None ->
       Validate Number_Int64 regexp_Compile r
       = inr (ErrInvalidExcludeRegexp (RequestExcludeRegexp r))))).
Proof.
  assert (Hsome : forall t, ~ without ":" t -> is_Some (cut ":" t)).
  { intros t Ht. destruct (cut ":" t) as [[k v]|] eqn:E; [eauto|].
    exfalso. apply Ht. apply cut_without. exact E. }
  unfold Validate. split; [intros ->; reflexivity|].
  intros di ->. change (PurgeMinimumDuration / reverseproxy.Second) with 300.
  split; [intros Hlt; rewrite (proj2 (Z.ltb_lt _ _) Hlt); reflexivity|].
  intros Hge. rewrite (proj2 (Z.ltb_ge _ _) Hge). split.
  - intros pre t post -> Hpre Ht.
    rewrite excludeTagsMapOf_bad; [reflexivity| |apply cut_None; exact Ht].
    intros t' Hin. apply Hsome, Hpre, Hin.
  - intros Hall Hne Hbad.
    assert (Hok : exists tm, excludeTagsMapOf (RequestExcludeTags r) ∅ = inl tm).
    { generalize (∅ : gmap string string).
      induction (RequestExcludeTags r) as [|t tags IH]; intros m; cbn [excludeTagsMapOf];
        [eauto|].
      rewrite SplitN_2. destruct (Hsome t (Hall t (or_introl eq_refl))) as [[k v] ->].
      apply IH. intros t' Hin. apply Hall. right. exact Hin. }
    destruct Hok as [tm ->]. rewrite (proj2 (String.eqb_neq _ _) Hne), Hbad. reflexivity.
Qed.

(** X16.  A request that [Validate] accepts protects what it excludes: a task of
    an excluded subdomain, a task whose subdomain the pattern matches, and
    a task with a tag that is the last excluded tag of its key are not
    purged, whenever they were created. *)
Theorem Validate_excludes r p now info :
  Validate Number_Int64 regexp_Compile r = inl p ->
  (In (SubDomain info) (RequestExcludes r) -> ShouldBePurged now info p = false) /\
  (forall re, RequestExcludeRegexp r <> "" ->
              regexp_Compile (RequestExcludeRegexp r) = Some re ->
              re (SubDomain info) = true -> ShouldBePurged now info p = false) /\
  (forall tag pre t post,
     In tag (Tags info) ->
     RequestExcludeTags r = (pre ++ t :: post)%list ->
     cut ":" t = Some (ToString (Key tag), ToString (Value tag)) ->
     (forall t' v', In t' post -> cut ":" t' <> Some (ToString (Key tag), v')) ->
     ShouldBePurged now info p = false).
Proof.
  intros Hv. destruct (Validate_params_of r p Hv) as (Hex & Htag & Hre).
  unfold ShouldBePurged. destruct (negb _); [auto|]. split; [|split].
  - intros Hin. rewrite bool_decide_eq_true_2 by (apply Hex; exact Hin). reflexivity.
  - intros re Hne Hc Hm. destruct (bool_decide _); [reflexivity|].
    destruct (existsb _ _); [reflexivity|].
    rewrite Hre, (proj2 (String.eqb_neq _ _) Hne), Hc, Hm. reflexivity.
  - intros tag pre t post Hin Heq Hcut Hlast. destruct (bool_decide _); [reflexivity|].
    assert (Hx : existsb (fun t0 =>
                   match excludeTagsMap p !! ToString (Key t0) with
                   | Some ev => String.eqb ev (ToString (Value t0))
                   | None => false
                   end) (Tags info) = true).
    { apply List.existsb_exists. exists tag. split; [exact Hin|].
      rewrite (proj2 (Htag _ _)) by eauto 10. apply String.eqb_refl. }
    rewrite Hx. reflexivity.
Qed.

End purge_request_facts.


(** ** Running a purge *)

Section purge_facts2.

Import ecs webapi.

#[local] Open Scope string_scope.

Lemma Uniq_loop_In : forall l (seen : gset string) x,
  In x (Uniq_loop l seen) <-> In x l /\ x ∉ seen.
Proof.
  induction l as [|y l IH]; intros seen x; cbn [Uniq_loop In]; [tauto|].
  case_bool_decide as Hy.
  - rewrite IH. split; [tauto|]. intros [[->|Hin] Hx]; [contradiction|auto].
  - cbn [In]. rewrite IH, not_elem_of_union, not_elem_of_singleton. split.
    + intros [->|(Hin & Hxy & Hx)]; auto.
    + intros [[->|Hin] Hx]; [auto|]. destruct (decide (x = y)) as [->|Hxy]; auto.
Qed.

Lemma Uniq_loop_NoDup : forall l (seen : gset string), List.NoDup (Uniq_loop l seen).
Proof.
  induction l as [|y l IH]; intros seen; cbn [Uniq_loop]; [constructor|].
  case_bool_decide as Hy; [apply IH|]. constructor; [|apply IH].
  rewrite Uniq_loop_In. intros [_ Hn]. apply Hn, elem_of_union_l, elem_of_singleton.
  reflexivity.
Qed.

Lemma terminatesOf_In now p : forall infos i s,
  In s (terminatesOf now i infos p) <->
  exists j info, nth_error infos j = Some info /\ SubDomain info = s /\
                 ShouldBePurged (now (i + j)%nat) info p = true.
Proof.
  induction infos as [|info infos IH]; intros i s; cbn [terminatesOf].
  - split; [intros []|intros (j & info & H & _); destruct j; discriminate].
  - assert (Hrest : In s (terminatesOf now (S i) infos p) <->
                    exists j info', nth_error (info :: infos) (S j) = Some info' /\
                      SubDomain info' = s /\
                      ShouldBePurged (now (i + S j)%nat) info' p = true).
    { rewrite IH. split; intros (j & info' & H1 & H2 & H3); exists j, info';
        (split; [exact H1|split; [exact H2|]]);
        [replace (i + S j)%nat with (S i + j)%nat by lia
        |replace (S i + j)%nat with (i + S j)%nat by lia]; exact H3. }
    destruct (ShouldBePurged (now i) info p) eqn:Hp; cbn [In]; rewrite Hrest; split.
    + intros [<-|(j & info' & H)]; [exists 0%nat, info|exists (S j), info'; exact H].
      rewrite Nat.add_0_r. auto.
    + intros ([|j] & info' & H1 & H2 & H3); [left|right; eauto].
      injection H1 as <-. exact H2.
    + intros (j & info' & H). exists (S j), info'. exact H.
    + intros ([|j] & info' & H1 & H2 & H3); [|eauto].
      injection H1 as <-. rewrite Nat.add_0_r in H3. congruence.
Qed.

Lemma ShouldBePurged_true now info p :
  ShouldBePurged now info p = true ->
  LastStatus info = statusRunning /\ SubDomain info ∉ excludesMap p.
Proof.
  unfold ShouldBePurged.
  destruct (String.eqb_spec (LastStatus info) statusRunning) as [Hs|Hs]; cbn [negb];
    [|discriminate].
  case_bool_decide as Hex; [discriminate|]. auto.
Qed.

Variable sort_Slice : (Information -> Information -> bool) -> list Information -> list Information.

Hypothesis sort_Slice_permutation :
  forall l, Permutation (sort_Slice lessSubDomain l) l.


End purge_facts2.

Section purgeSubdomains_facts.

Import webapi.

Variable World : Type.
Variable GetAccessCount : World -> string -> Z -> (Z + string) * World.
Variable TerminateBySubdomain : World -> string -> option string * World.

#[local] Abbreviation loop := (purgeSubdomains_loop World GetAccessCount TerminateBySubdomain).

(** The subdomain was asked for at a moment when its access count was read
    without error and was not positive. *)
#[local] Abbreviation unvisited duration :=
  (fun s : string =>
     exists w sum w', GetAccessCount w s duration = (inl sum, w') /\ sum <= 0).

Lemma purgeSubdomains_loop_spec duration : forall subdomains w acc w' done,
  loop w subdomains duration acc = (w', done) ->
  (exists more, asked done = (asked acc ++ more)%list /\
     (forall s, In s more -> In s subdomains /\ unvisited duration s) /\
     (length more <= length subdomains)%nat /\
     pauses done = (pauses acc + length more)%nat /\
     purgedCount acc <= purgedCount done <= purgedCount acc + Z.of_nat (length more)).
Proof.
  induction subdomains as [|s rest IH]; intros w acc w' done H; cbn [purgeSubdomains_loop] in H.
  - injection H as <- <-. exists []. rewrite app_nil_r. split; [reflexivity|].
    split; [intros s []|]. cbn [length]. split; [lia|]. split; lia.
  - destruct (GetAccessCount w s duration) as [[sum|err] w1] eqn:Hget.
    + destruct (Z.ltb_spec 0 sum) as [Hpos|Hzero].
      * destruct (IH _ _ _ _ H) as (more & H1 & H2 & H3 & H4 & H5).
        exists more. cbn [asked pauses purgedCount length] in *.
        split; [exact H1|]. split; [|split; [lia|split; [exact H4|exact H5]]].
        intros s' Hs'. destruct (H2 s' Hs'). split; [right; assumption|assumption].
      * destruct (TerminateBySubdomain w1 s) as [err w2].
        destruct (IH _ _ _ _ H) as (more & H1 & H2 & H3 & H4 & H5).
        exists (s :: more). split; [|split; [|split; [|split]]].
        -- rewrite H1. destruct err; cbn [asked]; rewrite <- app_assoc; reflexivity.
        -- intros s' [<-|Hs']; [split; [left; reflexivity|eauto]|].
           destruct (H2 s' Hs'). split; [right; assumption|assumption].
        -- cbn [length]. lia.
        -- rewrite H4. destruct err; cbn [pauses length]; lia.
        -- destruct err; cbn [purgedCount length] in *; lia.
    + destruct (IH _ _ _ _ H) as (more & H1 & H2 & H3 & H4 & H5).
      exists more. cbn [asked pauses purgedCount length] in *.
      split; [exact H1|]. split; [|split; [lia|split; [exact H4|exact H5]]].
      intros s' Hs'. destruct (H2 s' Hs'). split; [right; assumption|assumption].
Qed.

(** X18.  [purgeSubdomains] asks the runner to terminate only subdomains of its
    list whose access count it has read, without error, as zero or less;
    it pauses once for every subdomain it asked for, and counts as purged
    no more than it asked for.  When another purge holds the lock it does
    nothing. *)
Theorem purgeSubdomains_asks locked w subdomains duration :
  let '(w', done) :=
    purgeSubdomains World GetAccessCount TerminateBySubdomain locked w subdomains duration in
  (locked = true -> w' = w /\ asked done = [] /\ purgedCount done = 0 /\ pauses done = O) /\
  (forall s, In s (asked done) ->
     In s subdomains /\
     exists w0 sum w1, GetAccessCount w0 s duration = (inl sum, w1) /\ sum <= 0) /\
  (length (asked done) <= length subdomains)%nat /\
  pauses done = length (asked done) /\
  0 <= purgedCount done <= Z.of_nat (length (asked done)).
Proof.
  unfold purgeSubdomains. destruct locked.
  - cbn [asked purgedCount pauses length]. split; [auto|]. split; [intros s []|].
    split; [lia|]. split; [reflexivity|lia].
  - match goal with |- context [loop ?w ?l ?d ?acc] =>
      destruct (loop w l d acc) as [w' done] eqn:Hloop end.
    destruct (purgeSubdomains_loop_spec _ _ _ _ _ _ Hloop) as (more & H1 & H2 & H3 & H4 & H5).
    cbn [asked purgedCount pauses app] in *. subst more.
    split; [discriminate|]. split; [exact H2|]. split; [exact H3|]. split; [lia|lia].
Qed.

End purgeSubdomains_facts.


(** ** Parameters of a launch *)

Section launch_request_facts.

Import ecs webapi.

#[local] Open Scope string_scope.

(** What [LoadParameter] puts under a key: a value that is not empty, is
    what the request gave or the default of a parameter of that name, obeys
    the rule of that parameter and has at most 255 runes. *)
#[local] Abbreviation loaded configParams getFunc :=
  (fun (k x : string) =>
     exists v, In v configParams /\ ecs.Name v = k /\ x <> "" /\
       (x = getFunc k \/ (getFunc k = "" /\ x = Default v)) /\
       (Rule v <> "" -> Regexp_MatchString v x = true) /\
       RuneCountInString x <= 255).

Lemma LoadParameter_loop_spec getFunc all : forall configParams parameter result,
  (forall v, In v configParams -> In v all) ->
  LoadParameter_loop configParams getFunc parameter = inl result ->
  (forall k x, result !! k = Some x ->
     parameter !! k = Some x \/ loaded all getFunc k x) /\
  (forall k, is_Some (parameter !! k) -> is_Some (result !! k)) /\
  (forall v, In v configParams -> Required v = true -> is_Some (result !! ecs.Name v)).
Proof.
  induction configParams as [|v rest IH]; intros parameter result Hsub H;
    cbn [LoadParameter_loop] in H.
  - injection H as <-. split; [auto|]. split; [auto|]. intros v [].
  - assert (Hrest : forall w, In w rest -> In w all) by (intros w Hw; apply Hsub; right; exact Hw).
    set (param := if String.eqb (getFunc (ecs.Name v)) "" && negb (String.eqb (Default v) "")
                  then Default v else getFunc (ecs.Name v)) in H.
    assert (Hparam : param = getFunc (ecs.Name v) \/
                     (getFunc (ecs.Name v) = "" /\ param = Default v)).
    { subst param. destruct (String.eqb_spec (getFunc (ecs.Name v)) ""); cbn [andb]; auto.
      destruct (negb _); auto. }
    destruct (String.eqb_spec param "") as [Hempty|Hfull]; cbn [andb] in H.
    + destruct (Required v) eqn:Hreq; [discriminate|].
      destruct (IH _ _ Hrest H) as (H1 & H2 & H3). split; [exact H1|]. split; [exact H2|].
      intros w [<-|Hw] Hr; [congruence|apply H3; assumption].
    + destruct (negb (String.eqb (Rule v) "") && negb (Regexp_MatchString v param)) eqn:Hrule;
        [discriminate|].
      destruct (Z.ltb_spec 255 (RuneCountInString param)) as [Hlong|Hshort]; [discriminate|].
      destruct (IH _ _ Hrest H) as (H1 & H2 & H3).
      assert (Hkey : is_Some (result !! ecs.Name v)) by (apply H2; rewrite lookup_insert_eq; eauto).
      split; [|split].
      * intros k x Hk. destruct (H1 k x Hk) as [Hins|Hl]; [|right; exact Hl].
        destruct (decide (ecs.Name v = k)) as [<-|Hne].
        -- rewrite lookup_insert_eq in Hins. injection Hins as <-. right.
           exists v. split; [apply Hsub; left; reflexivity|]. split; [reflexivity|].
           split; [exact Hfull|]. split; [exact Hparam|]. split; [|exact Hshort].
           intros Hr. apply andb_false_iff in Hrule. destruct Hrule as [Hr'|Hm].
           ++ apply negb_false_iff, String.eqb_eq in Hr'. contradiction.
           ++ apply negb_false_iff in Hm. exact Hm.
        -- rewrite lookup_insert_ne in Hins by assumption. left. exact Hins.
      * intros k Hk. apply H2. destruct (decide (ecs.Name v = k)) as [<-|Hne];
          [rewrite lookup_insert_eq; eauto|rewrite lookup_insert_ne by assumption; exact Hk].
      * intros w [<-|Hw] Hr; [exact Hkey|apply H3; assumption].
Qed.

(** X19.  The parameters that [LoadParameter] returns: every entry is under the
    name of a parameter of the configuration, with a value that is not
    empty, comes from the request or is the default, obeys the rule and has
    at most 255 runes; and every required parameter has an entry. *)
Theorem LoadParameter_loaded configParams getFunc parameter :
  LoadParameter configParams getFunc = inl parameter ->
  (forall k x, parameter !! k = Some x ->
     exists v, In v configParams /\ ecs.Name v = k /\ x <> "" /\
       (x = getFunc k \/ (getFunc k = "" /\ x = Default v)) /\
       (Rule v <> "" -> Regexp_MatchString v x = true) /\
       RuneCountInString x <= 255) /\
  (forall v, In v configParams -> Required v = true -> is_Some (parameter !! ecs.Name v)).
Proof.
  intros H. destruct (LoadParameter_loop_spec getFunc configParams _ _ _ (fun v Hv => Hv) H)
    as (H1 & _ & H3).
  split; [|exact H3]. intros k x Hk. destruct (H1 k x Hk) as [He|Hl]; [|exact Hl].
  rewrite lookup_empty in He. discriminate.
Qed.

Lemma MergeForm_loop_spec : forall form parameters result,
  NoDup (map fst form) ->
  MergeForm_loop form parameters = Returns result ->
  forall key,
    result !! key
    = match List.find (fun kv => String.eqb (fst kv) key) form with
      | Some (_, value :: _) => if reserved key then parameters !! key else Some value
      | _ => parameters !! key
      end.
Proof.
  induction form as [|[k values] form IH]; intros parameters result Hnd H key;
    cbn [MergeForm_loop] in H.
  - injection H as <-. reflexivity.
  - cbn [map fst] in Hnd. apply NoDup_cons in Hnd. destruct Hnd as [Hk Hnd].
    assert (Hlater : k = key -> List.find (fun kv => String.eqb (fst kv) key) form = None).
    { intros ->. destruct (List.find _ form) as [[k' vs]|] eqn:Hf; [|reflexivity].
      apply List.find_some in Hf. destruct Hf as [Hin Heq]. cbn [fst] in Heq.
      apply String.eqb_eq in Heq. subst k'. exfalso. apply Hk.
      apply list_elem_of_In. apply in_map_iff. exists (key, vs). auto. }
    cbn [List.find fst]. destruct (reserved k) eqn:Hres.
    + rewrite (IH _ _ Hnd H key). destruct (String.eqb_spec k key) as [->|Hne]; [|reflexivity].
      rewrite Hlater by reflexivity. rewrite Hres. destruct values; reflexivity.
    + destruct values as [|value values]; [discriminate|].
      rewrite (IH _ _ Hnd H key). destruct (String.eqb_spec k key) as [->|Hne].
      * rewrite Hlater by reflexivity. rewrite Hres, lookup_insert_eq. reflexivity.
      * rewrite lookup_insert_ne by assumption. reflexivity.
Qed.

Lemma find_map_to_list (form : gmap string (list string)) key :
  List.find (fun kv => String.eqb (fst kv) key) (map_to_list form)
  = match form !! key with
    | Some values => Some (key, values)
    | None => None
    end.
Proof.
  destruct (List.find _ (map_to_list form)) as [[k vs]|] eqn:Hf.
  - apply List.find_some in Hf. destruct Hf as [Hin Heq]. cbn [fst] in Heq.
    apply String.eqb_eq in Heq. subst k.
    apply list_elem_of_In, elem_of_map_to_list in Hin. rewrite Hin. reflexivity.
  - destruct (form !! key) as [values|] eqn:Hk; [|reflexivity].
    apply elem_of_map_to_list, list_elem_of_In in Hk.
    apply (List.find_none _ _ Hf) in Hk. cbn [fst] in Hk.
    rewrite String.eqb_refl in Hk. discriminate.
Qed.

(** X20.  The form wins over the parameters of the request, except for the
    three keys of the request itself: after [MergeForm], [GetParameter]
    gives the first value of the form for a key of the form that is not
    [branch], [subdomain] or [taskdef], and what it gave before for any
    other key; the subdomain, the branch and the task definitions are as
    they were. *)
Theorem MergeForm_GetParameter r form r' :
  MergeForm r form = Returns r' ->
  Subdomain r' = Subdomain r /\ Branch r' = Branch r /\ Taskdef r' = Taskdef r /\
  forall key,
    GetParameter r' key
    = match form !! key with
      | Some (value :: _) => if reserved key then GetParameter r key else value
      | _ => GetParameter r key
      end.
Proof.
  unfold MergeForm. intros H.
  destruct (MergeForm_loop (map_to_list form) (Parameters r)) as [parameters|] eqn:Hloop;
    cbn [bind] in H; [|discriminate].
  injection H as <-. cbn [Subdomain Branch Taskdef].
  split; [reflexivity|]. split; [reflexivity|]. split; [reflexivity|].
  intros key. unfold GetParameter. cbn [Branch Parameters].
  pose proof (MergeForm_loop_spec _ _ _ (NoDup_fst_map_to_list form) Hloop key) as Hk.
  rewrite find_map_to_list in Hk.
  destruct (String.eqb_spec key "branch") as [->|Hb].
  - destruct (form !! "branch") as [[|value values]|]; reflexivity.
  - rewrite Hk. destruct (form !! key) as [[|value values]|]; try reflexivity.
    destruct (reserved key); reflexivity.
Qed.

End launch_request_facts.


(** ** Launching and the list page *)

Section launch_facts2.

Import ecs webapi.

#[local] Open Scope string_scope.

Variable Map_unicode_ToLower : string -> string.
Variable Bind : APILaunchRequest -> APILaunchRequest + string.
Variable runner_Launch : string -> TaskParameter -> list string -> option string.
Variable cfg_Parameter : list Parameter_.

(** X21.  [launch] answers 200, 400 or 500, and 200 exactly when it returns no
    error.  It calls the runner only with a subdomain that
    [validateSubdomain] accepts, with at least one task definition and with
    parameters that [LoadParameter] has loaded; it answers 400 without
    calling the runner, 500 when the runner fails and 200 when it
    succeeds. *)
Theorem launch_calls ps res :
  launch Map_unicode_ToLower Bind runner_Launch cfg_Parameter ps = Returns res ->
  (code res = 200 \/ code res = 400 \/ code res = 500) /\
  (code res = 200 <-> launchError_ res = None) /\
  (code res = 400 <-> launchCall res = None) /\
  forall subdomain parameter taskdefs,
    launchCall res = Some (subdomain, parameter, taskdefs) ->
    validateSubdomain subdomain = None /\ taskdefs <> [] /\
    (exists getFunc, LoadParameter cfg_Parameter getFunc = inl parameter) /\
    (code res = 200 <-> runner_Launch subdomain parameter taskdefs = None) /\
    (code res = 500 <-> is_Some (runner_Launch subdomain parameter taskdefs)).
Proof.
  unfold launch. intros H.
  destruct (MergeForm _ ps) as [merged|]; cbn [bind] in H; [|discriminate].
  assert (Hbad : forall e, res = mkLaunched StatusBadRequest (Some e) None ->
    (code res = 200 \/ code res = 400 \/ code res = 500) /\
    (code res = 200 <-> launchError_ res = None) /\
    (code res = 400 <-> launchCall res = None) /\
    forall subdomain parameter taskdefs,
      launchCall res = Some (subdomain, parameter, taskdefs) ->
      validateSubdomain subdomain = None /\ taskdefs <> [] /\
      (exists getFunc, LoadParameter cfg_Parameter getFunc = inl parameter) /\
      (code res = 200 <-> runner_Launch subdomain parameter taskdefs = None) /\
      (code res = 500 <-> is_Some (runner_Launch subdomain parameter taskdefs))).
  { intros e ->. cbn [code launchError_ launchCall]. unfold StatusBadRequest.
    split; [auto|]. split; [split; [lia|discriminate]|]. split; [tauto|]. discriminate. }
  destruct (Bind merged) as [r|err]; [|injection H as <-; eapply Hbad; reflexivity].
  destruct (validateSubdomain _) as [e|] eqn:Hvalid;
    [injection H as <-; eapply Hbad; reflexivity|].
  destruct (LoadParameter cfg_Parameter (GetParameter r)) as [parameter|e] eqn:Hload;
    [|injection H as <-; eapply Hbad; reflexivity].
  destruct (String.eqb _ "" || (length (Taskdef r) =? 0)%nat) eqn:Hreq;
    [injection H as <-; eapply Hbad; reflexivity|].
  apply orb_false_iff in Hreq. destruct Hreq as [_ Hdefs].
  assert (Htd : Taskdef r <> []) by (intros E; rewrite E in Hdefs; discriminate).
  destruct (runner_Launch _ parameter (Taskdef r)) as [err|] eqn:Hrun;
    injection H as <-; cbn [code launchError_ launchCall];
    unfold StatusOK, StatusInternalServerError;
    (split; [auto|]); (split; [split; [lia || reflexivity|discriminate || reflexivity]|]);
    (split; [split; [lia|discriminate]|]);
    intros subdomain parameter' taskdefs [= <- <- <-];
    (split; [exact Hvalid|]); (split; [exact Htd|]); (split; [eauto|]);
    rewrite Hrun; split; split; try lia; try discriminate; eauto.
  intros [? ?]. discriminate.
Qed.

End launch_facts2.

Section list_page_facts.

Import ecs webapi.

Lemma firstOfSubdomain_spec : forall infos (seen : gset string),
  List.NoDup (map SubDomain (firstOfSubdomain infos seen)) /\
  (forall info, In info (firstOfSubdomain infos seen) ->
     In info infos /\ SubDomain info ∉ seen) /\
  (forall info, In info infos -> SubDomain info ∉ seen ->
     exists kept pre post,
       In kept (firstOfSubdomain infos seen) /\ SubDomain kept = SubDomain info /\
       infos = pre ++ kept :: post /\
       (forall other, In other pre -> SubDomain other <> SubDomain info)).
Proof.
  induction infos as [|x infos IH]; intros seen; cbn [firstOfSubdomain].
  - split; [constructor|]. split; intros info [].
  - case_bool_decide as Hx.
    + destruct (IH seen) as (H1 & H2 & H3). split; [exact H1|]. split.
      * intros info Hin. destruct (H2 info Hin). split; [right; assumption|assumption].
      * intros info [<-|Hin] Hs; [contradiction|].
        destruct (H3 info Hin Hs) as (kept & pre & post & Hk & Heq & -> & Hpre).
        exists kept, (x :: pre), post.
        split; [exact Hk|]. split; [exact Heq|]. split; [reflexivity|].
        intros other [<-|Ho]; [|apply Hpre; exact Ho]. congruence.
    + destruct (IH ({[SubDomain x]} ∪ seen)) as (H1 & H2 & H3). split; [|split].
      * cbn [map]. constructor; [|exact H1]. intros Hin. apply in_map_iff in Hin.
        destruct Hin as (y & Hy & Hiny). destruct (H2 y Hiny) as [_ Hn].
        apply Hn. rewrite Hy. apply elem_of_union_l, elem_of_singleton. reflexivity.
      * intros info [<-|Hin]; [split; [left; reflexivity|exact Hx]|].
        destruct (H2 info Hin) as [Hi Hn].
        split; [right; exact Hi|]. intros Hs. apply Hn, elem_of_union_r. exact Hs.
      * assert (Hhead : forall info, SubDomain info = SubDomain x ->
                  exists kept pre post,
                    In kept (x :: firstOfSubdomain infos ({[SubDomain x]} ∪ seen)) /\
                    SubDomain kept = SubDomain info /\
                    x :: infos = pre ++ kept :: post /\
                    (forall other, In other pre -> SubDomain other <> SubDomain info)).
        { intros info E. exists x, [], infos.
          split; [left; reflexivity|]. split; [symmetry; exact E|].
          split; [reflexivity|]. intros other []. }
        intros info [<-|Hin] Hs; [apply Hhead; reflexivity|].
        destruct (decide (SubDomain info = SubDomain x)) as [E|E]; [apply Hhead; exact E|].
        assert (Hnew : SubDomain info ∉ {[SubDomain x]} ∪ seen)
          by (apply not_elem_of_union; split; [apply not_elem_of_singleton; exact E|exact Hs]).
        destruct (H3 info Hin Hnew) as (kept & pre & post & Hk & Heq & -> & Hpre).
        exists kept, (x :: pre), post.
        split; [right; exact Hk|]. split; [exact Heq|]. split; [reflexivity|].
        intros other [<-|Ho]; [congruence|apply Hpre; exact Ho].
Qed.

Variable sort_Slice : (Information -> Information -> bool) -> list Information -> list Information.

Hypothesis sort_Slice_permutation :
  forall less l, Permutation (sort_Slice less l) l.
Hypothesis sort_Slice_created :
  forall l, StronglySorted (fun a b => createdBefore b a = false)
                           (sort_Slice createdBefore l).

(** X22.  The list page shows the running tasks as [List] gives them, followed
    by one stopped task for every subdomain that has stopped tasks: the
    one that was created first. *)
Theorem List_page fuel svc cache infos cache' :
  webapi.List_ sort_Slice fuel svc cache = Some (Returns (inl infos, cache')) ->
  exists infoRunning infoStopped shown cache1,
    ecs.List_ sort_Slice fuel svc statusRunning cache
    = Some (Returns (infoRunning, None, cache1)) /\
    ecs.List_ sort_Slice fuel svc statusStopped cache1
    = Some (Returns (infoStopped, None, cache')) /\
    infos = infoRunning ++ shown /\
    List.NoDup (map SubDomain shown) /\
    (forall info, In info shown -> In info infoStopped) /\
    (forall info, In info infoStopped ->
       exists kept, In kept shown /\ SubDomain kept = SubDomain info /\
                    Created kept <= Created info).
Proof.
  unfold webapi.List_. intros H.
  destruct (ecs.List_ sort_Slice fuel svc statusRunning cache)
    as [[[[infoRunning [e|]] cache1]|]|] eqn:Hrunning; try discriminate.
  destruct (ecs.List_ sort_Slice fuel svc statusStopped cache1)
    as [[[[infoStopped [e|]] cache2]|]|] eqn:Hstopped; try discriminate.
  injection H as <- <-.
  destruct (firstOfSubdomain_spec (sort_Slice createdBefore infoStopped) ∅)
    as (Hnd & Hsub & Hfirst).
  exists infoRunning, infoStopped,
    (firstOfSubdomain (sort_Slice createdBefore infoStopped) ∅), cache1.
  split; [reflexivity|]. split; [exact Hstopped|]. split; [reflexivity|].
  split; [exact Hnd|]. split.
  - intros info Hin. destruct (Hsub info Hin) as [Hs _].
    eapply Permutation_in; [apply sort_Slice_permutation|exact Hs].
  - intros info Hin.
    assert (Hs : In info (sort_Slice createdBefore infoStopped))
      by (eapply Permutation_in; [symmetry; apply sort_Slice_permutation|exact Hin]).
    destruct (Hfirst info Hs (not_elem_of_empty _))
      as (kept & pre & post & Hk & Heq & Hsplit & Hpre).
    exists kept. split; [exact Hk|]. split; [exact Heq|].
    pose proof (sort_Slice_created infoStopped) as Hsorted. rewrite Hsplit in Hsorted, Hs.
    apply in_app_iff in Hs. destruct Hs as [Hs|[->|Hs]].
    + exfalso. exact (Hpre info Hs eq_refl).
    + lia.
    + clear -Hsorted Hs. induction pre as [|y pre IH]; cbn [app] in Hsorted.
      * apply StronglySorted_inv in Hsorted. destruct Hsorted as [_ Hall].
        rewrite List.Forall_forall in Hall. specialize (Hall info Hs).
        unfold createdBefore in Hall. apply Z.ltb_ge in Hall. exact Hall.
      * apply StronglySorted_inv in Hsorted. apply IH, Hsorted.
Qed.

End list_page_facts.


(** ** Subdomains as host names and as patterns *)

Section name_facts.

Import gostrings reverseproxy.

#[local] Open Scope string_scope.

Variable Map_unicode_ToLower : string -> string.

Lemma labelChar_ascii c :
  (isAlnum c || isGlobMeta c || isHyphen c) = true ->
  (byte_of c <? 128)%Z = true /\ c <> "."%char /\ c <> "/"%char /\ c <> ":"%char.
Proof.
  destruct c as [b0 b1 b2 b3 b4 b5 b6 b7].
  destruct b0, b1, b2, b3, b4, b5, b6, b7; vm_compute; intros H;
    first [discriminate H | repeat split; discriminate].
Qed.

Lemma lowerByte_idempotent c : lowerByte (lowerByte c) = lowerByte c.
Proof.
  destruct c as [b0 b1 b2 b3 b4 b5 b6 b7].
  destruct b0, b1, b2, b3, b4, b5, b6, b7; vm_compute; reflexivity.
Qed.

Lemma mapBytes_lower_idempotent s :
  mapBytes lowerByte (mapBytes lowerByte s) = mapBytes lowerByte s.
Proof.
  induction s as [|c s IH]; [reflexivity|]. cbn [mapBytes].
  rewrite lowerByte_idempotent, IH. reflexivity.
Qed.

Lemma list_ascii_app a b :
  list_ascii_of_string (a ++ b) = (list_ascii_of_string a ++ list_ascii_of_string b)%list.
Proof.
  induction a as [|c a IH]; [reflexivity|].
  change (String c a ++ b) with (String c (a ++ b)). cbn [list_ascii_of_string app].
  rewrite IH. reflexivity.
Qed.

Lemma validateSubdomain_chars s :
  validateSubdomain s = None ->
  List.Forall (fun c => (isAlnum c || isGlobMeta c || isHyphen c) = true)
              (list_ascii_of_string s).
Proof.
  intros H. apply validateSubdomain_accepts in H.
  destruct H as [(_ & c0 & mid & cl & -> & H0 & Hmid & Hl) _].
  cbn [list_ascii_of_string]. rewrite list_ascii_app. cbn [list_ascii_of_string].
  constructor.
  - apply orb_true_iff in H0. destruct H0 as [H0|H0].
    + unfold isAlnum. rewrite H0. reflexivity.
    + rewrite H0, orb_true_r. reflexivity.
  - apply List.Forall_app. split.
    + apply List.Forall_forall. exact Hmid.
    + constructor; [|constructor]. rewrite Hl. reflexivity.
Qed.

Lemma subdomainOf_first s rest :
  without "." s -> isASCII s = true ->
  subdomainOf Map_unicode_ToLower (s ++ "." ++ rest) = mapBytes lowerByte s.
Proof.
  intros Hdot Hascii. unfold subdomainOf, Split.
  change ("." ++ rest) with (String "."%char rest).
  destruct (String.length (s ++ String "."%char rest)) as [|n] eqn:Hlen.
  { rewrite length_app_string in Hlen. cbn [String.length] in Hlen. lia. }
  cbn [genSplit]. rewrite cut_first by exact Hdot. cbn [hd].
  unfold ToLower. rewrite Hascii. reflexivity.
Qed.

(** X23.  A subdomain that [validateSubdomain] accepts is a host label: it is
    ASCII and has no dot, slash or colon, so a request for the host made of
    the subdomain, a dot and a domain is looked up under the subdomain in
    lower case; that is the subdomain itself when it is the lower case of
    an ASCII string, as [launch] makes it. *)
Theorem validateSubdomain_host s :
  validateSubdomain s = None ->
  isASCII s = true /\ without "." s /\ without "/" s /\ without ":" s /\
  (forall rest,
     subdomainOf Map_unicode_ToLower (s ++ "." ++ rest) = mapBytes lowerByte s) /\
  (forall x rest,
     isASCII x = true -> s = ToLower Map_unicode_ToLower x ->
     subdomainOf Map_unicode_ToLower (s ++ "." ++ rest) = s).
Proof.
  intros H. pose proof (validateSubdomain_chars s H) as Hchars.
  assert (Hall : List.Forall (fun c => (byte_of c <? 128)%Z = true /\ c <> "."%char /\
                                       c <> "/"%char /\ c <> ":"%char)
                             (list_ascii_of_string s)).
  { eapply List.Forall_impl; [|exact Hchars]. intros c. apply labelChar_ascii. }
  rewrite List.Forall_forall in Hall.
  assert (Hascii : isASCII s = true).
  { unfold isASCII. apply forallb_forall. intros c Hc. apply (Hall c Hc). }
  assert (Hdot : without "." s)
    by (intros Hin; destruct (Hall _ Hin) as (_ & Hd & _); apply Hd; reflexivity).
  split; [exact Hascii|]. split; [exact Hdot|].
  split; [intros Hin; destruct (Hall _ Hin) as (_ & _ & Hd & _); apply Hd; reflexivity|].
  split; [intros Hin; destruct (Hall _ Hin) as (_ & _ & _ & Hd); apply Hd; reflexivity|].
  split; [intros rest; apply subdomainOf_first; assumption|].
  intros x rest Hx Hs. rewrite subdomainOf_first by assumption.
  unfold ToLower in Hs. rewrite Hx in Hs. rewrite Hs. apply mapBytes_lower_idempotent.
Qed.

Lemma plainChar_literal c :
  (isAlnum c || isHyphen c) = true ->
  Ascii.eqb c path.backslash = false /\ path.isChar c "[" = false /\
  path.isChar c "]" = false /\ path.isChar c "*" = false /\ path.isChar c "?" = false.
Proof.
  destruct c as [b0 b1 b2 b3 b4 b5 b6 b7].
  destruct b0, b1, b2, b3, b4, b5, b6, b7; vm_compute; intros H;
    first [discriminate H | repeat split; reflexivity].
Qed.

Lemma plainName_cons c s :
  plainName (String c s) <-> (isAlnum c || isHyphen c) = true /\ plainName s.
Proof. unfold plainName. cbn [list_ascii_of_string]. apply List.Forall_cons_iff. Qed.

Lemma scan_plain s : plainName s -> forall inrange, path.scan inrange s = (s, "").
Proof.
  induction s as [|c s IH]; intros H inrange; [reflexivity|].
  apply plainName_cons in H. destruct H as [Hc Hs].
  destruct (plainChar_literal c Hc) as (H1 & H2 & H3 & H4 & _).
  cbn [path.scan]. rewrite H1, H2, H3, H4. cbn [andb]. rewrite (IH Hs). reflexivity.
Qed.

Lemma scanChunk_plain s : plainName s -> path.scanChunk s = (false, s, "").
Proof.
  intros H. unfold path.scanChunk.
  assert (Hstars : path.skipStars s = (false, s)).
  { destruct s as [|c s]; [reflexivity|]. apply plainName_cons in H. destruct H as [Hc _].
    destruct (plainChar_literal c Hc) as (_ & _ & _ & H4 & _).
    cbn [path.skipStars]. rewrite H4. reflexivity. }
  rewrite Hstars, (scan_plain s H). reflexivity.
Qed.

Lemma matchChunk_loop_plain : forall chunk, plainName chunk ->
  forall fuel failed s, (String.length chunk <= fuel)%nat ->
    path.matchChunk_loop fuel failed chunk s
    = if failed then Some None
      else if HasPrefix s chunk then Some (Some (path.drop (String.length chunk) s))
      else Some None.
Proof.
  induction chunk as [|l tl IH]; intros H fuel failed s Hfuel.
  - destruct fuel; cbn [path.matchChunk_loop]; destruct failed; try reflexivity;
      destruct s; reflexivity.
  - apply plainName_cons in H. destruct H as [Hl Htl].
    destruct (plainChar_literal l Hl) as (H1 & H2 & _ & _ & H5).
    destruct fuel as [|fuel]; [cbn [String.length] in Hfuel; lia|].
    cbn [String.length] in Hfuel.
    cbn [path.matchChunk_loop]. rewrite H2, H5, H1.
    destruct failed; cbn [orb].
    + rewrite IH by (assumption || lia). reflexivity.
    + destruct s as [|c0 s]; cbn [String.length Nat.eqb].
      * rewrite IH by (assumption || lia). reflexivity.
      * rewrite IH by (assumption || lia). cbn [path.drop HasPrefix String.length].
        rewrite (Ascii.eqb_sym l c0). destruct (Ascii.eqb c0 l); reflexivity.
Qed.

Lemma HasPrefix_drop : forall p s,
  HasPrefix s p = true -> s = p ++ path.drop (String.length p) s.
Proof.
  induction p as [|c p IH]; intros s H; [reflexivity|].
  destruct s as [|c0 s]; [discriminate|]. cbn [HasPrefix] in H.
  apply andb_true_iff in H. destruct H as [Hc Hp]. apply Ascii.eqb_eq in Hc. subst c0.
  change (String c p ++ path.drop (String.length (String c p)) (String c s))
    with (String c (p ++ path.drop (String.length p) s)).
  rewrite <- (IH s Hp). reflexivity.
Qed.

Lemma Match_plain name s : plainName name -> path.Match name s = Some (String.eqb name s).
Proof.
  intros H. unfold path.Match. destruct name as [|c name].
  - cbn [String.length path.Match_loop]. destruct s; reflexivity.
  - cbn [String.length path.Match_loop]. rewrite (scanChunk_plain _ H). cbn [andb].
    unfold path.matchChunk. rewrite matchChunk_loop_plain by (assumption || lia).
    destruct (HasPrefix s (String c name)) eqn:Hp.
    + pose proof (HasPrefix_drop _ _ Hp) as Hs.
      destruct (path.drop (String.length (String c name)) s) as [|c1 t] eqn:Hd.
      * rewrite append_empty in Hs. subst s. rewrite String.eqb_refl.
        cbn [String.length Nat.eqb orb]. destruct name; reflexivity.
      * cbn [String.length Nat.eqb Nat.ltb Nat.leb orb path.checkRest].
        f_equal. symmetry. apply String.eqb_neq.
        intros E. rewrite <- E in Hs. apply (f_equal String.length) in Hs.
        rewrite length_app_string in Hs. cbn [String.length] in Hs. lia.
    + cbn [String.length Nat.eqb Nat.ltb Nat.leb orb path.checkRest].
      f_equal. symmetry. apply String.eqb_neq. intros <-.
      rewrite <- (append_empty (String c name)) in Hp at 1.
      rewrite HasPrefix_app in Hp. discriminate.
Qed.

(** X24.  A name made of letters, digits and hyphens is a pattern for itself
    alone.  So in a consistent registry whose names are all of this kind,
    [Exists] reports exactly the registered subdomains, and a lookup of any
    other subdomain returns nil and changes nothing. *)
Theorem plain_names_match_themselves :
  (forall name s, plainName name -> matches name s = String.eqb name s) /\
  (forall r s,
     wellFormed r -> (forall n, In n (domains r) -> plainName n) ->
     (Exists r s = true <-> is_Some (domainMap r !! s)) /\
     (domainMap r !! s = None ->
      forall now order port,
        fst (fst (FindHandler now order r s port)) = None /\
        snd (fst (FindHandler now order r s port)) = r)).
Proof.
  assert (Hm : forall name s, plainName name -> matches name s = String.eqb name s).
  { intros name s H. unfold matches. rewrite Match_plain by exact H. reflexivity. }
  split; [exact Hm|]. intros r s (_ & Hdom & _) Hplain.
  assert (Hnone : domainMap r !! s = None ->
                  existsb (fun name => matches name s) (domains r) = false).
  { intros Hs. destruct (existsb _ (domains r)) eqn:Hex; [|reflexivity].
    apply List.existsb_exists in Hex. destruct Hex as (n & Hin & Hmatch).
    rewrite Hm in Hmatch by (apply Hplain; exact Hin). apply String.eqb_eq in Hmatch.
    subst n. apply Hdom in Hin. rewrite Hs in Hin. destruct Hin. discriminate. }
  split.
  - unfold Exists. destruct (domainMap r !! s) as [ph|] eqn:Hs.
    + split; eauto.
    + rewrite (Hnone eq_refl). split; [discriminate|intros [? ?]; discriminate].
  - intros Hs now order port. pose proof (Hnone Hs) as Hno.
    unfold FindHandler, firstMatch. rewrite Hs.
    destruct (List.find (fun name => matches name s) (domains r)) as [n|] eqn:Hf; [|auto].
    apply List.find_some in Hf.
    assert (Ht : existsb (fun name => matches name s) (domains r) = true)
      by (apply List.existsb_exists; exists n; exact Hf).
    rewrite Hno in Ht. discriminate.
Qed.

End name_facts.


(** ** Examples *)

Section example_facts.

Import ecs webapi.

Lemma firstError_nil errs :
  firstError errs = None <-> List.Forall (fun e => e = None) errs.
Proof.
  induction errs as [|[e|] errs IH]; cbn [firstError].
  - split; [constructor|reflexivity].
  - split; [discriminate|]. intros H. apply List.Forall_cons_iff in H. destruct H as [H _].
    discriminate.
  - rewrite IH. split; [intros H; constructor; [reflexivity|exact H]|].
    intros H. apply List.Forall_cons_iff in H. apply H.
Qed.

Lemma insertSorted_created x l :
  StronglySorted (fun a b => createdBefore b a = false) l ->
  StronglySorted (fun a b => createdBefore b a = false) (insertSorted createdBefore x l).
Proof.
  induction 1 as [|y l Hl IH Hy]; cbn [insertSorted].
  - repeat constructor.
  - destruct (createdBefore x y) eqn:Hxy.
    + constructor; [constructor; assumption|].
      unfold createdBefore in *. apply Z.ltb_lt in Hxy.
      constructor; [apply Z.ltb_ge; lia|].
      rewrite List.Forall_forall in Hy |- *. intros z Hz.
      specialize (Hy z Hz). apply Z.ltb_ge in Hy. apply Z.ltb_ge. lia.
    + constructor; [exact IH|].
      eapply Permutation_Forall; [symmetry; apply insertSorted_permutation|].
      constructor; assumption.
Qed.

Lemma insertionSort_created l :
  StronglySorted (fun a b => createdBefore b a = false) (insertionSort createdBefore l).
Proof.
  induction l as [|x l IH]; [constructor|].
  cbn [insertionSort fold_right]. apply insertSorted_created. exact IH.
Qed.

End example_facts.

Section further_witnesses.

Import gostrings reverseproxy ecs webapi.

#[local] Open Scope string_scope.

Lemma AddSubdomain_registers_witness :
  0 < proxyHandlerLifetime registry0 /\
  (let '(_, r', _) :=
     AddSubdomain parseAny unreachable 0 ∅ registry0
                  "ab" "10.0.0.1" 80 in
   (exists hd,
      registered r' "ab" (ListenPort (mkPortMap 80 80 false))
                 (JoinHostPort "10.0.0.1" (Itoa 80)) = Some hd /\
      timer hd = 0 + proxyHandlerLifetime registry0) /\
   In "ab" (domains r') /\
   is_Some (accessCounters r' !! "ab")).
Proof.
  assert (H1 : 0 < proxyHandlerLifetime registry0)
    by (vm_compute; reflexivity).
  split; [exact H1|].
  exact (AddSubdomain_registers parseAny unreachable 0 ∅ registry0
           "ab" "10.0.0.1" 80 (mkPortMap 80 80 false) H1
           (or_introl eq_refl) (or_introl eq_refl) (ex_intro _ _ eq_refl)).
Defined.

Lemma ServeHTTPWithPort_after_AddSubdomain_witness :
  subdomainOf keepCase (Host exampleHostRequest) = "ab" /\
  10 * Second < 0 + proxyHandlerLifetime registry0 /\
  exists hdl,
    fst (fst (ServeHTTPWithPort keepCase (10 * Second) ["10.0.0.1:80"]
                (snd (fst (AddSubdomain parseAny unreachable 0 ∅
                             registry0 "ab" "10.0.0.1" 80)))
                exampleHostRequest (ListenPort (mkPortMap 80 80 false))))
    = ServeHTTP hdl.
Proof.
  assert (H1 : 0 < proxyHandlerLifetime registry0)
    by (vm_compute; reflexivity).
  assert (H2 : subdomainOf keepCase (Host exampleHostRequest) = "ab")
    by (vm_compute; reflexivity).
  assert (H3 : 10 * Second < 0 + proxyHandlerLifetime registry0)
    by (vm_compute; reflexivity).
  split; [exact H2|]. split; [exact H3|].
  exact (ServeHTTPWithPort_after_AddSubdomain parseAny unreachable keepCase 0 ∅
           registry0 "ab" "10.0.0.1" 80 (mkPortMap 80 80 false)
           (10 * Second) ["10.0.0.1:80"] exampleHostRequest H1
           (or_introl eq_refl) (or_introl eq_refl) (ex_intro _ _ eq_refl) H2 H3
           (or_introl eq_refl)).
Defined.

Lemma Modify_add_then_remove_witness :
  domainMap registry0 !! "ab" = None /\
  accessCounters registry0 !! "ab" = None /\
  snd (fst (Modify parseAny unreachable (10 * Second) ∅
              (snd (fst (Modify parseAny unreachable 0 ∅ registry0
                                (mkProxyControl proxyAdd "ab" "10.0.0.1" 80))))
              (mkProxyControl proxyRemove "ab" "" 0)))
  = registry0.
Proof.
  split; [reflexivity|]. split; [reflexivity|].
  exact (Modify_add_then_remove parseAny unreachable 0 ∅ registry0
           "ab" "10.0.0.1" 80 (10 * Second) ∅ "" 0 eq_refl eq_refl (fun H => H)).
Defined.

Lemma RemoveSubdomain_forgets_witness :
  NoDup (domains (snd registry2)) /\
  domainMap (fst (RemoveSubdomain (snd registry2) "ab")) !! "ab" = None /\
  ~ In "ab" (domains (fst (RemoveSubdomain (snd registry2) "ab"))).
Proof.
  assert (H : NoDup (domains (snd registry2))).
  { assert (E : domains (snd registry2) = ["ab"; "a*"]) by (vm_compute; reflexivity).
    rewrite E. apply NoDup_cons_2; [|apply NoDup_singleton].
    intros Hin. apply list_elem_of_singleton in Hin. discriminate. }
  split; [exact H|].
  destruct (RemoveSubdomain_forgets (snd registry2) "ab" H) as (H1 & _ & H3 & _).
  split; [exact H1|exact H3].
Defined.

Lemma RoundTrip_error_witness :
  fst (RoundTrip 0 (exampleTransport "connection refused")
                 (exampleRequest "OPTIONS" []) ∅) = inr "connection refused" /\
  Transport_ (exampleTransport "connection refused") (exampleRequest "OPTIONS" [])
  = inr "connection refused" /\
  Contains "connection refused" "timeout" = false /\
  forwarded (snd (RoundTrip 0 (exampleTransport "connection refused")
                            (exampleRequest "OPTIONS" []) ∅))
  = [exampleRequest "OPTIONS" []].
Proof.
  assert (H : fst (RoundTrip 0 (exampleTransport "connection refused")
                             (exampleRequest "OPTIONS" []) ∅) = inr "connection refused")
    by (vm_compute; reflexivity).
  split; [exact H|].
  exact (RoundTrip_error 0 (exampleTransport "connection refused")
           (exampleRequest "OPTIONS" []) ∅ "connection refused" H).
Defined.

Lemma environment_reads_back_witness :
  paramOf branchMain (ecs.Name branchParameter) <> "" /\
  getEnvironmentFromTask
    (Some [mkContainerOverride
             (ToECSKeyValuePairs branchMain "ab" ([] ++ branchParameter :: []) keepCase)])
    (Env branchParameter)
  = Returns (paramOf branchMain (ecs.Name branchParameter)).
Proof.
  assert (H : paramOf branchMain (ecs.Name branchParameter) <> "")
    by (vm_compute; discriminate).
  split; [exact H|].
  destruct (environment_reads_back branchMain "ab" keepCase [] branchParameter [] [] H)
    as (_ & _ & H3); [vm_compute; discriminate|vm_compute; discriminate|intros w []|].
  exact H3.
Defined.

Lemma getEnvironments_agree_witness :
  NoDup (map KVName (Environment exampleOverride)) /\
  getEnvironmentsFromTask (Some [exampleOverride]) = Returns exampleEnvironment /\
  getEnvironmentFromTask (Some [exampleOverride]) "GIT_BRANCH"
  = Returns (default "" (exampleEnvironment !! "GIT_BRANCH")).
Proof.
  assert (H1 : NoDup (map KVName (Environment exampleOverride))).
  { cbn [map KVName Environment exampleOverride].
    apply NoDup_cons_2; [|apply NoDup_singleton].
    intros Hin. apply list_elem_of_singleton in Hin. discriminate. }
  assert (H2 : getEnvironmentsFromTask (Some [exampleOverride]) = Returns exampleEnvironment)
    by (vm_compute; reflexivity).
  split; [exact H1|]. split; [exact H2|].
  exact (getEnvironments_agree exampleOverride [] exampleEnvironment "GIT_BRANCH" H1 H2).
Defined.

Lemma ToECSTags_listed_witness :
  TaskTags launchedTask = ToECSTags branchMain "ab" [branchParameter] /\
  exists info cache',
    informationOf exampleClient launchedTask ∅ = Returns (Some info, cache') /\
    SubDomain info = "ab" /\ managed info /\ LastStatus info = "PENDING".
Proof.
  split; [reflexivity|].
  destruct (ToECSTags_listed branchMain "ab" [branchParameter] exampleClient ∅ launchedTask
              eq_refl) as (_ & Hentry & Hmade).
  destruct (Hmade _ _ _ _ eq_refl eq_refl eq_refl eq_refl) as (info & cache' & Hi & _ & Hs).
  - apply ToECSKeyValuePairs_named.
  - repeat constructor; cbn [KVName KVValue]; eauto.
  - exists exampleTaskDefinition. split; [reflexivity|].
    repeat constructor; cbn [ContainerName]; eauto.
  - exists info, cache'. split; [exact Hi|].
    destruct (Hentry info cache' Hi) as [H1 H2]. auto.
Defined.

Lemma TerminateBySubdomain_managed_witness :
  pagesEndWithin 1 exampleClient statusRunning None = true /\
  exists t cache' infos,
    TerminateBySubdomain insertionSort stopsAll firstError 1 exampleClient "pr-42" ∅
    = Some (Returns (t, cache')) /\
    stopped t = ["t1"] /\
    ecs.List_ insertionSort 1 exampleClient statusRunning ∅
    = Some (Returns (infos, None, cache')) /\
    (forall arn, In arn (stopped t) <->
       exists info, In info infos /\ ID info = arn /\ SubDomain info = "pr-42") /\
    (forall info, In info infos -> managed info).
Proof.
  split; [reflexivity|].
  destruct (TerminateBySubdomain_managed insertionSort stopsAll firstError
              (insertionSort_permutation lessSubDomain) firstError_nil
              1 exampleClient "pr-42" ∅ eq_refl) as (r & Hr & Hspec).
  assert (E : match TerminateBySubdomain insertionSort stopsAll firstError 1 exampleClient
                      "pr-42" ∅ with
              | Some (Returns (t, _)) => Some (stopped t, terminateError t)
              | _ => None
              end = Some (["t1"], None)) by (vm_compute; reflexivity).
  rewrite Hr in E. destruct r as [[t cache']|]; [|discriminate].
  injection E as Hstopped Herr.
  destruct (Hspec t cache' eq_refl) as (infos & err & Hl & Hfail & Hok).
  destruct err as [e|].
  { destruct (Hfail (ex_intro _ e eq_refl)) as (_ & _ & He). congruence. }
  destruct (Hok eq_refl) as (H1 & H2 & _).
  exists t, cache', infos. auto.
Defined.

Lemma Validate_accepts_witness :
  Validate exampleInt64 noRegexp examplePurgeRequest = inl examplePurgeParams /\
  exists di,
    exampleInt64 (RequestDuration examplePurgeRequest) = Some di /\ 300 <= di /\
    Duration examplePurgeParams = int64 (di * Second).
Proof.
  assert (H : Validate exampleInt64 noRegexp examplePurgeRequest = inl examplePurgeParams)
    by (vm_compute; reflexivity).
  split; [exact H|].
  destruct (Validate_accepts exampleInt64 noRegexp examplePurgeRequest examplePurgeParams H)
    as (di & H1 & H2 & H3 & _).
  exists di. auto.
Defined.

Lemma Validate_excludes_witness :
  Validate exampleInt64 noRegexp examplePurgeRequest = inl examplePurgeParams /\
  (In (SubDomain exampleInformation) (RequestExcludes examplePurgeRequest) ->
   ShouldBePurged (10 * Minute) exampleInformation examplePurgeParams = false).
Proof.
  assert (H : Validate exampleInt64 noRegexp examplePurgeRequest = inl examplePurgeParams)
    by (vm_compute; reflexivity).
  split; [exact H|].
  exact (proj1 (Validate_excludes exampleInt64 noRegexp examplePurgeRequest
                  examplePurgeParams (10 * Minute) exampleInformation H)).
Defined.


Lemma LoadParameter_loaded_witness :
  LoadParameter [branchParameter] (fun key => if String.eqb key "branch" then "main" else "")
  = inl branchMain /\
  (forall v, In v [branchParameter] -> Required v = true ->
             is_Some (branchMain !! ecs.Name v)).
Proof.
  assert (H : LoadParameter [branchParameter]
                (fun key => if String.eqb key "branch" then "main" else "")
              = inl branchMain) by (vm_compute; reflexivity).
  split; [exact H|].
  exact (proj2 (LoadParameter_loaded [branchParameter] _ branchMain H)).
Defined.

Lemma MergeForm_GetParameter_witness :
  MergeForm emptyRequest exampleForm = Returns mergedRequest /\
  Subdomain mergedRequest = Subdomain emptyRequest.
Proof.
  assert (H : MergeForm emptyRequest exampleForm = Returns mergedRequest)
    by (vm_compute; reflexivity).
  split; [exact H|].
  exact (proj1 (MergeForm_GetParameter emptyRequest exampleForm mergedRequest H)).
Defined.

Lemma launch_calls_witness :
  launch keepCase exampleBind launches [branchParameter] ∅ = Returns exampleLaunched /\
  (code exampleLaunched = 200 <-> launchError_ exampleLaunched = None).
Proof.
  assert (H : launch keepCase exampleBind launches [branchParameter] ∅
              = Returns exampleLaunched) by (vm_compute; reflexivity).
  split; [exact H|].
  destruct (launch_calls keepCase exampleBind launches [branchParameter] ∅ exampleLaunched H)
    as (_ & H2 & _).
  exact H2.
Defined.

Lemma List_page_witness :
  exists cache',
    webapi.List_ insertionSort 1 exampleClient ∅ = Some (Returns (inl examplePage, cache')) /\
    exists infoRunning infoStopped shown,
      examplePage = (infoRunning ++ shown)%list /\
      List.NoDup (map SubDomain shown) /\
      (forall info, In info shown -> In info infoStopped).
Proof.
  destruct (webapi.List_ insertionSort 1 exampleClient ∅)
    as [[[[infos|err] cache']|]|] eqn:H.
  2-4: exfalso;
    assert (E : match webapi.List_ insertionSort 1 exampleClient ∅ with
                | Some (Returns (inl _, _)) => true
                | _ => false
                end = true) by (vm_compute; reflexivity);
    rewrite H in E; discriminate.
  assert (E : infos = examplePage) by (unfold examplePage; rewrite H; reflexivity).
  exists cache'. rewrite <- E. split; [reflexivity|].
  destruct (List_page insertionSort insertionSort_permutation insertionSort_created
              1 exampleClient ∅ infos cache' H)
    as (infoRunning & infoStopped & shown & cache1 & _ & _ & H3 & H4 & H5 & _).
  exists infoRunning, infoStopped, shown. auto.
Defined.

Lemma validateSubdomain_host_witness :
  validateSubdomain "ab" = None /\
  subdomainOf keepCase ("ab" ++ "." ++ "example.com") = mapBytes lowerByte "ab".
Proof.
  assert (H : validateSubdomain "ab" = None) by (vm_compute; reflexivity).
  split; [exact H|].
  destruct (validateSubdomain_host keepCase "ab" H) as (_ & _ & _ & _ & H5 & _).
  exact (H5 "example.com").
Defined.

End further_witnesses.
